(** * Orchestrator: the reasoning loop, the tool invoker and the workflow executor

    A shallow embedding of

      - [src/app/engine/orchestrator.py]   ([_sse], [_execute_tool],
        [_parse_inline_tool_call], [stream_agent_task], [run_agent_task]),
      - [src/app/engine/workflow_executor.py]   ([execute_graph],
        [_merge_inputs], [_execute_node]),
      - [src/tools/*.py]   (the path handling and call order of the four tools),

    followed by the properties of the specification that concern them and
    by further properties of the same code.

    Conventions.  Python text is [string]; a character of a source literal
    that is not ASCII stands as its UTF-8 bytes.  A Python object that may be
    "any JSON value" is a [value].  Dictionaries whose iteration order the
    code observes are association lists in insertion order.  Everything the
    code obtains from outside the repository (the language model, the data
    base, SMTP, HTTP, the file system, the PDF renderer, Python's [json]
    module and [str]/[int] on arbitrary objects) is a field of [Env]; each
    such collaborator sees the effects performed so far, so it may answer
    differently each time it is called.

    Limits of the model.  A collaborator always answers: with a value or
    with an exception that [except Exception] catches.  The decoder
    [json.loads] may raise what [except json.JSONDecodeError] does not
    catch (field [json_error]); [asyncio.run] and [run_until_complete]
    refuse to start inside a running event loop (field [loop_running]);
    every operation on the session may raise, [session.close()] included.
    Reading a column of a row the session holds ([agent.id], [log.id]) is
    taken not to raise.  Cancellation, a consumer that abandons a stream,
    and the limits of the interpreter outside the decoder are not modelled.
    An asynchronous generator stands as the sequence of effects it
    performs when run to its end, its frames included; the two calls before
    the [try] of [stream_agent_task] ([_get_client()] and [SessionLocal()])
    build objects and are taken not to raise.  [Path.resolve] is the lexical
    one of a file system without symbolic links.  A workflow graph is taken
    as decoded: every node has an id and every edge a source and a target,
    all texts. *)

From Stdlib Require Import List String Ascii ZArith Lia Bool Arith PeanoNat.
From Stdlib Require Import DecimalString.
Import ListNotations.
Set Warnings "-register-all".
Local Open Scope list_scope.
Local Open Scope string_scope.

(* ================================================================== *)
(** ** Python strings *)

Module PyStr.

(** ["\n"], the double quote and the backslash. *)
Definition nl : string := String "010"%char EmptyString.
Definition dq : string := String "034"%char EmptyString.
Definition backslash : string := String "092"%char EmptyString.

(** [s[n:]] where the first [n] characters of [s] are ASCII, one byte
    each (the code takes it after [startswith] of an ASCII prefix). *)
Fixpoint drop (n : nat) (s : string) : string :=
  match n, s with
  | O, _ => s
  | S _, EmptyString => EmptyString
  | S k, String _ s' => drop k s'
  end.

(** [s.startswith(p)]. *)
Definition startswith (s p : string) : bool := String.prefix p s.

(** [sep.join(parts)]. *)
Definition join (sep : string) (parts : list string) : string :=
  String.concat sep parts.

(** [s.replace(old, new)] for a non-empty [old]: occurrences are replaced
    from the left and do not overlap.  [skip] counts the characters of the
    occurrence just replaced that are still to be passed over. *)
Fixpoint replace_from (old new : string) (skip : nat) (s : string) : string :=
  match s with
  | EmptyString => EmptyString
  | String c s' =>
      match skip with
      | S k => replace_from old new k s'
      | O =>
          if String.prefix old s
          then new ++ replace_from old new (String.length old - 1) s'
          else String c (replace_from old new 0 s')
      end
  end%string.

Definition replace (old new s : string) : string := replace_from old new 0 s.

(** [s.split(sep)] for a one-character separator: never the empty list. *)
Fixpoint split (sep : ascii) (s : string) : list string :=
  match s with
  | EmptyString => [EmptyString]
  | String c s' =>
      if Ascii.eqb c sep then EmptyString :: split sep s'
      else match split sep s' with
           | [] => [String c EmptyString]
           | w :: ws => String c w :: ws
           end
  end.

(** Truthiness of a [str]. *)
Definition nonempty (s : string) : bool :=
  match s with EmptyString => false | _ => true end.

(** The white space [str.strip()] removes.  Of one byte: tab, line feed,
    vertical tab, form feed, carriage return, the four separators 28 to 31
    and the space. *)
Definition isspace (c : ascii) : bool :=
  let n := nat_of_ascii c in
  (((9 <=? n) && (n <=? 13)) || ((28 <=? n) && (n <=? 32)))%nat.

(** Of two and three bytes, as UTF-8 writes them: U+0085 and U+00A0
    ([C2 85], [C2 A0]); U+1680 ([E1 9A 80]); U+2000 to U+200A, U+2028,
    U+2029 and U+202F ([E2 80 80] to [E2 80 8A], [E2 80 A8], [E2 80 A9],
    [E2 80 AF]); U+205F ([E2 81 9F]); U+3000 ([E3 80 80]). *)
Definition space2 (a b : ascii) : bool :=
  let x := nat_of_ascii a in
  let y := nat_of_ascii b in
  ((x =? 194) && ((y =? 133) || (y =? 160)))%nat.

Definition space3 (a b c : ascii) : bool :=
  let x := nat_of_ascii a in
  let y := nat_of_ascii b in
  let z := nat_of_ascii c in
  (((x =? 225) && (y =? 154) && (z =? 128))
   || ((x =? 226) && (y =? 128)
       && (((128 <=? z) && (z <=? 138)) || (z =? 168) || (z =? 169) || (z =? 175)))
   || ((x =? 226) && (y =? 129) && (z =? 159))
   || ((x =? 227) && (y =? 128) && (z =? 128)))%nat.

(** The number of bytes of the white-space character [s] begins with; 0
    when it begins with none. *)
Definition space_width (s : string) : nat :=
  match s with
  | EmptyString => 0
  | String a r =>
      if isspace a then 1
      else match r with
           | EmptyString => 0
           | String b r' =>
               if space2 a b then 2
               else match r' with
                    | EmptyString => 0
                    | String c _ => if space3 a b c then 3 else 0
                    end
           end
  end.

(** [s.lstrip()]; [skip] counts the bytes of the white-space character
    just met that are still to be passed over. *)
Fixpoint lstrip_from (skip : nat) (s : string) : string :=
  match s with
  | EmptyString => EmptyString
  | String _ s' =>
      match skip with
      | S k => lstrip_from k s'
      | O =>
          match space_width s with
          | O => s
          | S k => lstrip_from k s'
          end
      end
  end.

Definition lstrip (s : string) : string := lstrip_from 0 s.

(** [s.rstrip()]: a byte is kept as long as something other than white
    space follows or stands there. *)
Fixpoint rstrip (s : string) : string :=
  match s with
  | EmptyString => EmptyString
  | String c s' =>
      if nonempty (lstrip (String c s')) then String c (rstrip s')
      else EmptyString
  end.

Definition strip (s : string) : string := rstrip (lstrip s).

(** [s[:n]], the first [n] characters: a byte from 128 to 191 continues
    the character before it. *)
Definition continues (c : ascii) : bool :=
  let n := nat_of_ascii c in ((128 <=? n) && (n <=? 191))%nat.

Fixpoint take_chars (n : nat) (s : string) : string :=
  match s with
  | EmptyString => EmptyString
  | String c s' =>
      if continues c then String c (take_chars n s')
      else match n with
           | O => EmptyString
           | S k => String c (take_chars k s')
           end
  end.

(** [str(n)] of an [int]. *)
Definition of_Z (z : Z) : string := NilZero.string_of_int (Z.to_int z).
Definition of_nat (n : nat) : string := of_Z (Z.of_nat n).

End PyStr.

(* ================================================================== *)
(** ** Python objects *)

Module PyVal.

(** A JSON-shaped Python object.  [VFloat] carries the IEEE-754 binary64
    bit pattern of a [float]. *)
Inductive value : Type :=
| VNone
| VBool (b : bool)
| VInt (z : Z)
| VFloat (bits : Z)
| VStr (s : string)
| VList (l : list value)
| VDict (d : list (string * value)).

(** [bool(v)]. *)
Definition truthy (v : value) : bool :=
  match v with
  | VNone => false
  | VBool b => b
  | VInt z => negb (z =? 0)%Z
  | VFloat bits => negb ((bits mod 2 ^ 63) =? 0)%Z
  | VStr s => PyStr.nonempty s
  | VList l => match l with [] => false | _ => true end
  | VDict d => match d with [] => false | _ => true end
  end.

(** [a or b]. *)
Definition por (a b : value) : value := if truthy a then a else b.

(** [isinstance(v, str)] and [isinstance(v, dict)]. *)
Definition is_str (v : value) : bool :=
  match v with VStr _ => true | _ => false end.
Definition is_dict (v : value) : bool :=
  match v with VDict _ => true | _ => false end.

(** [v == "literal"]. *)
Definition eq_str (v : value) (s : string) : bool :=
  match v with VStr t => String.eqb t s | _ => false end.

(** Lookup, update and keys of an insertion-ordered dictionary. *)
Fixpoint lookup {A} (k : string) (d : list (string * A)) : option A :=
  match d with
  | [] => None
  | (k', v) :: d' => if String.eqb k k' then Some v else lookup k d'
  end.

Fixpoint update {A} (k : string) (v : A) (d : list (string * A))
  : list (string * A) :=
  match d with
  | [] => [(k, v)]
  | (k', v') :: d' =>
      if String.eqb k k' then (k, v) :: d' else (k', v') :: update k v d'
  end.

Definition keys {A} (d : list (string * A)) : list string := map fst d.

(** [d.get(k, default)]. *)
Definition get_or {A} (k : string) (default : A) (d : list (string * A)) : A :=
  match lookup k d with Some v => v | None => default end.

(** [x in xs] on strings. *)
Definition mem (x : string) (xs : list string) : bool :=
  existsb (String.eqb x) xs.

End PyVal.
Export PyVal.

(* ================================================================== *)
(** ** POSIX paths: [os.path] and [pathlib] *)

Module Posix.

(** The components of a path text: split at the slash, empty and [.]
    components dropped. *)
Definition parts_of (s : string) : list string :=
  filter (fun c => negb (String.eqb c EmptyString || String.eqb c "."))
         (PyStr.split "/"%char s).

(** [os.path.isabs] and [os.path.basename] (the text after the last slash). *)
Definition isabs (s : string) : bool := PyStr.startswith s "/".
Definition basename (s : string) : string :=
  last (PyStr.split "/"%char s) EmptyString.

(** A [pathlib.PurePosixPath]. *)
Record Path := { anchored : bool; parts : list string }.

Definition Path_of (s : string) : Path :=
  {| anchored := isabs s; parts := parts_of s |}.

(** [p / q]: an absolute right operand replaces the left one. *)
Definition joinpath (p q : Path) : Path :=
  if anchored q then q
  else {| anchored := anchored p; parts := parts p ++ parts q |}.

(** [p.name]: the last component, [..] included; empty when there is none. *)
Definition name (p : Path) : string := last (parts p) EmptyString.

(** [str(p)]. *)
Definition str (p : Path) : string :=
  if anchored p then "/" ++ PyStr.join "/" (parts p)
  else match parts p with
       | [] => "."
       | _ => PyStr.join "/" (parts p)
       end.

(** [os.path.normpath] on the components of an absolute path: [..] pops
    the component before it and is dropped at the root.  [seen] is the
    stack of kept components, innermost first. *)
Fixpoint normalize (seen : list string) (comps : list string) : list string :=
  match comps with
  | [] => rev seen
  | c :: cs =>
      if String.eqb c ".." then normalize (tl seen) cs
      else normalize (c :: seen) cs
  end.

(** The components of [os.path.abspath(s)] in a process whose working
    directory has the components [cwd]. *)
Definition abs_parts (cwd : list string) (s : string) : list string :=
  normalize [] (if isabs s then parts_of s else cwd ++ parts_of s).

Definition abspath (cwd : list string) (s : string) : string :=
  "/" ++ PyStr.join "/" (abs_parts cwd s).

(** [Path(s).resolve()] on a file system without symbolic links. *)
Definition resolve (cwd : list string) (s : string) : Path :=
  {| anchored := true; parts := abs_parts cwd s |}.

(** [os.path.dirname] of a normalised absolute path. *)
Definition dirname (cwd : list string) (s : string) : string :=
  "/" ++ PyStr.join "/" (removelast (abs_parts cwd s)).

(** The path with components [p] is the directory with components [dir]
    or lies below it. *)
Fixpoint within (dir p : list string) : bool :=
  match dir, p with
  | [], _ => true
  | d :: dir', c :: p' => String.eqb d c && within dir' p'
  | _ :: _, [] => false
  end.

End Posix.

(* ================================================================== *)
(** ** A reference [json] codec

    Python's [json] module is outside the repository: the development is
    parametric in it (fields [json_loads] and [json_dumps] of [Env]).  This
    module is a reference implementation used to evaluate the code on
    concrete inputs.  It follows [json.dumps] (default separators,
    [ensure_ascii]) and [json.loads] (strict mode, [parse_float] as a
    parameter) and is exact on ASCII text; a [\u] escape above 127 is
    decoded to UTF-8 without pairing surrogates, and a byte above 127 is
    written as a [\u00XX] escape. *)

Module Json.

Definition hex_digit (n : nat) : ascii :=
  nth n ["0"; "1"; "2"; "3"; "4"; "5"; "6"; "7"; "8"; "9";
         "a"; "b"; "c"; "d"; "e"; "f"]%char "0"%char.

Definition escape_char (c : ascii) : string :=
  let n := nat_of_ascii c in
  if (n =? 34)%nat then PyStr.backslash ++ PyStr.dq
  else if (n =? 92)%nat then PyStr.backslash ++ PyStr.backslash
  else if (n =? 10)%nat then PyStr.backslash ++ "n"
  else if (n =? 13)%nat then PyStr.backslash ++ "r"
  else if (n =? 9)%nat then PyStr.backslash ++ "t"
  else if (n =? 8)%nat then PyStr.backslash ++ "b"
  else if (n =? 12)%nat then PyStr.backslash ++ "f"
  else if ((32 <=? n) && (n <=? 126))%nat then String c EmptyString
  else PyStr.backslash ++ "u00"
       ++ String (hex_digit (n / 16)) (String (hex_digit (n mod 16)) EmptyString).

Fixpoint escape (s : string) : string :=
  match s with
  | EmptyString => EmptyString
  | String c s' => escape_char c ++ escape s'
  end.

Definition quote (s : string) : string := PyStr.dq ++ escape s ++ PyStr.dq.

(** [json.dumps(v)]; [float_repr] prints a float from its bit pattern. *)
Fixpoint dumps (float_repr : Z -> string) (v : value) : string :=
  match v with
  | VNone => "null"
  | VBool true => "true"
  | VBool false => "false"
  | VInt z => PyStr.of_Z z
  | VFloat bits => float_repr bits
  | VStr s => quote s
  | VList l => "[" ++ PyStr.join ", " (map (dumps float_repr) l) ++ "]"
  | VDict d =>
      "{" ++ PyStr.join ", "
               (map (fun kv => match kv with
                               | (k, x) => quote k ++ ": " ++ dumps float_repr x
                               end) d)
          ++ "}"
  end.

(** *** Decoding *)

Definition is_ws (c : ascii) : bool :=
  let n := nat_of_ascii c in
  ((n =? 32) || (n =? 9) || (n =? 10) || (n =? 13))%nat.

Fixpoint skip_ws (s : string) : string :=
  match s with
  | EmptyString => EmptyString
  | String c r => if is_ws c then skip_ws r else s
  end.

Definition is_digit (c : ascii) : bool :=
  let n := nat_of_ascii c in ((48 <=? n) && (n <=? 57))%nat.

Definition hex_value (c : ascii) : option nat :=
  let n := nat_of_ascii c in
  if ((48 <=? n) && (n <=? 57))%nat then Some (n - 48)
  else if ((97 <=? n) && (n <=? 102))%nat then Some (n - 87)
  else if ((65 <=? n) && (n <=? 70))%nat then Some (n - 55)
  else None.

(** UTF-8 bytes of a code point below 65536. *)
Definition utf8 (n : nat) : string :=
  let b k := ascii_of_nat k in
  if (n <? 128)%nat then String (b n) EmptyString
  else if (n <? 2048)%nat
  then String (b (192 + n / 64)) (String (b (128 + n mod 64)) EmptyString)
  else String (b (224 + n / 4096))
         (String (b (128 + (n / 64) mod 64))
            (String (b (128 + n mod 64)) EmptyString)).

Definition unescape (e : ascii) : option ascii :=
  let n := nat_of_ascii e in
  if (n =? 34)%nat then Some e
  else if (n =? 92)%nat then Some e
  else if (n =? 47)%nat then Some e
  else if (n =? 98)%nat then Some (ascii_of_nat 8)
  else if (n =? 102)%nat then Some (ascii_of_nat 12)
  else if (n =? 110)%nat then Some (ascii_of_nat 10)
  else if (n =? 114)%nat then Some (ascii_of_nat 13)
  else if (n =? 116)%nat then Some (ascii_of_nat 9)
  else None.

(** The body of a string, after its opening quote: the decoded text and
    what follows the closing quote.  A raw control character is an error. *)
Fixpoint scan_string (s : string) : option (string * string) :=
  match s with
  | EmptyString => None
  | String c r =>
      let n := nat_of_ascii c in
      if (n =? 34)%nat then Some (EmptyString, r)
      else if (n =? 92)%nat then
        match r with
        | String "u" (String h1 (String h2 (String h3 (String h4 r')))) =>
            match hex_value h1, hex_value h2, hex_value h3, hex_value h4 with
            | Some a, Some b, Some c', Some d =>
                match scan_string r' with
                | Some (t, rest) =>
                    Some ((utf8 (((a * 16 + b) * 16 + c') * 16 + d) ++ t)%string, rest)
                | None => None
                end
            | _, _, _, _ => None
            end
        | String e r' =>
            match unescape e, scan_string r' with
            | Some x, Some (t, rest) => Some (String x t, rest)
            | _, _ => None
            end
        | EmptyString => None
        end
      else if (n <? 32)%nat then None
      else match scan_string r with
           | Some (t, rest) => Some (String c t, rest)
           | None => None
           end
  end.

(** The longest run of digits at the head of [s], and the rest. *)
Fixpoint span_digits (s : string) : string * string :=
  match s with
  | String c r =>
      if is_digit c then let (d, rest) := span_digits r in (String c d, rest)
      else (EmptyString, s)
  | EmptyString => (EmptyString, EmptyString)
  end.

Definition digits_to_Z (d : string) : Z :=
  (fix go (acc : Z) (s : string) : Z :=
     match s with
     | EmptyString => acc
     | String c r => go (acc * 10 + Z.of_nat (nat_of_ascii c - 48))%Z r
     end) 0%Z d.

(** A number at the head of [s]: sign, integer part ([0] or a run that
    does not start with [0]), optional fraction and exponent. *)
Definition scan_number (parse_float : string -> Z) (s : string)
  : option (value * string) :=
  let (sign, s1) :=
    match s with
    | String "-" r => ("-", r)
    | _ => (EmptyString, s)
    end in
  let (ds, s2) := span_digits s1 in
  match ds with
  | EmptyString => None
  | String d0 more =>
      let (int_part, s3) :=
        if Ascii.eqb d0 "0" then ("0", (more ++ s2)%string) else (ds, s2) in
      let (frac, s4) :=
        match s3 with
        | String "." r =>
            let (fd, r') := span_digits r in
            match fd with
            | EmptyString => (EmptyString, s3)
            | _ => (("." ++ fd)%string, r')
            end
        | _ => (EmptyString, s3)
        end in
      let (expo, s5) :=
        match s4 with
        | String e r =>
            if Ascii.eqb e "e" || Ascii.eqb e "E" then
              let (sg, r1) :=
                match r with
                | String "+" r0 => ("+", r0)
                | String "-" r0 => ("-", r0)
                | _ => (EmptyString, r)
                end in
              let (ed, r2) := span_digits r1 in
              match ed with
              | EmptyString => (EmptyString, s4)
              | _ => ((String e sg ++ ed)%string, r2)
              end
            else (EmptyString, s4)
        | EmptyString => (EmptyString, s4)
        end in
      match frac, expo with
      | EmptyString, EmptyString =>
          let z := digits_to_Z int_part in
          Some (VInt (if String.eqb sign "-" then - z else z)%Z, s5)
      | _, _ => Some (VFloat (parse_float (sign ++ int_part ++ frac ++ expo)%string), s5)
      end
  end.

(** [s] without the literal [lit] at its head. *)
Definition after (lit s : string) : option string :=
  if String.prefix lit s then Some (PyStr.drop (String.length lit) s) else None.

(** One value at the head of [s]; the members of an array (from a value) and
    of an object (from the quote that opens a key). *)
Fixpoint scan_once (parse_float : string -> Z) (fuel : nat) (s : string)
  {struct fuel} : option (value * string) :=
  match fuel with
  | O => None
  | S f =>
      match s with
      | String c r =>
          let n := nat_of_ascii c in
          if (n =? 34)%nat then
            match scan_string r with
            | Some (t, rest) => Some (VStr t, rest)
            | None => None
            end
          else if (n =? 123)%nat then
            match skip_ws r with
            | String "}" rest => Some (VDict [], rest)
            | r' => scan_object parse_float f [] r'
            end
          else if (n =? 91)%nat then
            match skip_ws r with
            | String "]" rest => Some (VList [], rest)
            | r' => scan_array parse_float f [] r'
            end
          else
            match after "null" s, after "true" s, after "false" s with
            | Some rest, _, _ => Some (VNone, rest)
            | _, Some rest, _ => Some (VBool true, rest)
            | _, _, Some rest => Some (VBool false, rest)
            | _, _, _ =>
                match after "NaN" s, after "Infinity" s, after "-Infinity" s with
                | Some rest, _, _ => Some (VFloat 9221120237041090560, rest)
                | _, Some rest, _ => Some (VFloat 9218868437227405312, rest)
                | _, _, Some rest => Some (VFloat 18442240474082181120, rest)
                | _, _, _ => scan_number parse_float s
                end
            end
      | EmptyString => None
      end
  end
with scan_array (parse_float : string -> Z) (fuel : nat) (acc : list value)
       (s : string) {struct fuel} : option (value * string) :=
  match fuel with
  | O => None
  | S f =>
      match scan_once parse_float f s with
      | Some (x, rest) =>
          match skip_ws rest with
          | String "," r => scan_array parse_float f (acc ++ [x]) (skip_ws r)
          | String "]" r => Some (VList (acc ++ [x]), r)
          | _ => None
          end
      | None => None
      end
  end
with scan_object (parse_float : string -> Z) (fuel : nat)
       (acc : list (string * value)) (s : string) {struct fuel}
  : option (value * string) :=
  match fuel with
  | O => None
  | S f =>
      match s with
      | String q r =>
          if (nat_of_ascii q =? 34)%nat then
            match scan_string r with
            | Some (k, rest) =>
                match skip_ws rest with
                | String ":" r1 =>
                    match scan_once parse_float f (skip_ws r1) with
                    | Some (x, rest') =>
                        match skip_ws rest' with
                        | String "," r2 =>
                            scan_object parse_float f (update k x acc) (skip_ws r2)
                        | String "}" r2 => Some (VDict (update k x acc), r2)
                        | _ => None
                        end
                    | None => None
                    end
                | _ => None
                end
            | None => None
            end
          else None
      | EmptyString => None
      end
  end.

(** [json.loads(s)]: one value between optional white space; [None] stands
    for [JSONDecodeError]. *)
Definition loads (parse_float : string -> Z) (s : string) : option value :=
  match scan_once parse_float (2 * String.length s + 2) (skip_ws s) with
  | Some (v, rest) =>
      match skip_ws rest with
      | EmptyString => Some v
      | _ => None
      end
  | None => None
  end.

End Json.

(* ================================================================== *)
(** ** Records, effects and the environment *)

Module World.

(** [app.models.agent_models.Agent] and [TaskLog] (the columns the core
    reads and writes). *)
Record Agent := {
  agent_id : Z;
  agent_name : string;
  agent_role : string;
  agent_model_name : option string;
  agent_backstory : option string;
  agent_tools : option string
}.

Record TaskLog := {
  log_agent_id : Z;
  input_query : string;
  thought_process : string;
  final_output : string
}.

(** A structured tool call of a model response: [tc.id],
    [tc.function.name], [tc.function.arguments]. *)
Record tool_call := {
  tc_id : string;
  tc_name : string;
  tc_arguments : string
}.

(** [response.choices[i].message]. *)
Record chat_message := {
  content : option string;
  tool_calls : list tool_call
}.

(** The entries of the conversation list [messages]. *)
Inductive message : Type :=
| SystemMsg (text : string)
| UserMsg (text : string)
| AssistantToolCall (id name arguments : string)
| ToolResult (tool_call_id name text : string)
| AssistantMsg (text : string).

(** A raised exception: its class and [str(exc)]. *)
Record exn := { exc_class : string; exc_text : string }.

Inductive result (A : Type) : Type :=
| Ok (a : A)
| Raise (e : exn).
Arguments Ok {A} a.
Arguments Raise {A} e.

(** What a run does to the outside, in order. *)
Inductive effect : Type :=
| Yield (event data : string)
    (* [yield _sse(event, data)] *)
| ChatCompletion (model : string) (messages : list message) (tools : list string)
    (* [client.chat.completions.create] *)
| SessionGet (id : Z)
| SessionAdd (log : TaskLog)
    (* [session.add(log)] *)
| SessionCommit (log : TaskLog)
    (* [session.commit()] with [log] pending: the row is written when it
       returns *)
| SessionRefresh (log : TaskLog)
    (* [session.refresh(log)], which loads [log.id] *)
| SessionClose
    (* [session.close()], [self.db.close()] *)
| MkDir (path : string)
| PdfRender (title body : value)
    (* the document built in memory, from [_ReportPDF(...)] to
       [multi_cell]: pages, header, text, and the font, which
       [_configure_font] reads from the file that [AGENTFLOW_PDF_FONT_PATH]
       names when that file exists *)
| PdfOutput (path : string)
| IsFile (path : string)
| OpenRead (path : string)
    (* the image tool: [img_path.open("rb")] and [f.read()] *)
| VisionChat (model : string) (prompt : value) (path : string)
| HttpGet (url : value)
| SendEmail (to subject body : value).

Definition history := list effect.

(** The number of chat completions among some effects. *)
Definition queries (w : list effect) : nat :=
  List.length (filter (fun e => match e with
                                | ChatCompletion _ _ _ => true
                                | _ => false
                                end) w).

(** The collaborators.  Each answers from the effects performed before
    the call. *)
Record Env := {
  (** components of the working directory of the process *)
  cwd : list string;
  (** [json.loads]: the object decoded, or [None] when it raises, and then
      [json_error] is what it raises: a [JSONDecodeError], or another
      exception ([ValueError] for an integer of more than 4300 digits,
      [RecursionError] for a text nested too deep); [json.dumps] *)
  json_loads : string -> option value;
  json_error : string -> exn;
  json_dumps : value -> string;
  (** [str(v)] of an object that is not a [str]; [int(v)] of an object that
      is neither an [int] nor a [bool] *)
  py_repr : value -> string;
  py_int_of : value -> result Z;
  (** whether an operation without a result raises *)
  io_raises : history -> effect -> option exn;
  (** [session.get(Agent, id)], and [log.id] once [session.refresh(log)]
      has loaded it *)
  session_get : history -> Z -> result (option Agent);
  session_refresh : history -> TaskLog -> result Z;
  (** the choices of a chat completion *)
  chat_create : history -> string -> list message -> list string
                -> result (list chat_message);
  (** [Path.is_file], the vision model's answer, the scraped text *)
  is_file : history -> string -> bool;
  vision_chat : history -> string -> value -> string -> result string;
  scrape_url : history -> value -> result string;
  (** whether the caller runs inside an event loop of [asyncio] *)
  loop_running : bool
}.

(** The same collaborators, seen from inside a running event loop: the
    body of an asynchronous generator or of a coroutine. *)
Definition in_loop (env : Env) : Env :=
  {| cwd := cwd env;
     json_loads := json_loads env;
     json_error := json_error env;
     json_dumps := json_dumps env;
     py_repr := py_repr env;
     py_int_of := py_int_of env;
     io_raises := io_raises env;
     session_get := session_get env;
     session_refresh := session_refresh env;
     chat_create := chat_create env;
     is_file := is_file env;
     vision_chat := vision_chat env;
     scrape_url := scrape_url env;
     loop_running := true |}.

(** [except json.JSONDecodeError] catches [e]. *)
Definition decode_error (e : exn) : bool :=
  String.eqb (exc_class e) "JSONDecodeError".

End World.
Export World.

(* ================================================================== *)
(** ** Computations with effects and exceptions *)

Module Run.

(** A computation reads the effects performed so far and returns its
    outcome with the effects it performs itself, oldest first. *)
Definition M (A : Type) : Type := history -> result A * list effect.

Definition ret {A} (a : A) : M A := fun _ => (Ok a, []).

Definition raise {A} (cls text : string) : M A :=
  fun _ => (Raise {| exc_class := cls; exc_text := text |}, []).

Definition bind {A B} (m : M A) (k : A -> M B) : M B :=
  fun h =>
    match m h with
    | (Ok a, w) => let (r, w') := k a (h ++ w)%list in (r, (w ++ w')%list)
    | (Raise e, w) => (Raise e, w)
    end.

(** [try: m  except Exception as exc: handler(exc)]. *)
Definition try_except {A} (m : M A) (handler : exn -> M A) : M A :=
  fun h =>
    match m h with
    | (Ok a, w) => (Ok a, w)
    | (Raise e, w) => let (r, w') := handler e (h ++ w)%list in (r, (w ++ w')%list)
    end.

(** [try: m  finally: fin]. *)
Definition try_finally {A} (m : M A) (fin : M unit) : M A :=
  fun h =>
    let (r, w) := m h in
    match fin (h ++ w)%list with
    | (Ok _, w') => (r, (w ++ w')%list)
    | (Raise e, w') => (Raise e, (w ++ w')%list)
    end.

(** Perform [e], an operation without a result. *)
Definition perform (env : Env) (e : effect) : M unit :=
  fun h =>
    (match io_raises env h e with
     | Some x => Raise x
     | None => Ok tt
     end, [e]).

(** Perform [e] and take the collaborator's answer. *)
Definition ask {A} (e : effect) (answer : history -> result A) : M A :=
  fun h => (answer h, [e]).

(** An effect that cannot fail. *)
Definition emit (e : effect) : M unit := fun _ => (Ok tt, [e]).

(** A result computed without effects. *)
Definition lift {A} (r : result A) : M A := fun _ => (r, []).

End Run.
Export Run.

Declare Scope run_scope.
Delimit Scope run_scope with run.
Notation "x <- m ;; k" := (bind m (fun x => k))
  (at level 61, m at next level, right associativity) : run_scope.
Notation "' pat <- m ;; k" := (bind m (fun x => match x with pat => k end))
  (at level 61, pat pattern, m at next level, right associativity) : run_scope.
Notation "m ;; k" := (bind m (fun _ => k))
  (at level 61, right associativity) : run_scope.
Local Open Scope run_scope.

(* ================================================================== *)
(** ** The tools: [src/tools/*.py] *)

Module Tools.
Section WithEnv.
Variable env : Env.

(** [type(v).__name__]. *)
Definition type_name (v : value) : string :=
  match v with
  | VNone => "NoneType"
  | VBool _ => "bool"
  | VInt _ => "int"
  | VFloat _ => "float"
  | VStr _ => "str"
  | VList _ => "list"
  | VDict _ => "dict"
  end.

(** [str(v)], as an f-string formats [v]. *)
Definition py_str (v : value) : string :=
  match v with
  | VStr s => s
  | VNone => "None"
  | VBool true => "True"
  | VBool false => "False"
  | VInt z => PyStr.of_Z z
  | _ => py_repr env v
  end.

(** [int(v)]. *)
Definition py_int (v : value) : M Z :=
  match v with
  | VInt z => ret z
  | VBool b => ret (if b then 1 else 0)%Z
  | _ => lift (py_int_of env v)
  end.

(** The mapping behind [v.get]: only a [dict] has the method. *)
Definition attr_get (v : value) : M (list (string * value)) :=
  match v with
  | VDict d => ret d
  | _ => raise "AttributeError"
           ("'" ++ type_name v ++ "' object has no attribute 'get'")
  end.

(** [sep.join(v)]: a list of [str], or the keys of a [dict]. *)
Definition py_join (sep : string) (v : value) : M string :=
  match v with
  | VList l =>
      if forallb is_str l
      then ret (PyStr.join sep (map py_str l))
      else raise "TypeError" "sequence item: expected str instance"
  | VDict d => ret (PyStr.join sep (keys d))
  | VStr s =>
      ret (PyStr.join sep (map (fun c => String c EmptyString) (list_ascii_of_string s)))
  | _ => raise "TypeError" "can only join an iterable"
  end.

(** [vision_tool.UPLOADS_DIR = Path("uploads").resolve()]. *)
Definition UPLOADS_DIR : Posix.Path := Posix.resolve (cwd env) "uploads".

Definition DEFAULT_VISION_MODEL : string := "llama3.2-vision:11b".

(** [PDFReportTool.generate_report]: render, make the directory of the
    absolute output path, write the file, return the path. *)
Definition generate_report (title body : value) (filename : string) : M string :=
  perform env (PdfRender title body) ;;
  let output_path := Posix.abspath (cwd env) filename in
  perform env (MkDir (Posix.dirname (cwd env) filename)) ;;
  perform env (PdfOutput output_path) ;;
  ret output_path.

(** [VisionAnalysisTool.analyze_image]. *)
Definition analyze_image (image_path prompt : value) (model_name : string)
  : M string :=
  match image_path with
  | VStr p =>
      let img_path := Posix.str (Posix.resolve (cwd env) p) in
      if negb (PyStr.startswith img_path (Posix.str UPLOADS_DIR))
      then raise "ValueError"
             "Image path is not within the allowed uploads directory."
      else
        f <- ask (IsFile img_path) (fun h => Ok (is_file env h img_path)) ;;
        if negb f
        then raise "FileNotFoundError" ("Image not found at " ++ img_path)
        else
          perform env (OpenRead img_path) ;;
          let user_prompt :=
            por prompt
              (VStr "Describe this image in detail, focusing on any data, patterns, or key elements.") in
          let model :=
            if PyStr.nonempty model_name then model_name else DEFAULT_VISION_MODEL in
          ask (VisionChat model user_prompt img_path)
              (fun h => vision_chat env h model user_prompt img_path)
  | _ => raise "TypeError"
           ("expected str, bytes or os.PathLike object, not " ++ type_name image_path)
  end.

(** [WebScraperTool.scrape_url], awaited or run. *)
Definition scrape (url : value) : M string :=
  ask (HttpGet url) (fun h => scrape_url env h url).

(** [asyncio.run(coro)]: refused inside a running event loop, before the
    coroutine has started. *)
Definition asyncio_run {A} (coro : M A) : M A :=
  if loop_running env
  then raise "RuntimeError" "asyncio.run() cannot be called from a running event loop"
  else coro.

(** [json.loads(s)] under [except json.JSONDecodeError]: the object
    decoded, or [None] when a [JSONDecodeError] was caught; any other
    exception of the decoder is raised. *)
Definition loads_guarded (s : string) : M (option value) :=
  match json_loads env s with
  | Some v => ret (Some v)
  | None =>
      if decode_error (json_error env s) then ret None
      else lift (Raise (json_error env s))
  end.

(** [MailTool.send_email]. *)
Definition send_email (to subject body : value) : M unit :=
  perform env (SendEmail to subject body).

End WithEnv.
End Tools.
Export Tools.

(* ================================================================== *)
(** ** The reasoning loop: [src/app/engine/orchestrator.py] *)

Module Orchestrator.

Definition DEFAULT_MODEL_NAME : string := "mistral:7b".
Definition MAX_REACT_STEPS : nat := 10.

(** [REPORTS_DIR = Path("reports")]: relative, not resolved. *)
Definition REPORTS_DIR : Posix.Path := Posix.Path_of "reports".

(** [_sse]: one frame, the payload kept on one line. *)
Definition _sse (event data : string) : string :=
  let payload := PyStr.replace PyStr.nl "\n" data in
  "event: " ++ event ++ PyStr.nl ++ "data: " ++ payload ++ PyStr.nl ++ PyStr.nl.

Definition yield_ (event data : string) : M unit := emit (Yield event data).

(** The events and the frames among the effects of a run. *)
Definition events_of (w : list effect) : list (string * string) :=
  flat_map (fun e => match e with Yield ev d => [(ev, d)] | _ => [] end) w.

Definition frames_of (w : list effect) : list string :=
  map (fun ed => _sse (fst ed) (snd ed)) (events_of w).

Definition _TOOL_ALIASES : list (string * string) :=
  [ ("pdf_report_tool", "generate_pdf_report");
    ("pdf_tool", "generate_pdf_report");
    ("scraper_tool", "web_scraper_tool");
    ("web_scraper", "web_scraper_tool") ].

(** [_TOOL_ALIASES.get(tool_name, tool_name)]: a key must be hashable. *)
Definition resolve_alias (tool_name : value) : M value :=
  match tool_name with
  | VStr s => ret (VStr (get_or s s _TOOL_ALIASES))
  | VList _ | VDict _ =>
      raise "TypeError" ("unhashable type: '" ++ type_name tool_name ++ "'")
  | _ => ret tool_name
  end.

Section WithEnv.
Variable env : Env.

(** The four branches in the [try] of [_execute_tool]; [None] means that
    no branch was taken. *)
Definition tool_branches (name args : value) (model_name : string)
  : M (option (string * option string)) :=
  if eq_str name "generate_pdf_report" then
    d <- attr_get args ;;
    let title := get_or "title" (VStr "AI Research Report") d in
    let body := get_or "content" (VStr EmptyString) d in
    match get_or "filename" (VStr "report.pdf") d with
    | VStr raw_file =>
        let raw_file :=
          if Posix.isabs raw_file then Posix.basename raw_file
          else raw_file in
        perform env (MkDir (Posix.str REPORTS_DIR)) ;;
        path <- generate_report env title body
                  (Posix.str (Posix.joinpath REPORTS_DIR
                                (Posix.Path_of raw_file))) ;;
        ret (Some ("SUCCESS: PDF saved to '" ++ path ++ "'.", Some path))
    | other =>
        raise "TypeError"
          ("expected str, bytes or os.PathLike object, not "
           ++ type_name other)
    end
  else if eq_str name "analyze_image" then
    d <- attr_get args ;;
    let img := get_or "image_path" VNone d in
    if negb (truthy img)
    then ret (Some ("ERROR: image_path is required.", None))
    else
      desc <- analyze_image env img (get_or "prompt" VNone d) model_name ;;
      ret (Some ("Image analysis result:" ++ PyStr.nl ++ desc, None))
  else if eq_str name "web_scraper_tool" then
    d <- attr_get args ;;
    let url := por (get_or "url" VNone d)
                 (por (get_or "target_url" VNone d)
                      (get_or "source" VNone d)) in
    if negb (truthy url)
    then ret (Some ("ERROR: 'url' is required for web scraping.", None))
    else
      text <- asyncio_run env (scrape env url) ;;
      let preview := PyStr.take_chars 3000 text in
      ret (Some ("Scraped content from " ++ py_str env url ++ ":"
                 ++ PyStr.nl ++ preview, None))
  else if eq_str name "send_email" then
    d <- attr_get args ;;
    let to := por (get_or "to" VNone d) (VList []) in
    let subject := por (get_or "subject" VNone d)
                     (VStr "AgentFlow Local Report") in
    let body := por (get_or "body" VNone d) (VStr EmptyString) in
    let to := if is_str to then VList [to] else to in
    if negb (truthy to)
    then ret (Some ("ERROR: 'to' (recipient list) is required.", None))
    else
      send_email env to subject body ;;
      joined <- py_join env ", " to ;;
      ret (Some ("SUCCESS: email dispatched to " ++ joined ++ ".", None))
  else ret None.

(** [json.loads(arguments_json) if arguments_json else {}], when it
    returns. *)
Definition parsed_arguments (arguments_json : string) : option value :=
  if PyStr.nonempty arguments_json
  then json_loads env arguments_json else Some (VDict []).

(** [_execute_tool]. *)
Definition _execute_tool (tool_name : value) (arguments_json model_name : string)
  : M (string * option string) :=
  match parsed_arguments arguments_json with
  | None =>
      if decode_error (json_error env arguments_json)
      then ret ("ERROR: tool arguments could not be parsed as JSON.", None)
      else lift (Raise (json_error env arguments_json))
  | Some args =>
      name <- resolve_alias tool_name ;;
      taken <-
        try_except
          (tool_branches name args model_name)
          (fun exc =>
             ret (Some ("ERROR while executing '" ++ py_str env name ++ "': "
                        ++ exc_text exc, None))) ;;
      match taken with
      | Some r => ret r
      | None => ret ("ERROR: unknown tool '" ++ py_str env tool_name ++ "'.", None)
      end
  end.

(** [re.search(r"\{.*\}", text, re.DOTALL)]: from the first opening brace
    to the last closing brace after it. *)
Fixpoint from_first (c : ascii) (s : string) : option string :=
  match s with
  | EmptyString => None
  | String x r => if Ascii.eqb x c then Some s else from_first c r
  end.

Fixpoint upto_last (c : ascii) (s : string) : option string :=
  match s with
  | EmptyString => None
  | String x r =>
      match upto_last c r with
      | Some t => Some (String x t)
      | None => if Ascii.eqb x c then Some (String x EmptyString) else None
      end
  end.

Definition search_braces (text : string) : option string :=
  match from_first "{" text with
  | Some s => upto_last "}" s
  | None => None
  end.

(** [_parse_inline_tool_call]. *)
Definition _parse_inline_tool_call (text : string)
  : M (option (value * list (string * value))) :=
  if negb (PyStr.nonempty text) then ret None
  else
    match search_braces text with
    | None => ret None
    | Some found =>
        decoded <- loads_guarded env found ;;
        match decoded with
        | None => ret None
        | Some obj =>
            d <- attr_get obj ;;
            let name := por (get_or "tool" VNone d)
                          (por (get_or "tool_name" VNone d)
                               (get_or "name" VNone d)) in
            if negb (truthy name) then ret None
            else
              let raw_args :=
                por (get_or "arguments" VNone d)
                  (por (get_or "args" VNone d)
                     (por (get_or "params" VNone d) (VDict []))) in
              raw_args <-
                match raw_args with
                | VStr s =>
                    decoded <- loads_guarded env s ;;
                    ret match decoded with
                        | Some v => v
                        | None => VDict []
                        end
                | _ => ret raw_args
                end ;;
              match raw_args with
              | VDict a => ret (Some (name, a))
              | _ => ret (Some (name, []))
              end
        end
    end.

(** The tool names of an agent, as [_build_system_prompt] and
    [_get_tool_schemas] both read them from [agent.tools], when decoding
    it returns or raises a [JSONDecodeError]; what else the decoder may
    raise there is [tools_guard]. *)
Definition tool_names_of (agent : Agent) : list string :=
  match agent_tools agent with
  | Some t =>
      if PyStr.nonempty t then
        match json_loads env t with
        | Some (VList l) => map (py_str env) l
        | Some _ => []
        | None => [t]
        end
      else []
  | None => []
  end.

(** [_build_system_prompt], when it returns. *)
Definition _build_system_prompt (agent : Agent) : string :=
  let q := PyStr.dq in
  let parts :=
    [("You are an AI agent named '" ++ agent_name agent
        ++ "' with the role '" ++ agent_role agent ++ "'.")%string] in
  let parts :=
    match agent_backstory agent with
    | Some b =>
        if PyStr.nonempty b
        then (parts ++ [("Background and instructions: " ++ b)%string])%list
        else parts
    | None => parts
    end in
  let tool_names := tool_names_of agent in
  let parts :=
    match tool_names with
    | [] => parts
    | _ =>
        (parts
         ++ [("You have access to these tools: " ++ PyStr.join ", " tool_names ++ ".")%string;
             ("CRITICAL RULES FOR TOOL USE — follow these without exception:" ++ PyStr.nl
             ++ "1. NEVER ask the user for a URL or any other input if your instructions already specify "
             ++ "   a website, URL, or data source. Extract the URL from your instructions and call "
             ++ "   web_scraper_tool immediately." ++ PyStr.nl
             ++ "2. If the task involves producing a document or report, call pdf_report_tool with the "
             ++ "   collected content — do not just describe the output." ++ PyStr.nl
             ++ "3. ALWAYS call tools by emitting a valid function call (or a JSON block with "
             ++ "   {" ++ q ++ "tool" ++ q ++ ": " ++ q ++ "<name>" ++ q ++ ", "
             ++ q ++ "arguments" ++ q ++ ": {...}}). Never describe what you would do; execute it."
             ++ PyStr.nl
             ++ "4. After receiving a tool observation, synthesise a clear final answer for the user.")%string])%list
    end in
  let parts :=
    (parts
     ++ [("Follow the ReAct loop strictly: THINK → ACT (call a tool) → OBSERVE → repeat until done "
          ++ "→ give a concise final answer.")%string])%list in
  PyStr.join PyStr.nl parts.

(** [_get_tool_schemas], when it returns: a schema is a constant of its
    tool and stands as the function name it declares. *)
Definition schema_mapping : list (string * string) :=
  [ ("pdf_report_tool", "generate_pdf_report");
    ("vision_analysis_tool", "analyze_image");
    ("web_scraper_tool", "web_scraper_tool");
    ("send_email", "send_email") ].

Definition _get_tool_schemas (agent : Agent) : list string :=
  flat_map (fun name => match lookup name schema_mapping with
                        | Some schema => [schema]
                        | None => []
                        end)
           (tool_names_of agent).

(** What [json.loads(agent.tools)] raises past
    [except json.JSONDecodeError], in [_build_system_prompt] and again in
    [_get_tool_schemas]. *)
Definition tools_guard (agent : Agent) : result unit :=
  match agent_tools agent with
  | Some t =>
      if PyStr.nonempty t then
        match json_loads env t with
        | Some _ => Ok tt
        | None =>
            if decode_error (json_error env t) then Ok tt
            else Raise (json_error env t)
        end
      else Ok tt
  | None => Ok tt
  end.

End WithEnv.

(** *** [stream_agent_task]

    The body of the generator runs inside an event loop: the one of the
    server, or the one [run_agent_task] makes. *)

Section Stream.
Variable env : Env.

(** The variables the loop updates. *)
Record loop_state := {
  messages : list message;
  thought_log : list string;
  final_answer : option string;
  last_artifact_path : option string
}.

Inductive control : Type := Continue | Break.

(** [if artifact: last_artifact_path = artifact]. *)
Definition keep_artifact (artifact last : option string) : option string :=
  match artifact with
  | Some p => if PyStr.nonempty p then Some p else last
  | None => last
  end.

Definition step_tag (kind : string) (step : nat) : string :=
  kind ++ " (step " ++ PyStr.of_nat step ++ "): ".

(** [tc.function.arguments or "{}"]. *)
Definition call_arguments (tc : tool_call) : string :=
  if PyStr.nonempty (tc_arguments tc) then tc_arguments tc else "{}".

(** The body of [for tc in tool_calls]. *)
Definition run_tool_call (step : nat) (model_name : string) (st : loop_state)
  (tc : tool_call) : M loop_state :=
  let t_name := tc_name tc in
  let t_args := call_arguments tc in
  yield_ "action"
    ("[ACTION] Executing tool: " ++ t_name ++ PyStr.nl ++ "Args: " ++ t_args) ;;
  ' (observation, artifact) <-
      _execute_tool (in_loop env) (VStr t_name) t_args model_name ;;
  yield_ "observation" ("[OBSERVATION] " ++ observation) ;;
  ret {| messages :=
           (messages st
            ++ [AssistantToolCall (tc_id tc) t_name t_args;
                ToolResult (tc_id tc) t_name observation])%list;
         thought_log :=
           (thought_log st
            ++ [(step_tag "ACTION" step ++ t_name ++ " | " ++ t_args)%string;
                (step_tag "OBSERVATION" step ++ observation)%string])%list;
         final_answer := final_answer st;
         last_artifact_path := keep_artifact artifact (last_artifact_path st) |}.

Fixpoint drain_tool_calls (step : nat) (model_name : string) (st : loop_state)
  (tcs : list tool_call) : M loop_state :=
  match tcs with
  | [] => ret st
  | tc :: rest =>
      st' <- run_tool_call step model_name st tc ;;
      drain_tool_calls step model_name st' rest
  end.

(** The inline fallback, once [_parse_inline_tool_call] has found a call. *)
Definition run_inline_call (step : nat) (model_name : string) (st : loop_state)
  (t_name : value) (t_args_dict : list (string * value)) : M loop_state :=
  let t_args := json_dumps env (VDict t_args_dict) in
  yield_ "action"
    ("[ACTION] Intercepted inline tool call: " ++ py_str env t_name ++ PyStr.nl
     ++ "Args: " ++ t_args) ;;
  ' (observation, artifact) <-
      _execute_tool (in_loop env) t_name t_args model_name ;;
  yield_ "observation" ("[OBSERVATION] " ++ observation) ;;
  ret {| messages :=
           (messages st
            ++ [AssistantMsg ("[Tool '" ++ py_str env t_name ++ "' executed.]"
                              ++ PyStr.nl ++ observation)%string])%list;
         thought_log :=
           (thought_log st
            ++ [(step_tag "ACTION" step ++ py_str env t_name ++ " | " ++ t_args)%string;
                (step_tag "OBSERVATION" step ++ observation)%string])%list;
         final_answer := final_answer st;
         last_artifact_path := keep_artifact artifact (last_artifact_path st) |}.

(** What a step does with the choices of the completion. *)
Definition handle_reply (model_name : string) (step : nat) (st : loop_state)
  (choices : list chat_message) : M (control * loop_state) :=
  message <- match choices with
             | c :: _ => ret c
             | [] => raise "IndexError" "list index out of range"
             end ;;
  let text := match content message with Some s => s | None => EmptyString end in
  st1 <- (if PyStr.nonempty text
          then
            yield_ "thought" text ;;
            ret {| messages := messages st;
                   thought_log :=
                     (thought_log st ++ [(step_tag "THOUGHT" step ++ text)%string])%list;
                   final_answer := final_answer st;
                   last_artifact_path := last_artifact_path st |}
          else ret st) ;;
  match tool_calls message with
  | _ :: _ =>
      st2 <- drain_tool_calls step model_name st1 (tool_calls message) ;;
      ret (Continue, st2)
  | [] =>
      if PyStr.nonempty text then
        parsed <- _parse_inline_tool_call env text ;;
        match parsed with
        | Some (t_name, t_args_dict) =>
            st2 <- run_inline_call step model_name st1 t_name t_args_dict ;;
            ret (Continue, st2)
        | None =>
            ret (Break,
                 {| messages := messages st1;
                    thought_log := thought_log st1;
                    final_answer := Some text;
                    last_artifact_path := last_artifact_path st1 |})
        end
      else ret (Break, st1)
  end.

(** One pass through the body of [for step in range(MAX_REACT_STEPS)]. *)
Definition react_step (model_name : string) (tool_schemas : list string)
  (step : nat) (st : loop_state) : M (control * loop_state) :=
  yield_ "thought"
    ("[Step " ++ PyStr.of_nat (step + 1) ++ "] Querying model " ++ model_name ++ "…") ;;
  choices <- ask (ChatCompletion model_name (messages st) tool_schemas)
               (fun h => chat_create env h model_name (messages st) tool_schemas) ;;
  handle_reply model_name step st choices.

(** The [for] loop over the remaining step numbers. *)
Fixpoint react_loop (model_name : string) (tool_schemas : list string)
  (steps : list nat) (st : loop_state) : M loop_state :=
  match steps with
  | [] => ret st
  | step :: rest =>
      ' (c, st') <- react_step model_name tool_schemas step st ;;
      match c with
      | Continue => react_loop model_name tool_schemas rest st'
      | Break => ret st'
      end
  end.

Definition NO_FINAL_TEXT : string :=
  "The agent completed its reasoning but produced no final text response.".

Definition image_note (image_path : string) : string :=
  PyStr.nl ++ PyStr.nl
  ++ "[Note: an image is available at the server path below. "
  ++ "Call the vision tool if you need to inspect it.]" ++ PyStr.nl
  ++ "image_path: " ++ image_path.

Definition has_image (image_path : option string) : option string :=
  match image_path with
  | Some p => if PyStr.nonempty p then Some p else None
  | None => None
  end.

(** The answer, the record and the payload built when the loop has ended. *)
Definition final_text (st : loop_state) : string :=
  match final_answer st with
  | Some a => a
  | None => NO_FINAL_TEXT
  end.

Definition task_log (agent : Agent) (user_prompt : string) (st : loop_state)
  : TaskLog :=
  {| log_agent_id := agent_id agent;
     input_query := user_prompt;
     thought_process := PyStr.join PyStr.nl (thought_log st);
     final_output := final_text st |}.

Definition result_payload (agent : Agent) (log_id : Z) (st : loop_state) : string :=
  json_dumps env
    (VDict [ ("task_log_id", VInt log_id);
             ("agent_id", VInt (agent_id agent));
             ("final_output", VStr (final_text st));
             ("artifact_path",
               match last_artifact_path st with
               | Some p => VStr p
               | None => VNone
               end) ]).

(** [session.add(log); session.commit(); session.refresh(log)], then
    [log.id]. *)
Definition store_log (log : TaskLog) : M Z :=
  perform env (SessionAdd log) ;;
  perform env (SessionCommit log) ;;
  ask (SessionRefresh log) (fun h => session_refresh env h log).

(** The model, the first messages and the first lines of the transcript. *)
Definition model_of (agent : Agent) : string :=
  match agent_model_name agent with
  | Some m => if PyStr.nonempty m then m else DEFAULT_MODEL_NAME
  | None => DEFAULT_MODEL_NAME
  end.

(** What follows [session.get] when the agent exists. *)
Definition run_agent (agent : Agent) (user_prompt : string)
  (image_path : option string) : M unit :=
  lift (tools_guard env agent) ;;
  let model_name := model_of agent in
  let system_prompt := _build_system_prompt env agent in
  let tool_schemas := _get_tool_schemas env agent in
  let user_content :=
    match has_image image_path with
    | Some p => user_prompt ++ image_note p
    | None => user_prompt
    end in
  let st0 :=
    {| messages := [SystemMsg system_prompt; UserMsg user_content];
       thought_log :=
         match has_image image_path with
         | Some p => [("USER: " ++ user_prompt)%string; ("USER IMAGE: " ++ p)%string]
         | None => [("USER: " ++ user_prompt)%string]
         end;
       final_answer := None;
       last_artifact_path := None |} in
  st <- react_loop model_name tool_schemas (seq 0 MAX_REACT_STEPS) st0 ;;
  let log := task_log agent user_prompt st in
  log_id <- store_log log ;;
  yield_ "final" (result_payload agent log_id st).

(** [stream_agent_task]: the effects of the generator run to its end.  In
    the [finally] block [session.close()] stands before the last [yield]:
    when it raises, the exception leaves the generator and no [done]
    follows. *)
Definition stream_agent_task (agent_id : Z) (user_prompt : string)
  (image_path : option string) : M unit :=
  try_finally
    (try_except
       (agent <- ask (SessionGet agent_id)
                   (fun h => session_get env h agent_id) ;;
        match agent with
        | None =>
            yield_ "error" ("Agent #" ++ PyStr.of_Z agent_id ++ " not found.") ;;
            yield_ "done" "[DONE]"
        | Some agent => run_agent agent user_prompt image_path
        end)
       (fun exc => yield_ "error" ("Fatal error: " ++ exc_text exc)))
    (perform env SessionClose ;; yield_ "done" "[DONE]").

(** *** [run_agent_task] *)

(** The [for line in frame.split(...)] loop of the two consumers. *)
Definition parse_frame (frame : string) : string * string :=
  fold_left
    (fun (acc : string * string) line =>
       if PyStr.startswith line "event:"
       then (PyStr.strip (PyStr.drop 6 line), snd acc)
       else if PyStr.startswith line "data:"
       then (fst acc, PyStr.replace "\n" PyStr.nl (PyStr.strip (PyStr.drop 5 line)))
       else acc)
    (PyStr.split "010"%char frame) (EmptyString, EmptyString).

(** [result.update(payload)].  A final frame carries the text of a JSON
    object, so a payload that decodes is a mapping; any other object is
    refused here. *)
Definition dict_update (result : list (string * value)) (payload : value)
  : M (list (string * value)) :=
  match payload with
  | VDict d => ret (fold_left (fun r kv => update (fst kv) (snd kv) r) d result)
  | _ => raise "TypeError"
           ("'" ++ type_name payload ++ "' object is not a mapping")
  end.

(** The body of [async for frame in stream_agent_task(...)] in [_collect]. *)
Definition collect_frame (acc : list (string * value) * list string)
  (frame : string) : M (list (string * value) * list string) :=
  let (result, thought_lines) := acc in
  let (event, data) := parse_frame frame in
  if String.eqb event "thought" || String.eqb event "action"
     || String.eqb event "observation"
  then ret (result, (thought_lines ++ [data])%list)
  else if String.eqb event "final" then
    decoded <- loads_guarded env data ;;
    match decoded with
    | Some payload =>
        r <- dict_update result payload ;;
        ret (r, thought_lines)
    | None => ret (update "final_output" (VStr data) result, thought_lines)
    end
  else ret acc.

Fixpoint collect_frames (acc : list (string * value) * list string)
  (frames : list string) : M (list (string * value) * list string) :=
  match frames with
  | [] => ret acc
  | f :: rest => acc' <- collect_frame acc f ;; collect_frames acc' rest
  end.

(** Run a generator to its end and hand its frames to the consumer. *)
Definition frames (gen : M unit) : M (list string) :=
  fun h => let (r, w) := gen h in
           (match r with Ok _ => Ok (frames_of w) | Raise e => Raise e end, w).

(** [loop.run_until_complete(coro)] on a loop just made: refused when
    the caller already runs inside an event loop, before the coroutine has
    started. *)
Definition run_until_complete {A} (coro : M A) : M A :=
  if loop_running env
  then raise "RuntimeError" "Cannot run the event loop while another loop is running"
  else coro.

(** [run_agent_task]. *)
Definition run_agent_task (agent_id : Z) (user_prompt : string)
  (image_path : option string) : M (list (string * value)) :=
  run_until_complete
    (let result :=
       [ ("task_log_id", VInt (-1));
         ("agent_id", VInt agent_id);
         ("final_output", VStr EmptyString);
         ("artifact_path", VNone);
         ("thought_process", VStr EmptyString) ] in
     fs <- frames (stream_agent_task agent_id user_prompt image_path) ;;
     ' (result, thought_lines) <- collect_frames (result, []) fs ;;
     ret (update "thought_process" (VStr (PyStr.join PyStr.nl thought_lines)) result)).

End Stream.
End Orchestrator.

(* ================================================================== *)
(** ** The workflow executor: [src/app/engine/workflow_executor.py] *)

Module WorkflowExecutor.

(** A node and a graph of the submitted workflow.  [node_type], [node_key]
    and [node_config] are what [node.get] returns ([VNone] when absent). *)
Record node := {
  node_id : string;
  node_type : value;
  node_key : value;
  node_config : value
}.

Record graph := {
  graph_nodes : list node;
  graph_edges : list (string * string)   (* (source, target) *)
}.

(** [_merge_inputs]. *)
Definition _merge_inputs (inputs : list value) : value :=
  match inputs with
  | [] => VNone
  | [x] => x
  | _ =>
      if forallb is_str inputs
      then VStr (PyStr.join (PyStr.nl ++ PyStr.nl)
                   (map (fun v => match v with VStr s => s | _ => EmptyString end)
                        inputs))
      else VList inputs
  end.

(** [{n["id"]: n for n in graph.get("nodes", [])}]. *)
Definition nodes_of (g : graph) : list (string * node) :=
  fold_left (fun d n => update (node_id n) n d) (graph_nodes g) [].

(** [d.setdefault(k, []).append(x)]. *)
Definition setdefault_append (k x : string) (d : list (string * list string))
  : list (string * list string) :=
  update k (get_or k [] d ++ [x])%list d.

(** [incoming] and [outgoing] after the loop over the edges. *)
Definition empty_lists (nodes : list (string * node)) : list (string * list string) :=
  map (fun kn => (fst kn, @nil string)) nodes.

Definition incoming_of (g : graph) : list (string * list string) :=
  fold_left (fun d e => setdefault_append (snd e) (fst e) d)
            (graph_edges g) (empty_lists (nodes_of g)).

Definition outgoing_of (g : graph) : list (string * list string) :=
  fold_left (fun d e => setdefault_append (fst e) (snd e) d)
            (graph_edges g) (empty_lists (nodes_of g)).

(** [completed.add(nid)]: the set is kept as the list of its members in
    the order they were first added; the code only tests membership. *)
Definition set_add (x : string) (s : list string) : list string :=
  if mem x s then s else (s ++ [x])%list.

(** The variables of the scheduling loop. *)
Record exec_state := {
  ready : list string;
  results : list (string * value);
  completed : list string
}.

Inductive outcome : Type :=
| Finished (results : list (string * value))
| Raised (e : exn)
| OutOfFuel.

(** A run of [execute_graph]: how it ended, the node ids taken from the
    ready queue in order, and the effects performed. *)
Record run := {
  run_outcome : outcome;
  run_order : list string;
  run_effects : list effect
}.

Section WithEnv.
Variable env : Env.

(** [REPORTS_DIR = Path("reports").resolve()]. *)
Definition REPORTS_DIR : Posix.Path := Posix.resolve (cwd env) "reports".

(** [str(data) if data is not None else ""]. *)
Definition text_of (data : value) : string :=
  match data with
  | VNone => EmptyString
  | _ => py_str env data
  end.

(** The body of [async for frame in stream_agent_task(...)] in the agent
    node. *)
Definition agent_frame (final_output : value) (frame : string) : M value :=
  let (evt, payload) := Orchestrator.parse_frame frame in
  if String.eqb evt "final" && PyStr.nonempty payload then
    decoded <- loads_guarded env payload ;;
    match decoded with
    | Some obj =>
        d <- attr_get obj ;;
        ret (get_or "final_output" (VStr EmptyString) d)
    | None => ret (VStr payload)
    end
  else ret final_output.

Fixpoint agent_frames (final_output : value) (frames : list string) : M value :=
  match frames with
  | [] => ret final_output
  | f :: rest => v <- agent_frame final_output f ;; agent_frames v rest
  end.

(** [_execute_node]. *)
Definition _execute_node (node_id : string) (node_type key config data : value)
  : M value :=
  if eq_str node_type "source" then
    if eq_str key "url_input" then
      d <- attr_get config ;;
      ret (por (get_or "url" VNone d) data)
    else if eq_str key "schedule" then
      ret (VDict [("schedule", config)])
    else ret data
  else if eq_str node_type "tool" then
    if eq_str key "web_scraper" then
      d <- attr_get config ;;
      let url := por (get_or "url" VNone d) data in
      if negb (is_str url)
      then raise "ValueError" "Web scraper node requires a URL string input."
      else text <- scrape env url ;; ret (VStr text)
    else if eq_str key "email_sender" then
      d <- attr_get config ;;
      let to := por (get_or "to" VNone d) (VList []) in
      let subject := por (get_or "subject" VNone d)
                       (VStr "AgentFlow Local Report") in
      let body := VStr (text_of data) in
      let to := if is_str to then VList [to] else to in
      (if truthy to then send_email env to subject body else ret tt) ;;
      ret (VDict [("status", VStr "sent"); ("to", to)])
    else if eq_str key "pdf_report" then
      d <- attr_get config ;;
      let title := get_or "title" (VStr "AI Research Report") d in
      let body := VStr (text_of data) in
      match get_or "filename" (VStr "workflow_report.pdf") d with
      | VStr filename =>
          let safe_name := Posix.name (Posix.Path_of filename) in
          perform env (MkDir (Posix.str REPORTS_DIR)) ;;
          let output_path :=
            Posix.joinpath REPORTS_DIR (Posix.Path_of safe_name) in
          generate_report env title body (Posix.str output_path) ;;
          ret (VDict [("pdf_path", VStr (Posix.str output_path))])
      | other =>
          raise "TypeError"
            ("expected str, bytes or os.PathLike object, not " ++ type_name other)
      end
    else ret data
  else if eq_str node_type "agent" then
    d <- attr_get config ;;
    match get_or "agent_id" VNone d with
    | VNone => raise "ValueError" "Agent node requires an 'agent_id' in config."
    | agent_id =>
        let prompt_prefix := por (get_or "prompt_prefix" VNone d) (VStr EmptyString) in
        let base_prompt := text_of data in
        let full_prompt :=
          if truthy prompt_prefix
          then py_str env prompt_prefix ++ PyStr.nl ++ PyStr.nl ++ base_prompt
          else base_prompt in
        id <- py_int env agent_id ;;
        fs <- Orchestrator.frames
                (Orchestrator.stream_agent_task env id full_prompt None) ;;
        agent_frames (VStr EmptyString) fs
    end
  else ret data.

(** The body of [while ready], after [nid = ready.pop(0)]; [st] holds the
    remaining queue. *)
Definition run_node (nodes : list (string * node))
  (incoming outgoing : list (string * list string))
  (st : exec_state) (nid : string) : M exec_state :=
  nd <- match lookup nid nodes with
        | Some n => ret n
        | None => raise "KeyError" ("'" ++ nid ++ "'")
        end ;;
  let ntype := node_type nd in
  let key := node_key nd in
  let config := por (node_config nd) (VDict []) in
  config <-
    match config with
    | VStr s =>
        decoded <- loads_guarded env s ;;
        ret match decoded with
            | Some c => c
            | None => VDict []
            end
    | _ => ret config
    end ;;
  let input_payloads :=
    flat_map (fun p => match lookup p (results st) with
                       | Some v => [v]
                       | None => []
                       end)
             (get_or nid [] incoming) in
  let merged_input := _merge_inputs input_payloads in
  result <- _execute_node nid ntype key config merged_input ;;
  let completed' := set_add nid (completed st) in
  ret {| ready :=
           (ready st
            ++ filter (fun child =>
                         forallb (fun parent => mem parent completed')
                                 (get_or child [] incoming))
                      (get_or nid [] outgoing))%list;
         results := update nid result (results st);
         completed := completed' |}.

(** [while ready: ...], with a bound on the number of iterations. *)
Fixpoint while_ready (fuel : nat) (nodes : list (string * node))
  (incoming outgoing : list (string * list string))
  (st : exec_state) (h : history) : run :=
  match fuel with
  | O => {| run_outcome := OutOfFuel; run_order := []; run_effects := [] |}
  | S fuel' =>
      match ready st with
      | [] => {| run_outcome := Finished (results st);
                 run_order := []; run_effects := [] |}
      | nid :: rest =>
          match run_node nodes incoming outgoing
                  {| ready := rest; results := results st;
                     completed := completed st |} nid h with
          | (Ok st', w) =>
              let r := while_ready fuel' nodes incoming outgoing st' (h ++ w)%list in
              {| run_outcome := run_outcome r;
                 run_order := nid :: run_order r;
                 run_effects := (w ++ run_effects r)%list |}
          | (Raise e, w) =>
              {| run_outcome := Raised e; run_order := [nid]; run_effects := w |}
          end
      end
  end.

(** [execute_graph]: the ready queue starts with the nodes without incoming
    edges, in the order of [incoming.items()]; [self.close()] follows the
    loop. *)
Definition initial_state (incoming : list (string * list string)) : exec_state :=
  {| ready := map fst (filter (fun kv => match snd kv with
                                         | [] => true
                                         | _ => false
                                         end) incoming);
     results := [];
     completed := [] |}.

Definition execute_graph (fuel : nat) (g : graph) (h : history) : run :=
  let nodes := nodes_of g in
  let incoming := incoming_of g in
  let outgoing := outgoing_of g in
  let r := while_ready fuel nodes incoming outgoing (initial_state incoming) h in
  match run_outcome r with
  | Finished _ =>
      {| run_outcome :=
           match io_raises env (h ++ run_effects r)%list SessionClose with
           | Some e => Raised e
           | None => run_outcome r
           end;
         run_order := run_order r;
         run_effects := (run_effects r ++ [SessionClose])%list |}
  | _ => r
  end.

(** Enough iterations for any run on [g]. *)
Definition enough_fuel (g : graph) : nat :=
  S (List.length (incoming_of g)
     * S (List.length (graph_edges g)) ^ List.length (nodes_of g)).

End WithEnv.
End WorkflowExecutor.

(* ================================================================== *)
(** ** Concrete environments

    A server started in [/srv/app] whose collaborators all succeed, with the
    reference codec as [json]; the language model is the parameter. *)

Module Demo.

(** A text between double quotes. *)
Definition q (s : string) : string := PyStr.dq ++ s ++ PyStr.dq.

Definition agent1 : Agent :=
  {| agent_id := 1;
     agent_name := "Ada";
     agent_role := "analyst";
     agent_model_name := None;
     agent_backstory := None;
     agent_tools := Some "pdf_report_tool" |}.

Definition env_of
  (chat : history -> list message -> result (list chat_message)) : Env :=
  {| cwd := ["srv"; "app"];
     json_loads := Json.loads (fun _ => 0%Z);
     json_error := fun _ =>
       {| exc_class := "JSONDecodeError"; exc_text := "Expecting value" |};
     json_dumps := Json.dumps (fun _ => "0.0");
     py_repr := Json.dumps (fun _ => "0.0");
     py_int_of := fun v =>
       Raise {| exc_class := "TypeError";
                exc_text := "int() argument must be a string or a number" |};
     io_raises := fun _ _ => None;
     session_get := fun _ id => Ok (if (id =? 1)%Z then Some agent1 else None);
     session_refresh := fun _ _ => Ok 7%Z;
     chat_create := fun h _ msgs _ => chat h msgs;
     is_file := fun _ _ => true;
     vision_chat := fun _ _ _ _ => Ok "a bar chart";
     scrape_url := fun _ _ => Ok "page text";
     loop_running := false |}.

(** A model that gives the replies of a script, one per query. *)
Definition scripted (replies : list chat_message)
  : history -> list message -> result (list chat_message) :=
  fun h _ => match nth_error replies (queries h) with
             | Some m => Ok [m]
             | None => Ok []
             end.

(** A model endpoint that cannot be reached. *)
Definition unreachable : history -> list message -> result (list chat_message) :=
  fun _ _ => Raise {| exc_class := "APIConnectionError";
                      exc_text := "Connection error." |}.

Definition says (text : string) : chat_message :=
  {| content := Some text; tool_calls := [] |}.

Definition calls (tcs : list tool_call) : chat_message :=
  {| content := None; tool_calls := tcs |}.

(** No model is needed to run a tool or a workflow without agent nodes. *)
Definition env0 : Env := env_of unreachable.

(** The same server with a decoder that knows the limit of the
    interpreter on the digits of an integer: the text of 4301 digits is
    refused with a [ValueError]. *)
Fixpoint ones (n : nat) : string :=
  match n with
  | O => EmptyString
  | S k => String "1" (ones k)
  end.

Definition env_limit : Env :=
  {| cwd := cwd env0;
     json_loads := fun s =>
       if String.eqb s (ones 4301) then None else json_loads env0 s;
     json_error := fun s =>
       if String.eqb s (ones 4301)
       then {| exc_class := "ValueError";
               exc_text := "Exceeds the limit (4300 digits) for integer string conversion" |}
       else json_error env0 s;
     json_dumps := json_dumps env0;
     py_repr := py_repr env0;
     py_int_of := py_int_of env0;
     io_raises := io_raises env0;
     session_get := session_get env0;
     session_refresh := session_refresh env0;
     chat_create := chat_create env0;
     is_file := is_file env0;
     vision_chat := vision_chat env0;
     scrape_url := scrape_url env0;
     loop_running := false |}.

(** The arguments [{"filename": "../escape.pdf"}] and
    [{"image_path": "uploads_private/secret.png"}]. *)
Definition escape_args : string :=
  "{" ++ q "filename" ++ ": " ++ q "../escape.pdf" ++ "}".

Definition secret_args : string :=
  "{" ++ q "image_path" ++ ": " ++ q "uploads_private/secret.png" ++ "}".

(** A model whose only reply is a final answer of two lines. *)
Definition two_lines : string := "line1" ++ PyStr.nl ++ "line2".
Definition env_two_lines : Env := env_of (scripted [says two_lines]).

(** The payload of the final event of that run, as [json.dumps] writes it
    (the line break escaped), and the same text with a raw line break. *)
Definition payload_two_lines (line_break : string) : string :=
  "{" ++ q "task_log_id" ++ ": 7, " ++ q "agent_id" ++ ": 1, "
  ++ q "final_output" ++ ": " ++ q ("line1" ++ line_break ++ "line2") ++ ", "
  ++ q "artifact_path" ++ ": null}".

(** A model that asks for two tools at once, then answers. *)
Definition two_calls : list tool_call :=
  [ {| tc_id := "c1"; tc_name := "nope"; tc_arguments := EmptyString |};
    {| tc_id := "c2"; tc_name := "send_email"; tc_arguments := "{}" |} ].
Definition env_two_calls : Env :=
  env_of (scripted [calls two_calls; says "done"]).

(** A model whose first reply is plain text that holds an inline call. *)
Definition inline_email : string :=
  "{" ++ q "tool" ++ ": " ++ q "send_email" ++ "}".
Definition env_inline : Env := env_of (scripted [says inline_email; says "done"]).

(** Two nodes, each the only parent of the other, beside a source. *)
Definition plain (id type key : string) : WorkflowExecutor.node :=
  {| WorkflowExecutor.node_id := id;
     WorkflowExecutor.node_type := VStr type;
     WorkflowExecutor.node_key := VStr key;
     WorkflowExecutor.node_config := VNone |}.

Definition cyclic_graph : WorkflowExecutor.graph :=
  {| WorkflowExecutor.graph_nodes :=
       [plain "s" "output" "out"; plain "a" "output" "out"; plain "b" "output" "out"];
     WorkflowExecutor.graph_edges := [("a", "b"); ("b", "a")] |}.

(** The chain of the specification: a source with a URL, the scraper, an
    output. *)
Definition chain_graph : WorkflowExecutor.graph :=
  {| WorkflowExecutor.graph_nodes :=
       [ {| WorkflowExecutor.node_id := "A";
            WorkflowExecutor.node_type := VStr "source";
            WorkflowExecutor.node_key := VStr "url_input";
            WorkflowExecutor.node_config :=
              VDict [("url", VStr "https://example.org")] |};
         plain "B" "tool" "web_scraper";
         plain "C" "output" "out" ];
     WorkflowExecutor.graph_edges := [("A", "B"); ("B", "C")] |}.

End Demo.

(* ================================================================== *)
(** ** Vocabulary of the properties *)

Module Spec.
Import Orchestrator WorkflowExecutor.

(** The name a tool name resolves to. *)
Definition resolved (tool_name : string) : string :=
  get_or tool_name tool_name _TOOL_ALIASES.

Definition known_tools : list string :=
  ["generate_pdf_report"; "analyze_image"; "web_scraper_tool"; "send_email"].

(** The events that report progress. *)
Definition progress_event (ev : string) : bool :=
  String.eqb ev "thought" || String.eqb ev "action" || String.eqb ev "observation".

Definition progress_events (evs : list (string * string)) : bool :=
  forallb (fun ed => progress_event (fst ed)) evs.

(** The effects of a tool, and the effects of the loop: progress events,
    chat completions and the effects of tools. *)
Definition tool_effect (e : effect) : bool :=
  match e with
  | MkDir _ | PdfRender _ _ | PdfOutput _ | IsFile _ | OpenRead _
  | VisionChat _ _ _ | HttpGet _ | SendEmail _ _ _ => true
  | _ => false
  end.

Definition loop_effect (e : effect) : bool :=
  match e with
  | Yield ev _ => progress_event ev
  | ChatCompletion _ _ _ => true
  | _ => tool_effect e
  end.

(** The effects of a step once the model has replied. *)
Definition reply_effect (e : effect) : bool :=
  match e with
  | Yield ev _ => progress_event ev
  | _ => tool_effect e
  end.

(** The records pending at each [session.commit()] among some effects. *)
Definition commits (w : list effect) : list TaskLog :=
  flat_map (fun e => match e with SessionCommit log => [log] | _ => [] end) w.

(** The two events of a drained tool call and the two messages appended
    for it, given its observation. *)
Definition call_events (co : tool_call * string) : list (string * string) :=
  [ ("action",
      "[ACTION] Executing tool: " ++ tc_name (fst co) ++ PyStr.nl
      ++ "Args: " ++ call_arguments (fst co));
    ("observation", "[OBSERVATION] " ++ snd co) ]%string.

Definition call_messages (co : tool_call * string) : list message :=
  [ AssistantToolCall (tc_id (fst co)) (tc_name (fst co)) (call_arguments (fst co));
    ToolResult (tc_id (fst co)) (tc_name (fst co)) (snd co) ].

(** The thought event of a reply that carries text. *)
Definition thought_events (msg : chat_message) : list (string * string) :=
  match content msg with
  | Some text => if PyStr.nonempty text then [("thought", text)] else []
  | None => []
  end.

(** The first event of step number [step] (counted from 0). *)
Definition querying (step : nat) (model_name : string) : string :=
  "[Step " ++ PyStr.of_nat (step + 1) ++ "] Querying model " ++ model_name ++ "…".

(** [child] has incoming edges, all of them from [parent]. *)
Definition only_parent (g : graph) (child parent : string) : Prop :=
  In (parent, child) (graph_edges g)
  /\ forall s, In (s, child) (graph_edges g) -> s = parent.

(** The position of [x] in [l]; the length of [l] when [x] is not in it. *)
Fixpoint rank (x : string) (l : list string) : nat :=
  match l with
  | [] => 0
  | y :: l' => if String.eqb x y then 0 else S (rank x l')
  end.

(** The measure of the scheduling loop: a queued node weighs more the
    earlier it was first completed. *)
Definition weight (base bound : nat) (done : list string) (x : string) : nat :=
  base ^ (bound - rank x done).

Definition potential (base bound : nat) (done queue : list string) : nat :=
  list_sum (map (weight base bound done) queue).

(** A tool name the alias table can look up, the name that lookup gives,
    and whether it is one of the four tools. *)
Definition hashable (v : value) : bool :=
  match v with
  | VList _ | VDict _ => false
  | _ => true
  end.

Definition resolved_name (v : value) : value :=
  match v with
  | VStr s => VStr (resolved s)
  | _ => v
  end.

Definition known (v : value) : bool :=
  match v with
  | VStr s => mem s known_tools
  | _ => false
  end.

(** [json.loads(s)] returns, or raises a [JSONDecodeError]. *)
Definition decodes (env : Env) (s : string) : bool :=
  match json_loads env s with
  | Some _ => true
  | None => decode_error (json_error env s)
  end.

(** The failures of an invocation: the argument text is not empty and does
    not decode; the resolved name is not a tool; something raises inside
    the [try]; the image path, the URL or the recipients are missing. *)
Inductive invoke_failure (env : Env) (tool_name : value)
  (arguments_json model_name : string) (h : history) : Prop :=
| bad_json :
    PyStr.nonempty arguments_json = true ->
    json_loads env arguments_json = None ->
    invoke_failure env tool_name arguments_json model_name h
| unknown_tool :
    known (resolved_name tool_name) = false ->
    invoke_failure env tool_name arguments_json model_name h
| capability_raises : forall args e w,
    parsed_arguments env arguments_json = Some args ->
    tool_branches env (resolved_name tool_name) args model_name h = (Raise e, w) ->
    invoke_failure env tool_name arguments_json model_name h
| missing_image_path : forall d,
    parsed_arguments env arguments_json = Some (VDict d) ->
    resolved_name tool_name = VStr "analyze_image" ->
    truthy (get_or "image_path" VNone d) = false ->
    invoke_failure env tool_name arguments_json model_name h
| missing_url : forall d,
    parsed_arguments env arguments_json = Some (VDict d) ->
    resolved_name tool_name = VStr "web_scraper_tool" ->
    truthy (get_or "url" VNone d) = false ->
    truthy (get_or "target_url" VNone d) = false ->
    truthy (get_or "source" VNone d) = false ->
    invoke_failure env tool_name arguments_json model_name h
| missing_recipients : forall d,
    parsed_arguments env arguments_json = Some (VDict d) ->
    resolved_name tool_name = VStr "send_email" ->
    truthy (get_or "to" VNone d) = false ->
    invoke_failure env tool_name arguments_json model_name h.

(** The state [stream_agent_task] enters its loop with. *)
Definition first_state (env : Env) (agent : Agent) (user_prompt : string)
  (image_path : option string) : loop_state :=
  {| messages :=
       [SystemMsg (_build_system_prompt env agent);
        UserMsg match has_image image_path with
                | Some p => user_prompt ++ image_note p
                | None => user_prompt
                end];
     thought_log :=
       match has_image image_path with
       | Some p => [("USER: " ++ user_prompt)%string; ("USER IMAGE: " ++ p)%string]
       | None => [("USER: " ++ user_prompt)%string]
       end;
     final_answer := None;
     last_artifact_path := None |}.

(** The loop of a run: its outcome and its effects, after the agent was
    fetched. *)
Definition loop_of (env : Env) (agent : Agent) (agent_id : Z)
  (user_prompt : string) (image_path : option string) (h : history)
  : result loop_state * list effect :=
  react_loop env (model_of agent) (_get_tool_schemas env agent)
    (seq 0 MAX_REACT_STEPS) (first_state env agent user_prompt image_path)
    (h ++ [SessionGet agent_id])%list.

(** The operations that store a record, and the three of them in order. *)
Definition store_effect (e : effect) : bool :=
  match e with
  | SessionAdd _ | SessionCommit _ | SessionRefresh _ => true
  | _ => false
  end.

Definition storing (log : TaskLog) : list effect :=
  [SessionAdd log; SessionCommit log; SessionRefresh log].

(** The effects of the [try] block of a run, its [except] handler
    included. *)
Definition attempt (env : Env) (agent_id : Z) (user_prompt : string)
  (image_path : option string) (h : history) : list effect :=
  SessionGet agent_id
  :: match session_get env h agent_id with
     | Raise e => [Yield "error" ("Fatal error: " ++ exc_text e)]
     | Ok None =>
         [Yield "error" ("Agent #" ++ PyStr.of_Z agent_id ++ " not found.");
          Yield "done" "[DONE]"]
     | Ok (Some agent) =>
         match run_agent env agent user_prompt image_path
                 (h ++ [SessionGet agent_id])%list with
         | (Ok _, wr) => wr
         | (Raise e, wr) =>
             (wr ++ [Yield "error" ("Fatal error: " ++ exc_text e)])%list
         end
     end.

(** The end of a stream whose [try] block has performed [body]: the
    session is closed and, unless that raises, the last event is sent. *)
Definition ended (env : Env) (h : history) (body : list effect)
  : result unit * list effect :=
  match io_raises env (h ++ body)%list SessionClose with
  | None => (Ok tt, (body ++ [SessionClose; Yield "done" "[DONE]"])%list)
  | Some e => (Raise e, (body ++ [SessionClose])%list)
  end.

(** *** Vocabulary of the proofs *)

(** Every effect of [m], from any history, satisfies [P]. *)
Definition emits {A} (P : effect -> bool) (m : M A) : Prop :=
  forall h, forallb P (snd (m h)) = true.

(** Every value [m] returns satisfies [Q]. *)
Definition ensures {A} (Q : A -> Prop) (m : M A) : Prop :=
  forall h a w, m h = (Ok a, w) -> Q a.

(** [m] does not read the history. *)
Definition stateless {A} (m : M A) : Prop := forall h h', m h = m h'.

(** The conversation of [st'] extends that of [st]. *)
Definition extends (st st' : loop_state) : Prop :=
  exists more, messages st' = (messages st ++ more)%list.

(** The children of [nid] that join the queue once [nid] is completed. *)
Definition joining (pa ch : string -> list string) (nid : string)
  (done : list string) : list string :=
  filter (fun child => forallb (fun parent => mem parent (set_add nid done))
                               (pa child))
         (ch nid).

(** What the loop keeps true of its queue and of the completed nodes. *)
Definition scheduled (keys_ : list string) (pa : string -> list string)
  (queue done : list string) : Prop :=
  NoDup done
  /\ incl done keys_
  /\ (forall x p, In x done -> In p (pa x) -> rank p done < rank x done)
  /\ (forall x p, In x queue -> In p (pa x) -> In p done).

(** No blocked node is queued, completed or has a result. *)
Definition untouched (blocked : string -> Prop) (st : exec_state) : Prop :=
  forall x, blocked x ->
            ~ In x (ready st) /\ ~ In x (completed st) /\ ~ In x (keys (results st)).

End Spec.

(* ================================================================== *)
(** ** Further vocabulary *)

Module Notions.
Import Orchestrator WorkflowExecutor Spec.

(** [c] is one of the characters of [s]. *)
Fixpoint has_char (c : ascii) (s : string) : bool :=
  match s with
  | EmptyString => false
  | String x s' => Ascii.eqb x c || has_char c s'
  end.

(** [sub] occurs in [s]. *)
Fixpoint occurs (sub s : string) : bool :=
  match s with
  | EmptyString => String.prefix sub EmptyString
  | String _ s' => String.prefix sub s || occurs sub s'
  end.

(** The last character of [s], [c] when [s] is empty. *)
Fixpoint last_char (c : ascii) (s : string) : ascii :=
  match s with
  | EmptyString => c
  | String x s' => last_char x s'
  end.

(** An ASCII character that [strip] leaves in place. *)
Definition plain_end (c : ascii) : bool :=
  (nat_of_ascii c <? 128)%nat && negb (PyStr.isspace c).

(** [s] is empty, or begins and ends with such a character. *)
Definition plain_ends (s : string) : bool :=
  match s with
  | EmptyString => true
  | String c s' => plain_end c && plain_end (last_char c s')
  end.

(** The first [k] bytes of [s] are there, and none of them is such a
    character. *)
Fixpoint covered (k : nat) (s : string) : bool :=
  match k, s with
  | O, _ => true
  | S k', String c s' => negb (plain_end c) && covered k' s'
  | S _, EmptyString => false
  end.

(** The payload [_sse] writes for [data], and what the frame parsers make
    of the data line of that frame: the text after [data:], stripped, with
    each backslash-n turned into a line feed. *)
Definition escaped (data : string) : string :=
  PyStr.replace PyStr.nl "\n" data.

Definition received (data : string) : string :=
  PyStr.replace "\n" PyStr.nl (PyStr.strip (" " ++ escaped data)).

(** The events a stream is made of. *)
Definition stream_event (ev : string) : bool :=
  progress_event ev || String.eqb ev "final" || String.eqb ev "error"
  || String.eqb ev "done".

(** The data of the progress events among some effects, in order. *)
Definition progress_data (w : list effect) : list string :=
  map snd (filter (fun ed => progress_event (fst ed)) (events_of w)).


(** What [_collect] does with the data of a final frame. *)
Definition take_final (env : Env) (res : list (string * value)) (lines : list string)
  (data : string) : M (list (string * value) * list string) :=
  decoded <- loads_guarded env data ;;
  match decoded with
  | Some payload => r <- dict_update res payload ;; ret (r, lines)
  | None => ret (update "final_output" (VStr data) res, lines)
  end.

(** The image tool reads [e] only from a path whose text begins with the
    text of the uploads directory. *)
Definition reads_checked (env : Env) (e : effect) : bool :=
  match e with
  | OpenRead p | VisionChat _ _ p =>
      PyStr.startswith p (Posix.str (UPLOADS_DIR env))
  | _ => true
  end.

(** The state after a reply of plain text [text] at step [step]. *)
Definition answered (st : loop_state) (step : nat) (text : string) : loop_state :=
  {| messages := messages st;
     thought_log := (thought_log st ++ [(step_tag "THOUGHT" step ++ text)%string])%list;
     final_answer := Some text;
     last_artifact_path := last_artifact_path st |}.

(** A component of a path: no slash in it, neither empty nor [.]; a proper
    one is not [..] either. *)
Definition component (c : string) : bool :=
  negb (has_char "/" c) && negb (String.eqb c EmptyString || String.eqb c ".").

Definition not_parent (c : string) : bool := negb (String.eqb c "..").

Definition proper (c : string) : bool := component c && not_parent c.

(** Whatever file [e] writes is [dir] or lies below it. *)
Definition writes_under (env : Env) (dir : list string) (e : effect) : bool :=
  match e with
  | PdfOutput p => Posix.within dir (Posix.abs_parts (cwd env) p)
  | _ => true
  end.

(** The operations on the database session among some effects. *)
Definition session_effect (e : effect) : bool :=
  match e with
  | SessionGet _ | SessionAdd _ | SessionCommit _ | SessionRefresh _
  | SessionClose => true
  | _ => false
  end.

(** No request is sent over HTTP. *)
Definition no_request (e : effect) : bool :=
  match e with
  | HttpGet _ => false
  | _ => true
  end.

(** The prompt an agent node hands to its agent. *)
Definition node_prompt (env : Env) (d : list (string * value)) (data : value)
  : string :=
  let prompt_prefix := por (get_or "prompt_prefix" VNone d) (VStr EmptyString) in
  if truthy prompt_prefix
  then py_str env prompt_prefix ++ PyStr.nl ++ PyStr.nl ++ text_of env data
  else text_of env data.

(** The queue holds no node twice and no completed node; the parents of a
    queued or completed node are completed. *)
Definition queued_once (pa : string -> list string) (st : exec_state) : Prop :=
  NoDup (ready st)
  /\ (forall x, In x (ready st) -> ~ In x (completed st))
  /\ (forall x p, In x (ready st) -> In p (pa x) -> In p (completed st))
  /\ (forall x p, In x (completed st) -> In p (pa x) -> In p (completed st)).

End Notions.

(* ================================================================== *)
(** * Properties *)

Import Orchestrator WorkflowExecutor Spec.

(** ** Reasoning about computations *)

Lemma bind_ok {A B} (m : M A) (k : A -> M B) h a w r w' :
  m h = (Ok a, w) -> k a (h ++ w)%list = (r, w') ->
  bind m k h = (r, (w ++ w')%list).
Proof. intros Hm Hk. unfold bind. rewrite Hm, Hk. reflexivity. Qed.

Lemma bind_raise {A B} (m : M A) (k : A -> M B) h e w :
  m h = (Raise e, w) -> bind m k h = (Raise e, w).
Proof. intros Hm. unfold bind. rewrite Hm. reflexivity. Qed.

Lemma bind_ask {A B} e (answer : history -> result A) (k : A -> M B) h :
  bind (ask e answer) k h
  = match answer h with
    | Ok a => let (r, w) := k a (h ++ [e])%list in (r, e :: w)
    | Raise x => (Raise x, [e])
    end.
Proof. unfold bind, ask. destruct (answer h); reflexivity. Qed.

Lemma bind_inv {A B} (m : M A) (k : A -> M B) h r w :
  bind m k h = (r, w) ->
  (exists a w1 w2,
      m h = (Ok a, w1) /\ k a (h ++ w1)%list = (r, w2) /\ w = (w1 ++ w2)%list)
  \/ (exists e, m h = (Raise e, w) /\ r = Raise e).
Proof.
  unfold bind. destruct (m h) as [[a | e] w1].
  - destruct (k a (h ++ w1)%list) as [r2 w2] eqn:Hk. intros H.
    inversion H; subst. left. exists a, w1, w2. auto.
  - intros H. inversion H; subst. right. exists e. auto.
Qed.

(** ** The input merge *)

Lemma forallb_is_str_map ss : forallb is_str (map VStr ss) = true.
Proof. induction ss; simpl; auto. Qed.

Lemma unwrap_map_VStr ss :
  map (fun v => match v with VStr s => s | _ => EmptyString end) (map VStr ss) = ss.
Proof. induction ss; simpl; congruence. Qed.

(** C5.  [_merge_inputs] of no input is [None]; of one input, that input;
    of two or more inputs that are all strings, their texts joined by a
    blank line in the order given; of two or more inputs that are not all
    strings, the list itself. *)
Theorem merge_inputs_policy :
  _merge_inputs [] = VNone
  /\ (forall x, _merge_inputs [x] = x)
  /\ (forall ss, 2 <= List.length ss ->
        _merge_inputs (map VStr ss)
        = VStr (PyStr.join (PyStr.nl ++ PyStr.nl) ss))
  /\ (forall l, 2 <= List.length l -> forallb is_str l = false ->
        _merge_inputs l = VList l).
Proof.
  repeat split; auto.
  - intros ss Hlen.
    destruct ss as [| a [| b ss]]; simpl in Hlen; try lia.
    simpl. rewrite forallb_is_str_map, unwrap_map_VStr. reflexivity.
  - intros l Hlen Hmixed.
    destruct l as [| a [| b l]]; simpl in Hlen; try lia.
    unfold _merge_inputs. rewrite Hmixed. reflexivity.
Qed.

(** The examples of the specification. *)
Lemma merge_inputs_policy_witness :
  _merge_inputs (map VStr ["a"; "b"]) = VStr ("a" ++ PyStr.nl ++ PyStr.nl ++ "b")
  /\ _merge_inputs [VDict [("x", VInt 1)]; VStr "b"]
     = VList [VDict [("x", VInt 1)]; VStr "b"].
Proof.
  destruct merge_inputs_policy as (_ & _ & Hs & Hl). split.
  - apply (Hs ["a"; "b"]). simpl. lia.
  - apply Hl; [simpl; lia | reflexivity].
Defined.

(** ** The email node and the email tool *)

(** C10.  When the [to] entry of the configuration is absent or falsy, the
    [email_sender] node performs no effect at all (in particular no
    [SendEmail]) and returns the record [status = sent, to = []]; the tool
    invoker, given arguments without a recipient, returns the error
    observation instead, also without sending. *)
Theorem email_node_without_recipient :
  forall env node_id d data model_name arguments_json h,
    truthy (get_or "to" VNone d) = false ->
    PyStr.nonempty arguments_json = true ->
    json_loads env arguments_json = Some (VDict d) ->
    _execute_node env node_id (VStr "tool") (VStr "email_sender") (VDict d) data h
    = (Ok (VDict [("status", VStr "sent"); ("to", VList [])]), [])
    /\ _execute_tool env (VStr "send_email") arguments_json model_name h
       = (Ok ("ERROR: 'to' (recipient list) is required.", None), []).
Proof.
  intros env node_id d data model_name arguments_json h Hto Hne Hargs. split.
  - unfold _execute_node. simpl. unfold bind, attr_get, ret, por.
    rewrite Hto. reflexivity.
  - unfold _execute_tool, parsed_arguments. rewrite Hne, Hargs.
    unfold resolve_alias, tool_branches. simpl.
    unfold bind, try_except, attr_get, ret, por. simpl.
    rewrite Hto. reflexivity.
Qed.

Lemma email_node_without_recipient_witness :
  _execute_node Demo.env0 "n" (VStr "tool") (VStr "email_sender")
    (VDict [("subject", VStr "weekly")]) (VStr "body") []
  = (Ok (VDict [("status", VStr "sent"); ("to", VList [])]), [])
  /\ _execute_tool Demo.env0 (VStr "send_email")
       ("{" ++ Demo.q "subject" ++ ": " ++ Demo.q "weekly" ++ "}") "m" []
     = (Ok ("ERROR: 'to' (recipient list) is required.", None), []).
Proof.
  apply (email_node_without_recipient Demo.env0 "n"
           [("subject", VStr "weekly")] (VStr "body") "m"
           ("{" ++ Demo.q "subject" ++ ": " ++ Demo.q "weekly" ++ "}") []);
    reflexivity.
Defined.

(** ** The tool invoker *)

Lemma resolve_alias_str tool_name h :
  resolve_alias (VStr tool_name) h = (Ok (VStr (resolved tool_name)), []).
Proof. reflexivity. Qed.

Lemma resolve_alias_hashable tool_name h :
  hashable tool_name = true ->
  resolve_alias tool_name h = (Ok (resolved_name tool_name), []).
Proof. destruct tool_name; simpl; intros H; try discriminate; reflexivity. Qed.

Lemma resolve_alias_unhashable tool_name h :
  hashable tool_name = false ->
  exists e, resolve_alias tool_name h = (Raise e, []).
Proof.
  destruct tool_name; simpl; intros H; try discriminate; eexists; reflexivity.
Qed.

(** A name that is no tool takes no branch. *)
Lemma tool_branches_unknown env name args model_name h :
  known name = false ->
  tool_branches env name args model_name h = (Ok None, []).
Proof.
  destruct name; try reflexivity.
  unfold known, known_tools, mem, tool_branches, eq_str. simpl.
  intros H.
  repeat match goal with
         | |- context [String.eqb ?a ?b] =>
             destruct (String.eqb a b) eqn:?; simpl in H; try discriminate
         end.
  rewrite !String.eqb_sym with (x := s) in *.
  repeat match goal with
         | E : String.eqb _ _ = false |- _ => rewrite E; clear E
         end.
  reflexivity.
Qed.

(** The invoker after the arguments were decoded and the name resolved:
    whatever the branches do, it returns. *)
Lemma execute_tool_decoded env tool_name arguments_json model_name h args :
  parsed_arguments env arguments_json = Some args ->
  hashable tool_name = true ->
  exists r w,
    _execute_tool env tool_name arguments_json model_name h = (Ok r, w)
    /\ (forall taken, tool_branches env (resolved_name tool_name) args model_name h
                      = (Ok (Some taken), w) -> r = taken)
    /\ (tool_branches env (resolved_name tool_name) args model_name h = (Ok None, w) ->
        r = ("ERROR: unknown tool '" ++ py_str env tool_name ++ "'.", None))
    /\ (forall e w', tool_branches env (resolved_name tool_name) args model_name h
                     = (Raise e, w') ->
        r = ("ERROR while executing '" ++ py_str env (resolved_name tool_name)
             ++ "': " ++ exc_text e, None)).
Proof.
  intros Hargs Hh. unfold _execute_tool. rewrite Hargs.
  unfold bind at 1. rewrite (resolve_alias_hashable _ _ Hh).
  rewrite app_nil_r. simpl app.
  unfold bind, try_except.
  destruct (tool_branches env (resolved_name tool_name) args model_name h)
    as [[[taken |] | e] w] eqn:Hb; simpl; rewrite ?app_nil_r;
    eexists _, _; (split; [reflexivity |]);
    (split; [| split]); intros; congruence.
Qed.

(** The invoker returns for a name the alias table can look up and an
    argument text the decoder decodes or refuses. *)
Lemma execute_tool_returns env tool_name arguments_json model_name h :
  hashable tool_name = true ->
  (PyStr.nonempty arguments_json = true -> decodes env arguments_json = true) ->
  exists r w, _execute_tool env tool_name arguments_json model_name h = (Ok r, w).
Proof.
  intros Hh Hd.
  destruct (parsed_arguments env arguments_json) as [args |] eqn:Hargs.
  - destruct (execute_tool_decoded env tool_name arguments_json model_name h args
                Hargs Hh) as (r & w & Hrun & _).
    exists r, w. exact Hrun.
  - unfold parsed_arguments in Hargs.
    destruct (PyStr.nonempty arguments_json) eqn:Hne; [| discriminate].
    specialize (Hd eq_refl). unfold decodes in Hd. rewrite Hargs in Hd.
    unfold _execute_tool, parsed_arguments. rewrite Hne, Hargs, Hd.
    eexists _, _. reflexivity.
Qed.

(** C2 (amended).  For a tool name that the alias table can look up and an
    argument text that the decoder decodes or refuses, the invoker returns
    an observation and an artifact path.  Whenever it returns, on each
    failure of [invoke_failure] the observation begins with ERROR and the
    path is null.  (The fields of the document tool have defaults, and an
    empty argument text stands for an empty mapping.) *)
Theorem execute_tool_reports_failures :
  forall env tool_name arguments_json model_name h,
    (hashable tool_name = true ->
     (PyStr.nonempty arguments_json = true -> decodes env arguments_json = true) ->
     exists obs art w,
       _execute_tool env tool_name arguments_json model_name h = (Ok (obs, art), w))
    /\ (forall obs art w,
          _execute_tool env tool_name arguments_json model_name h = (Ok (obs, art), w) ->
          invoke_failure env tool_name arguments_json model_name h ->
          PyStr.startswith obs "ERROR" = true /\ art = None).
Proof.
  intros env tool_name arguments_json model_name h.
  destruct (parsed_arguments env arguments_json) as [args |] eqn:Hargs.
  - split.
    + intros Hh _.
      destruct (execute_tool_decoded env tool_name arguments_json model_name h args
                  Hargs Hh) as ([obs art] & w & Hrun & _).
      exists obs, art, w. exact Hrun.
    + intros obs art w Hrun F.
      destruct (hashable tool_name) eqn:Hh.
      * destruct (execute_tool_decoded env tool_name arguments_json model_name h args
                    Hargs Hh) as (r & w0 & Hrun0 & Hsome & Hnone & Hraise).
        rewrite Hrun in Hrun0. inversion Hrun0; subst r w0. clear Hrun0.
        destruct (tool_branches env (resolved_name tool_name) args model_name h)
          as [[[taken |] | e] wb] eqn:Hb.
        -- assert (Hw : wb = w).
           { revert Hrun. unfold _execute_tool. rewrite Hargs.
             unfold bind at 1. rewrite (resolve_alias_hashable _ _ Hh).
             rewrite app_nil_r. simpl app. unfold bind, try_except.
             rewrite Hb. simpl. rewrite ?app_nil_r. intros E. inversion E. reflexivity. }
           subst wb. specialize (Hsome taken eq_refl). subst taken.
           destruct F as [Hne Hbad | Hun | args' e w' Ha Hr | d Ha Hn Hf
                         | d Ha Hn H1 H2 H3 | d Ha Hn Hf].
           ++ unfold parsed_arguments in Hargs. rewrite Hne, Hbad in Hargs. discriminate.
           ++ rewrite (tool_branches_unknown _ _ _ _ _ Hun) in Hb. discriminate.
           ++ rewrite Hargs in Ha. inversion Ha; subst. rewrite Hr in Hb. discriminate.
           ++ rewrite Hargs in Ha. inversion Ha; subst. rewrite Hn in Hb.
              unfold tool_branches in Hb. simpl in Hb.
              unfold bind, attr_get, ret in Hb. simpl in Hb. rewrite Hf in Hb.
              simpl in Hb. inversion Hb; subst. split; reflexivity.
           ++ rewrite Hargs in Ha. inversion Ha; subst. rewrite Hn in Hb.
              unfold tool_branches in Hb. simpl in Hb.
              unfold bind, attr_get, ret, por in Hb. simpl in Hb.
              rewrite H1, H2, H3 in Hb. simpl in Hb.
              inversion Hb; subst. split; reflexivity.
           ++ rewrite Hargs in Ha. inversion Ha; subst. rewrite Hn in Hb.
              unfold tool_branches in Hb. simpl in Hb.
              unfold bind, attr_get, ret, por in Hb. simpl in Hb.
              rewrite Hf in Hb. simpl in Hb.
              inversion Hb; subst. split; reflexivity.
        -- assert (Hw : wb = w).
           { revert Hrun. unfold _execute_tool. rewrite Hargs.
             unfold bind at 1. rewrite (resolve_alias_hashable _ _ Hh).
             rewrite app_nil_r. simpl app. unfold bind, try_except.
             rewrite Hb. simpl. rewrite ?app_nil_r. intros E. inversion E. reflexivity. }
           subst wb. specialize (Hnone eq_refl). inversion Hnone; subst.
           split; reflexivity.
        -- specialize (Hraise e wb eq_refl). inversion Hraise; subst.
           split; reflexivity.
      * exfalso. destruct (resolve_alias_unhashable tool_name h Hh) as (e & He).
        revert Hrun. unfold _execute_tool. rewrite Hargs.
        unfold bind at 1. rewrite He. discriminate.
  - assert (Hne : PyStr.nonempty arguments_json = true
                  /\ json_loads env arguments_json = None).
    { unfold parsed_arguments in Hargs.
      destruct (PyStr.nonempty arguments_json); [auto | discriminate]. }
    destruct Hne as [Hne Hnone].
    unfold _execute_tool. rewrite Hargs. split.
    + intros _ Hd. specialize (Hd Hne). unfold decodes in Hd. rewrite Hnone in Hd.
      rewrite Hd. eexists _, _, _. reflexivity.
    + intros obs art w Hrun _.
      destruct (decode_error (json_error env arguments_json)).
      * unfold ret in Hrun. inversion Hrun; subst. split; reflexivity.
      * discriminate.
Qed.

Lemma execute_tool_reports_failures_witness :
  exists obs art w,
    _execute_tool Demo.env0 (VStr "web_scraper") "[1" "m" [] = (Ok (obs, art), w)
    /\ PyStr.startswith obs "ERROR" = true /\ art = None.
Proof.
  destruct (execute_tool_reports_failures Demo.env0 (VStr "web_scraper") "[1" "m" [])
    as (Hret & Hfail).
  destruct Hret as (obs & art & w & Hrun); [reflexivity | reflexivity |].
  exists obs, art, w. split; [exact Hrun |].
  apply (Hfail obs art w Hrun). apply bad_json; reflexivity.
Defined.

(** C2, as stated, fails: the fields the schema of the document tool
    requires are all missing, yet the invoker reports success and an
    artifact path; and it does the same for the empty argument text, which
    is not valid JSON. *)
Lemma execute_tool_missing_fields_succeed :
  json_loads Demo.env0 "{}" = Some (VDict [])
  /\ _execute_tool Demo.env0 (VStr "generate_pdf_report") "{}" "m" []
     = (Ok ("SUCCESS: PDF saved to '/srv/app/reports/report.pdf'.",
            Some "/srv/app/reports/report.pdf"),
        [MkDir "reports"; PdfRender (VStr "AI Research Report") (VStr EmptyString);
         MkDir "/srv/app/reports"; PdfOutput "/srv/app/reports/report.pdf"])
  /\ json_loads Demo.env0 EmptyString = None
  /\ _execute_tool Demo.env0 (VStr "generate_pdf_report") EmptyString "m" []
     = (Ok ("SUCCESS: PDF saved to '/srv/app/reports/report.pdf'.",
            Some "/srv/app/reports/report.pdf"),
        [MkDir "reports"; PdfRender (VStr "AI Research Report") (VStr EmptyString);
         MkDir "/srv/app/reports"; PdfOutput "/srv/app/reports/report.pdf"]).
Proof. repeat split; reflexivity. Qed.

(** ** Paths of the document and the image tool *)

(** C3.  At the file name [../escape.pdf] the invoker writes the document
    to [/srv/app/escape.pdf], outside [/srv/app/reports]; the [pdf_report]
    node, given the same name, writes inside it. *)
Theorem pdf_tool_leaves_reports_dir :
  _execute_tool Demo.env0 (VStr "generate_pdf_report") Demo.escape_args "m" []
  = (Ok ("SUCCESS: PDF saved to '/srv/app/escape.pdf'.",
         Some "/srv/app/escape.pdf"),
     [MkDir "reports"; PdfRender (VStr "AI Research Report") (VStr EmptyString);
      MkDir "/srv/app"; PdfOutput "/srv/app/escape.pdf"])
  /\ Posix.within (Posix.abs_parts (cwd Demo.env0) "reports")
       (Posix.abs_parts (cwd Demo.env0) "/srv/app/escape.pdf") = false
  /\ _execute_node Demo.env0 "n" (VStr "tool") (VStr "pdf_report")
       (VDict [("filename", VStr "../escape.pdf")]) (VStr "text") []
     = (Ok (VDict [("pdf_path", VStr "/srv/app/reports/escape.pdf")]),
        [MkDir "/srv/app/reports";
         PdfRender (VStr "AI Research Report") (VStr "text");
         MkDir "/srv/app/reports"; PdfOutput "/srv/app/reports/escape.pdf"])
  /\ Posix.within (Posix.abs_parts (cwd Demo.env0) "reports")
       (Posix.abs_parts (cwd Demo.env0) "/srv/app/reports/escape.pdf") = true.
Proof. repeat split; reflexivity. Qed.

(** C4.  At the image path [uploads_private/secret.png] the resolved path
    is not inside [/srv/app/uploads], yet the tool opens and reads the file
    and the invoker returns the description: the test compares the texts of
    the two paths, not their components. *)
Theorem vision_tool_reads_outside_uploads :
  Posix.within (Posix.parts (UPLOADS_DIR Demo.env0))
    (Posix.abs_parts (cwd Demo.env0) "uploads_private/secret.png") = false
  /\ _execute_tool Demo.env0 (VStr "analyze_image") Demo.secret_args "m" []
     = (Ok ("Image analysis result:" ++ PyStr.nl ++ "a bar chart", None),
        [IsFile "/srv/app/uploads_private/secret.png";
         OpenRead "/srv/app/uploads_private/secret.png";
         VisionChat "m"
           (VStr "Describe this image in detail, focusing on any data, patterns, or key elements.")
           "/srv/app/uploads_private/secret.png"]).
Proof. split; reflexivity. Qed.

(* ================================================================== *)
(** ** What a computation may emit *)

Section Emits.
Context {A B : Type} (P : effect -> bool).

Lemma emits_ret (a : A) : emits P (ret a).
Proof. intros h. reflexivity. Qed.

Lemma emits_raise cls text : emits P (@raise A cls text).
Proof. intros h. reflexivity. Qed.

Lemma emits_lift (r : result A) : emits P (lift r).
Proof. intros h. reflexivity. Qed.

Lemma emits_emit e : P e = true -> emits P (emit e).
Proof. intros He h. simpl. rewrite He. reflexivity. Qed.

Lemma emits_perform env e : P e = true -> emits P (perform env e).
Proof. intros He h. simpl. rewrite He. reflexivity. Qed.

Lemma emits_ask e (answer : history -> result A) :
  P e = true -> emits P (ask e answer).
Proof. intros He h. simpl. rewrite He. reflexivity. Qed.

Lemma emits_bind (m : M A) (k : A -> M B) :
  emits P m -> (forall a, emits P (k a)) -> emits P (bind m k).
Proof.
  intros Hm Hk h. unfold bind. specialize (Hm h).
  destruct (m h) as [[a | e] w]; simpl in *; auto.
  specialize (Hk a (h ++ w)%list).
  destruct (k a (h ++ w)%list) as [r w']. simpl in *.
  rewrite forallb_app, Hm, Hk. reflexivity.
Qed.

Lemma emits_try_except (m : M A) (handler : exn -> M A) :
  emits P m -> (forall e, emits P (handler e)) -> emits P (try_except m handler).
Proof.
  intros Hm Hk h. unfold try_except. specialize (Hm h).
  destruct (m h) as [[a | e] w]; simpl in *; auto.
  specialize (Hk e (h ++ w)%list).
  destruct (handler e (h ++ w)%list) as [r w']. simpl in *.
  rewrite forallb_app, Hm, Hk. reflexivity.
Qed.

End Emits.

Lemma emits_weaken {A} (P Q : effect -> bool) (m : M A) :
  (forall e, P e = true -> Q e = true) -> emits P m -> emits Q m.
Proof.
  intros HPQ Hm h. specialize (Hm h).
  rewrite forallb_forall in *. auto.
Qed.

(** Follow the shape of a computation. *)
Ltac emits_step :=
  first
    [ apply emits_ret
    | apply emits_raise
    | apply emits_lift
    | apply emits_emit; reflexivity
    | apply emits_perform; reflexivity
    | apply emits_ask; reflexivity
    | apply emits_bind; [| intros ?]
    | apply emits_try_except; [| intros ?]
    | match goal with
      | |- emits _ (if ?b then _ else _) => destruct b
      | |- emits _ (match ?x with _ => _ end) => destruct x
      | |- emits _ (let _ := _ in _) => cbv zeta
      end ].

Ltac emits_tac := repeat emits_step.

Lemma emits_attr_get P v : emits P (attr_get v).
Proof. unfold attr_get. emits_tac. Qed.

Lemma emits_py_join P env sep v : emits P (py_join env sep v).
Proof. unfold py_join. emits_tac. Qed.

Lemma emits_py_int P env v : emits P (py_int env v).
Proof. unfold py_int. emits_tac. Qed.

Lemma emits_resolve_alias P v : emits P (resolve_alias v).
Proof. unfold resolve_alias. emits_tac. Qed.

Lemma generate_report_tool env title body filename :
  emits tool_effect (generate_report env title body filename).
Proof. unfold generate_report. emits_tac. Qed.

Lemma analyze_image_tool env image_path prompt model_name :
  emits tool_effect (analyze_image env image_path prompt model_name).
Proof. unfold analyze_image. emits_tac. Qed.

Lemma tool_branches_tool env name args model_name :
  emits tool_effect (tool_branches env name args model_name).
Proof.
  unfold tool_branches, asyncio_run, scrape, send_email.
  repeat first
    [ apply emits_attr_get | apply emits_py_join
    | apply generate_report_tool | apply analyze_image_tool
    | emits_step ].
Qed.

Lemma execute_tool_tool env tool_name arguments_json model_name :
  emits tool_effect (_execute_tool env tool_name arguments_json model_name).
Proof.
  unfold _execute_tool.
  repeat first
    [ apply emits_resolve_alias | apply tool_branches_tool | emits_step ].
Qed.
(* ================================================================== *)
(** ** The reasoning loop *)

Lemma events_of_app w1 w2 :
  events_of (w1 ++ w2) = (events_of w1 ++ events_of w2)%list.
Proof. unfold events_of. apply flat_map_app. Qed.

Lemma commits_app w1 w2 : commits (w1 ++ w2) = (commits w1 ++ commits w2)%list.
Proof. unfold commits. apply flat_map_app. Qed.

Lemma queries_app w1 w2 : queries (w1 ++ w2) = queries w1 + queries w2.
Proof. unfold queries. rewrite filter_app, length_app. reflexivity. Qed.

Lemma tool_effects_silent w :
  forallb tool_effect w = true ->
  events_of w = [] /\ queries w = 0 /\ commits w = []
  /\ forallb reply_effect w = true.
Proof.
  induction w as [| e w IH]; simpl; [auto |].
  intros H. apply andb_prop in H. destruct H as [He Hw].
  destruct (IH Hw) as (I1 & I2 & I3 & I4).
  destruct e; simpl in He; try discriminate;
    unfold queries in *; simpl; rewrite ?I1, ?I3, ?I4; auto.
Qed.

Lemma reply_effects_quiet w :
  forallb reply_effect w = true ->
  queries w = 0 /\ commits w = [] /\ forallb loop_effect w = true
  /\ progress_events (events_of w) = true.
Proof.
  induction w as [| e w IH]; simpl; [auto |].
  intros H. apply andb_prop in H. destruct H as [He Hw].
  destruct (IH Hw) as (I1 & I2 & I3 & I4).
  destruct e; simpl in He; try discriminate;
    unfold queries, progress_events in *; simpl; rewrite ?He, ?I2, ?I3; auto.
Qed.

Lemma loop_effects_quiet w :
  forallb loop_effect w = true ->
  commits w = [] /\ progress_events (events_of w) = true.
Proof.
  induction w as [| e w IH]; simpl; [auto |].
  intros H. apply andb_prop in H. destruct H as [He Hw].
  destruct (IH Hw) as (I1 & I2).
  destruct e; simpl in He; try discriminate;
    unfold progress_events in *; simpl; rewrite ?He; auto.
Qed.

Lemma store_effects_silent w :
  forallb store_effect w = true -> events_of w = [] /\ queries w = 0.
Proof.
  induction w as [| e w IH]; simpl; [auto |].
  intros H. apply andb_prop in H. destruct H as [He Hw].
  destruct (IH Hw) as (I1 & I2).
  destruct e; simpl in He; try discriminate; unfold queries in *; simpl; auto.
Qed.

Lemma execute_tool_reply env tool_name arguments_json model_name :
  emits reply_effect (_execute_tool env tool_name arguments_json model_name).
Proof.
  apply emits_weaken with (P := tool_effect); [| apply execute_tool_tool].
  intros e He. destruct e; simpl in *; auto; discriminate.
Qed.

Lemma emits_loads_guarded P env s : emits P (loads_guarded env s).
Proof. unfold loads_guarded. emits_tac. Qed.

(** A drained tool call whose argument text the decoder decodes or
    refuses: its two events around the effects of the tool, and its two
    messages. *)
Lemma run_tool_call_shape env step model_name st tc h :
  decodes env (call_arguments tc) = true ->
  exists st' obs w,
    run_tool_call env step model_name st tc h = (Ok st', w)
    /\ events_of w = call_events (tc, obs)
    /\ forallb reply_effect w = true
    /\ messages st' = (messages st ++ call_messages (tc, obs))%list.
Proof.
  intros Hd.
  set (act := Yield "action"
                ("[ACTION] Executing tool: " ++ tc_name tc ++ PyStr.nl
                 ++ "Args: " ++ call_arguments tc)).
  destruct (execute_tool_returns (in_loop env) (VStr (tc_name tc)) (call_arguments tc)
              model_name (h ++ [act])%list eq_refl (fun _ => Hd))
    as ([obs art] & wt & Hrun).
  pose proof (execute_tool_tool (in_loop env) (VStr (tc_name tc)) (call_arguments tc)
                model_name (h ++ [act])%list) as Ht.
  rewrite Hrun in Ht. simpl in Ht.
  destruct (tool_effects_silent _ Ht) as (E1 & _ & _ & E4).
  eexists _, obs, (act :: wt ++ [Yield "observation" ("[OBSERVATION] " ++ obs)])%list.
  split; [| split; [| split]].
  - unfold run_tool_call. cbv zeta.
    unfold bind at 1. unfold yield_ at 1. unfold emit at 1. cbv beta iota.
    fold act. unfold bind at 1. rewrite Hrun. cbv beta iota.
    unfold bind, yield_, emit, ret. simpl. rewrite ?app_nil_r. reflexivity.
  - change (events_of ([act] ++ wt
                        ++ [Yield "observation" ("[OBSERVATION] " ++ obs)])
            = call_events (tc, obs)).
    rewrite !events_of_app, E1. reflexivity.
  - simpl. rewrite forallb_app, E4. reflexivity.
  - reflexivity.
Qed.

(** The calls of one reply, drained in order. *)
Lemma drain_tool_calls_shape env step model_name tcs :
  (forall tc, In tc tcs -> decodes env (call_arguments tc) = true) ->
  forall st h,
  exists st' observations w,
    drain_tool_calls env step model_name st tcs h = (Ok st', w)
    /\ List.length observations = List.length tcs
    /\ events_of w = flat_map call_events (combine tcs observations)
    /\ forallb reply_effect w = true
    /\ messages st'
       = (messages st ++ flat_map call_messages (combine tcs observations))%list.
Proof.
  induction tcs as [| tc tcs IH]; intros Hd st h.
  - exists st, [], []. simpl. rewrite app_nil_r. auto.
  - destruct (run_tool_call_shape env step model_name st tc h)
      as (st1 & obs & w1 & Hrun & Hev & Hre & Hmsg);
      [apply Hd; left; reflexivity |].
    destruct (IH (fun tc' H => Hd tc' (or_intror H)) st1 (h ++ w1)%list)
      as (st2 & observations & w2 & Hrest & Hlen & Hev2 & Hre2 & Hmsg2).
    exists st2, (obs :: observations), (w1 ++ w2)%list.
    split; [| split; [| split; [| split]]].
    + simpl. apply bind_ok with (a := st1); assumption.
    + simpl. congruence.
    + rewrite events_of_app, Hev, Hev2. reflexivity.
    + rewrite forallb_app, Hre, Hre2. reflexivity.
    + rewrite Hmsg2, Hmsg. simpl. rewrite <- app_assoc. reflexivity.
Qed.

Lemma ensures_ret {A} (Q : A -> Prop) a : Q a -> ensures Q (ret a).
Proof. intros HQ h a' w H. inversion H; subst. exact HQ. Qed.

Lemma ensures_raise {A} (Q : A -> Prop) cls text : ensures Q (@raise A cls text).
Proof. intros h a w H. discriminate. Qed.

Lemma ensures_true {A} (m : M A) : ensures (fun _ => True) m.
Proof. intros h a w _. exact I. Qed.

Lemma ensures_bind {A B} (Q1 : A -> Prop) (Q : B -> Prop) (m : M A) (k : A -> M B) :
  ensures Q1 m -> (forall a, Q1 a -> ensures Q (k a)) -> ensures Q (bind m k).
Proof.
  intros Hm Hk h b w H. apply bind_inv in H.
  destruct H as [(a & w1 & w2 & Ha & Hb & _) | (e & _ & He)]; [| discriminate].
  eapply Hk; eauto.
Qed.

Lemma extends_refl st : extends st st.
Proof. exists []. rewrite app_nil_r. reflexivity. Qed.

Lemma extends_trans st1 st2 st3 : extends st1 st2 -> extends st2 st3 -> extends st1 st3.
Proof.
  intros [m1 H1] [m2 H2]. exists (m1 ++ m2)%list.
  rewrite H2, H1, app_assoc. reflexivity.
Qed.

Lemma run_tool_call_reply env step model_name st tc :
  emits reply_effect (run_tool_call env step model_name st tc).
Proof.
  unfold run_tool_call, yield_.
  repeat first [apply execute_tool_reply | emits_step].
Qed.

Lemma run_tool_call_extends env step model_name st tc :
  ensures (extends st) (run_tool_call env step model_name st tc).
Proof.
  unfold run_tool_call. cbv zeta.
  eapply ensures_bind; [apply ensures_true | intros _ _].
  eapply ensures_bind; [apply ensures_true | intros [obs art] _].
  eapply ensures_bind; [apply ensures_true | intros _ _].
  apply ensures_ret. eexists. reflexivity.
Qed.

Lemma drain_tool_calls_reply env step model_name tcs :
  forall st, emits reply_effect (drain_tool_calls env step model_name st tcs).
Proof.
  induction tcs as [| tc tcs IH]; intros st; simpl.
  - apply emits_ret.
  - apply emits_bind; [apply run_tool_call_reply | intros st1; apply IH].
Qed.

Lemma drain_tool_calls_extends env step model_name tcs :
  forall st, ensures (extends st) (drain_tool_calls env step model_name st tcs).
Proof.
  induction tcs as [| tc tcs IH]; intros st; simpl.
  - apply ensures_ret. apply extends_refl.
  - eapply ensures_bind; [apply run_tool_call_extends | intros st1 H1].
    intros h st2 w H. eapply extends_trans; [exact H1 |].
    exact (IH st1 h st2 w H).
Qed.

Lemma parse_inline_reply env text :
  emits reply_effect (_parse_inline_tool_call env text).
Proof.
  unfold _parse_inline_tool_call.
  repeat first [apply emits_attr_get | apply emits_loads_guarded | emits_step].
Qed.

Lemma run_inline_call_reply env step model_name st t_name t_args :
  emits reply_effect (run_inline_call env step model_name st t_name t_args).
Proof.
  unfold run_inline_call, yield_.
  repeat first [apply execute_tool_reply | emits_step].
Qed.

Lemma run_inline_call_extends env step model_name st t_name t_args :
  ensures (extends st) (run_inline_call env step model_name st t_name t_args).
Proof.
  unfold run_inline_call. cbv zeta.
  eapply ensures_bind; [apply ensures_true | intros _ _].
  eapply ensures_bind; [apply ensures_true | intros [obs art] _].
  eapply ensures_bind; [apply ensures_true | intros _ _].
  apply ensures_ret. eexists. reflexivity.
Qed.

Lemma handle_reply_reply env model_name step st choices :
  emits reply_effect (handle_reply env model_name step st choices).
Proof.
  unfold handle_reply, yield_.
  repeat first
    [ apply drain_tool_calls_reply | apply parse_inline_reply
    | apply run_inline_call_reply | emits_step ].
Qed.

Lemma handle_reply_extends env model_name step st choices :
  ensures (fun cs => extends st (snd cs)) (handle_reply env model_name step st choices).
Proof.
  unfold handle_reply.
  eapply ensures_bind; [apply ensures_true | intros message _]. cbv zeta.
  eapply ensures_bind with (Q1 := fun st1 => messages st1 = messages st).
  - destruct (PyStr.nonempty _).
    + eapply ensures_bind; [apply ensures_true | intros _ _].
      apply ensures_ret. reflexivity.
    + apply ensures_ret. reflexivity.
  - intros st1 Hst1.
    assert (Hext : extends st st1) by (exists []; rewrite app_nil_r; exact Hst1).
    destruct (tool_calls message).
    + destruct (PyStr.nonempty _).
      * eapply ensures_bind; [apply ensures_true | intros parsed _].
        destruct parsed as [[t_name t_args] |].
        -- eapply ensures_bind;
             [apply run_inline_call_extends | intros st2 Hst2].
           apply ensures_ret. simpl. eapply extends_trans; eauto.
        -- apply ensures_ret. simpl. exact Hext.
      * apply ensures_ret. exact Hext.
    + eapply ensures_bind; [apply drain_tool_calls_extends | intros st2 Hst2].
      apply ensures_ret. simpl. eapply extends_trans; eauto.
Qed.

(** A step: the progress event, the query, then what the reply causes. *)
Lemma react_step_shape env model_name schemas step st h :
  exists r w,
    react_step env model_name schemas step st h
    = (r, Yield "thought" (querying step model_name)
          :: ChatCompletion model_name (messages st) schemas :: w)
    /\ forallb reply_effect w = true
    /\ (forall c st', r = Ok (c, st') -> extends st st').
Proof.
  unfold react_step, querying.
  set (y := Yield "thought" _).
  set (c := ChatCompletion _ _ _).
  unfold bind at 1. unfold yield_, emit. cbv beta iota. fold y.
  unfold bind at 1. unfold ask. cbv beta iota. fold c.
  destruct (chat_create env (h ++ [y])%list model_name (messages st) schemas)
    as [choices | e].
  - destruct (handle_reply env model_name step st choices
                ((h ++ [y]) ++ [c])%list) as [r w] eqn:Hr.
    exists r, w. split; [reflexivity | split].
    + pose proof (handle_reply_reply env model_name step st choices
                    ((h ++ [y]) ++ [c])%list) as He.
      rewrite Hr in He. exact He.
    + intros c' st' ->.
      apply (handle_reply_extends env model_name step st choices _ _ _ Hr).
  - exists (Raise e), []. split; [reflexivity | split; [reflexivity |]].
    intros c' st' H. discriminate.
Qed.

(** The loop: at most one query per remaining step, and only progress
    events, queries and tool effects. *)
Lemma react_loop_shape env model_name schemas steps :
  forall st h,
  exists r w,
    react_loop env model_name schemas steps st h = (r, w)
    /\ forallb loop_effect w = true
    /\ queries w <= List.length steps
    /\ (forall st', r = Ok st' -> extends st st').
Proof.
  induction steps as [| step steps IH]; intros st h.
  - exists (Ok st), []. simpl. repeat split; auto.
    intros st' H. inversion H; subst. apply extends_refl.
  - destruct (react_step_shape env model_name schemas step st h)
      as (r1 & w1 & Hstep & Hre & Hext).
    destruct (reply_effects_quiet _ Hre) as (Q1 & _ & L1 & _).
    set (w0 := Yield "thought" (querying step model_name)
               :: ChatCompletion model_name (messages st) schemas :: w1) in *.
    assert (Hq : queries w0 = 1).
    { unfold w0, queries in *. simpl. rewrite Q1. reflexivity. }
    assert (Hl : forallb loop_effect w0 = true).
    { unfold w0. simpl. exact L1. }
    simpl react_loop. unfold bind. rewrite Hstep.
    destruct r1 as [[[|] st1] | e].
    + destruct (IH st1 (h ++ w0)%list) as (r2 & w2 & Hrest & L2 & Q2 & Hext2).
      rewrite Hrest. exists r2, (w0 ++ w2)%list.
      split; [reflexivity | split; [| split]].
      * rewrite forallb_app, Hl, L2. reflexivity.
      * rewrite queries_app, Hq. simpl. lia.
      * intros st' H. eapply extends_trans; [eapply Hext; reflexivity | auto].
    + exists (Ok st1), (w0 ++ [])%list.
      split; [reflexivity | split; [| split]].
      * rewrite app_nil_r. exact Hl.
      * rewrite app_nil_r, Hq. simpl. lia.
      * intros st' H. inversion H; subst. eapply Hext. reflexivity.
    + exists (Raise e), w0. split; [reflexivity | split; [| split]]; auto.
      * rewrite Hq. simpl. lia.
      * intros st' H. discriminate.
Qed.

(** Storing a record: the three operations, up to the one that raises. *)
Lemma store_log_eq env log h :
  store_log env log h
  = match io_raises env h (SessionAdd log) with
    | Some e => (Raise e, [SessionAdd log])
    | None =>
        match io_raises env (h ++ [SessionAdd log])%list (SessionCommit log) with
        | Some e => (Raise e, [SessionAdd log; SessionCommit log])
        | None =>
            (session_refresh env (h ++ [SessionAdd log; SessionCommit log])%list log,
             storing log)
        end
    end.
Proof.
  unfold store_log, bind, perform, ask, storing.
  destruct (io_raises env h (SessionAdd log)); [reflexivity |].
  destruct (io_raises env (h ++ [SessionAdd log])%list (SessionCommit log));
    [reflexivity |].
  rewrite <- app_assoc. reflexivity.
Qed.

Lemma store_log_store env log : emits store_effect (store_log env log).
Proof. unfold store_log. emits_tac. Qed.

(** A record that was stored went through the three operations. *)
Lemma store_log_ok env log h id ws :
  store_log env log h = (Ok id, ws) -> ws = storing log.
Proof.
  rewrite store_log_eq.
  destruct (io_raises env h (SessionAdd log)); [discriminate |].
  destruct (io_raises env (h ++ [SessionAdd log])%list (SessionCommit log));
    [discriminate |].
  intros H. inversion H. reflexivity.
Qed.

(** The run of an agent that exists: the guard of its tool list, the
    loop, the record, the final event. *)
Lemma run_agent_eq env agent user_prompt image_path h :
  run_agent env agent user_prompt image_path h
  = match tools_guard env agent with
    | Raise e => (Raise e, [])
    | Ok _ =>
        match react_loop env (model_of agent) (_get_tool_schemas env agent)
                (seq 0 MAX_REACT_STEPS)
                (first_state env agent user_prompt image_path) h with
        | (Raise e, wl) => (Raise e, wl)
        | (Ok st, wl) =>
            match store_log env (task_log agent user_prompt st) (h ++ wl)%list with
            | (Raise e, ws) => (Raise e, (wl ++ ws)%list)
            | (Ok id, ws) =>
                (Ok tt,
                 (wl ++ ws ++ [Yield "final" (result_payload env agent id st)])%list)
            end
        end
    end.
Proof.
  unfold run_agent. cbv zeta. fold (first_state env agent user_prompt image_path).
  unfold bind at 1. unfold lift at 1.
  destruct (tools_guard env agent) as [[] | e]; [| reflexivity].
  rewrite app_nil_r. simpl app.
  unfold bind at 1.
  destruct (react_loop env (model_of agent) (_get_tool_schemas env agent)
              (seq 0 MAX_REACT_STEPS)
              (first_state env agent user_prompt image_path) h) as [[st | e] wl];
    [| reflexivity].
  unfold bind at 1.
  destruct (store_log env (task_log agent user_prompt st) (h ++ wl)%list)
    as [[id | e] ws]; reflexivity.
Qed.

(** A stream is its [try] block, then the [finally] block. *)
Lemma stream_eq env agent_id user_prompt image_path h :
  stream_agent_task env agent_id user_prompt image_path h
  = ended env h (attempt env agent_id user_prompt image_path h).
Proof.
  unfold stream_agent_task, try_finally, try_except, attempt, ended.
  rewrite bind_ask.
  destruct (session_get env h agent_id) as [[agent |] | e].
  - destruct (run_agent env agent user_prompt image_path (h ++ [SessionGet agent_id])%list)
      as [[[] | e] wr].
    + unfold bind, perform, yield_, emit.
      destruct (io_raises env _ SessionClose); reflexivity.
    + unfold bind, perform, yield_, emit. cbv beta iota.
      destruct (io_raises env _ SessionClose); reflexivity.
  - unfold bind, perform, yield_, emit. cbv beta iota. simpl app.
    destruct (io_raises env _ SessionClose); reflexivity.
  - unfold bind, perform, yield_, emit. cbv beta iota. simpl app.
    destruct (io_raises env _ SessionClose); reflexivity.
Qed.

(** The three ways a [try] block goes: the agent is not found; something
    raises, in the loop or around it; the record is stored and the final
    event sent. *)
Lemma attempt_shape env agent_id user_prompt image_path h :
  let body := attempt env agent_id user_prompt image_path h in
  (session_get env h agent_id = Ok None
   /\ body = [SessionGet agent_id;
              Yield "error" ("Agent #" ++ PyStr.of_Z agent_id ++ " not found.");
              Yield "done" "[DONE]"])
  \/ (exists wl ws e,
         forallb loop_effect wl = true
         /\ queries wl <= MAX_REACT_STEPS
         /\ forallb store_effect ws = true
         /\ (ws = []
             \/ exists agent st,
                  loop_of env agent agent_id user_prompt image_path h = (Ok st, wl)
                  /\ store_log env (task_log agent user_prompt st)
                       (h ++ SessionGet agent_id :: wl)%list
                     = (Raise e, ws))
         /\ body = (SessionGet agent_id :: wl ++ ws
                    ++ [Yield "error" ("Fatal error: " ++ exc_text e)])%list)
  \/ (exists agent st wl id,
         session_get env h agent_id = Ok (Some agent)
         /\ tools_guard env agent = Ok tt
         /\ loop_of env agent agent_id user_prompt image_path h = (Ok st, wl)
         /\ store_log env (task_log agent user_prompt st)
              (h ++ SessionGet agent_id :: wl)%list
            = (Ok id, storing (task_log agent user_prompt st))
         /\ forallb loop_effect wl = true
         /\ queries wl <= MAX_REACT_STEPS
         /\ body = (SessionGet agent_id :: wl
                    ++ storing (task_log agent user_prompt st)
                    ++ [Yield "final" (result_payload env agent id st)])%list).
Proof.
  intros body. subst body. unfold attempt.
  destruct (session_get env h agent_id) as [[agent |] | e] eqn:Hget.
  - rewrite run_agent_eq.
    destruct (tools_guard env agent) as [[] | e] eqn:Hguard.
    + destruct (react_loop_shape env (model_of agent) (_get_tool_schemas env agent)
                  (seq 0 MAX_REACT_STEPS)
                  (first_state env agent user_prompt image_path)
                  (h ++ [SessionGet agent_id])%list) as (r & wl & Hloop & Hl & Hq & _).
      rewrite length_seq in Hq. rewrite Hloop.
      destruct r as [st | e].
      * destruct (store_log env (task_log agent user_prompt st)
                    ((h ++ [SessionGet agent_id]) ++ wl)%list) as [[id | e] ws] eqn:Hs.
        -- right. right. exists agent, st, wl, id.
           pose proof (store_log_ok _ _ _ _ _ Hs) as ->.
           rewrite <- app_assoc in Hs.
           repeat split; auto.
        -- right. left. exists wl, ws, e.
           pose proof (store_log_store env (task_log agent user_prompt st)
                         ((h ++ [SessionGet agent_id]) ++ wl)%list) as He.
           rewrite Hs in He. simpl in He. rewrite <- app_assoc in Hs.
           split; [exact Hl | split; [exact Hq | split; [exact He | split]]].
           ++ right. exists agent, st. split; [exact Hloop | exact Hs].
           ++ rewrite <- app_assoc. reflexivity.
      * right. left. exists wl, [], e.
        split; [exact Hl | split; [exact Hq | split; [reflexivity | split]]];
          [left; reflexivity | reflexivity].
    + right. left. exists [], [], e.
      split; [reflexivity | split; [| split; [reflexivity | split]]];
        [unfold queries, MAX_REACT_STEPS; simpl; lia | left; reflexivity | reflexivity].
  - left. split; reflexivity.
  - right. left. exists [], [], e.
    split; [reflexivity | split; [| split; [reflexivity | split]]];
      [unfold queries, MAX_REACT_STEPS; simpl; lia | left; reflexivity | reflexivity].
Qed.
(* ================================================================== *)
(** ** The event stream *)


(** The [finally] block adds no query and no commit. *)
Lemma ended_effects env h body :
  snd (ended env h body) = (body ++ [SessionClose])%list
  \/ snd (ended env h body) = (body ++ [SessionClose; Yield "done" "[DONE]"])%list.
Proof. unfold ended. destruct (io_raises env _ SessionClose); auto. Qed.

Ltac count_queries :=
  unfold queries, MAX_REACT_STEPS in *;
  repeat (rewrite ?filter_app, ?length_app; simpl);
  lia.

Lemma queries_ended env h body : queries (snd (ended env h body)) = queries body.
Proof.
  destruct (ended_effects env h body) as [-> | ->];
    rewrite queries_app; unfold queries at 2; simpl; lia.
Qed.

Lemma commits_ended env h body : commits (snd (ended env h body)) = commits body.
Proof.
  destruct (ended_effects env h body) as [-> | ->];
    rewrite commits_app; simpl; apply app_nil_r.
Qed.

(** The events of the run of an agent that exists. *)
Lemma run_agent_events env agent user_prompt image_path h r wr :
  run_agent env agent user_prompt image_path h = (r, wr) ->
  queries wr <= MAX_REACT_STEPS
  /\ match r with
     | Ok _ =>
         exists progress payload,
           events_of wr = (progress ++ [("final", payload)])%list
           /\ progress_events progress = true
     | Raise _ => progress_events (events_of wr) = true
     end.
Proof.
  rewrite run_agent_eq.
  destruct (tools_guard env agent) as [[] | e].
  - destruct (react_loop_shape env (model_of agent) (_get_tool_schemas env agent)
                (seq 0 MAX_REACT_STEPS)
                (first_state env agent user_prompt image_path) h)
      as (rl & wl & Hloop & Hl & Hq & _).
    rewrite length_seq in Hq. rewrite Hloop.
    destruct (loop_effects_quiet _ Hl) as (_ & Hp).
    destruct rl as [st | e].
    + pose proof (store_log_store env (task_log agent user_prompt st) (h ++ wl)%list)
        as Hs.
      destruct (store_log env (task_log agent user_prompt st) (h ++ wl)%list)
        as [[id | e] ws]; simpl in Hs;
        destruct (store_effects_silent _ Hs) as (E & Q);
        intros H; inversion H; subst r wr.
      * split; [count_queries |].
        exists (events_of wl), (result_payload env agent id st).
        split; [| exact Hp]. rewrite !events_of_app, E. reflexivity.
      * split; [count_queries |].
        rewrite events_of_app, E, app_nil_r. exact Hp.
    + intros H. inversion H; subst r wr. split; [exact Hq | exact Hp].
  - intros H. inversion H; subst r wr. split; [| reflexivity].
    unfold queries, MAX_REACT_STEPS. simpl. lia.
Qed.

(** C1 (amended).  A run queries the model at most [MAX_REACT_STEPS]
    times, and it ends as [ended] says: after its [try] block the session is
    closed and, when that returns, the done event is sent, the last of the
    stream.  The [try] block goes one of four ways.  The agent exists and
    nothing raises: progress events, then one final event.  The agent exists
    and something raises: progress events, then one error event.  Fetching
    the agent raises: one error event.  The agent does not exist: an error
    event and a done event. *)
Theorem stream_of_a_run :
  forall env agent_id user_prompt image_path h,
    let run := stream_agent_task env agent_id user_prompt image_path h in
    let fetched := (h ++ [SessionGet agent_id])%list in
    queries (snd run) <= MAX_REACT_STEPS
    /\ (forall agent wr,
          session_get env h agent_id = Ok (Some agent) ->
          run_agent env agent user_prompt image_path fetched = (Ok tt, wr) ->
          run = ended env h (SessionGet agent_id :: wr)
          /\ exists progress payload,
               events_of wr = (progress ++ [("final", payload)])%list
               /\ progress_events progress = true)
    /\ (forall agent e wr,
          session_get env h agent_id = Ok (Some agent) ->
          run_agent env agent user_prompt image_path fetched = (Raise e, wr) ->
          run = ended env h
                  (SessionGet agent_id
                   :: wr ++ [Yield "error" ("Fatal error: " ++ exc_text e)])%list
          /\ progress_events (events_of wr) = true)
    /\ (forall e,
          session_get env h agent_id = Raise e ->
          run = ended env h
                  [SessionGet agent_id;
                   Yield "error" ("Fatal error: " ++ exc_text e)])
    /\ (session_get env h agent_id = Ok None ->
        run = ended env h
                [SessionGet agent_id;
                 Yield "error" ("Agent #" ++ PyStr.of_Z agent_id ++ " not found.");
                 Yield "done" "[DONE]"]).
Proof.
  intros env agent_id user_prompt image_path h run fetched. subst run fetched.
  rewrite stream_eq. split; [| split; [| split; [| split]]].
  - rewrite queries_ended.
    destruct (attempt_shape env agent_id user_prompt image_path h)
      as [(_ & ->) | [(wl & ws & e & _ & Hq & Hs & _ & ->)
                     | (agent & st & wl & id & _ & _ & _ & _ & _ & Hq & ->)]].
    + count_queries.
    + destruct (store_effects_silent _ Hs) as (_ & Q). count_queries.
    + count_queries.
  - intros agent wr Hget Hrun. unfold attempt. rewrite Hget, Hrun.
    split; [reflexivity |].
    exact (proj2 (run_agent_events _ _ _ _ _ _ _ Hrun)).
  - intros agent e wr Hget Hrun. unfold attempt. rewrite Hget, Hrun.
    split; [reflexivity |].
    exact (proj2 (run_agent_events _ _ _ _ _ _ _ Hrun)).
  - intros e Hget. unfold attempt. rewrite Hget. reflexivity.
  - intros Hget. unfold attempt. rewrite Hget. reflexivity.
Qed.

Lemma stream_of_a_run_witness :
  exists progress payload,
    events_of (snd (stream_agent_task Demo.env_two_calls 1 "hi" None []))
    = (progress ++ [("final", payload); ("done", "[DONE]")])%list
    /\ progress_events progress = true.
Proof.
  destruct (stream_of_a_run Demo.env_two_calls 1 "hi" None []) as (_ & Hok & _).
  destruct (Hok Demo.agent1
              (snd (run_agent Demo.env_two_calls Demo.agent1 "hi" None [SessionGet 1%Z])))
    as (Hrun & progress & payload & Hev & Hp);
    [reflexivity | vm_compute; reflexivity |].
  exists progress, payload. split; [| exact Hp].
  rewrite Hrun. unfold ended. cbn [io_raises Demo.env_two_calls Demo.env_of snd].
  change (SessionGet 1%Z :: ?x)%list with ([SessionGet 1%Z] ++ x)%list.
  rewrite !events_of_app, Hev. simpl. rewrite <- app_assoc. reflexivity.
Defined.

(** C1, as stated, fails: for an agent that does not exist the stream is an
    error event and two done events; it holds no final event. *)
Lemma stream_of_missing_agent :
  events_of (snd (stream_agent_task Demo.env0 2 "hi" None []))
  = [("error", "Agent #2 not found."); ("done", "[DONE]"); ("done", "[DONE]")]
  /\ ~ (exists before payload,
          events_of (snd (stream_agent_task Demo.env0 2 "hi" None []))
          = (before ++ [("final", payload); ("done", "[DONE]")])%list).
Proof.
  assert (Hev : events_of (snd (stream_agent_task Demo.env0 2 "hi" None []))
                = [("error", "Agent #2 not found."); ("done", "[DONE]");
                   ("done", "[DONE]")]) by reflexivity.
  split; [exact Hev |].
  intros (before & payload & H). rewrite Hev in H.
  change [("error", "Agent #2 not found."); ("done", "[DONE]"); ("done", "[DONE]")]
    with ([("error", "Agent #2 not found."); ("done", "[DONE]")]
          ++ [("done", "[DONE]")])%list in H.
  change (before ++ [("final", payload); ("done", "[DONE]")])%list
    with (before ++ [("final", payload)] ++ [("done", "[DONE]")])%list in H.
  rewrite app_assoc in H. apply app_inj_tail in H. destruct H as [H _].
  change [("error", "Agent #2 not found."); ("done", "[DONE]")]
    with ([("error", "Agent #2 not found.")] ++ [("done", "[DONE]")])%list in H.
  apply app_inj_tail in H. destruct H as [_ H]. discriminate H.
Qed.

(** A run with two tool calls in its first reply. *)
Example stream_two_calls :
  events_of (snd (stream_agent_task Demo.env_two_calls 1 "hi" None []))
  = [ ("thought", querying 0 "mistral:7b");
      ("action", "[ACTION] Executing tool: nope" ++ PyStr.nl ++ "Args: {}");
      ("observation", "[OBSERVATION] ERROR: unknown tool 'nope'.");
      ("action", "[ACTION] Executing tool: send_email" ++ PyStr.nl ++ "Args: {}");
      ("observation", "[OBSERVATION] ERROR: 'to' (recipient list) is required.");
      ("thought", querying 1 "mistral:7b");
      ("thought", "done");
      ("final",
        "{" ++ Demo.q "task_log_id" ++ ": 7, " ++ Demo.q "agent_id" ++ ": 1, "
        ++ Demo.q "final_output" ++ ": " ++ Demo.q "done" ++ ", "
        ++ Demo.q "artifact_path" ++ ": null}");
      ("done", "[DONE]") ]%string.
Proof. vm_compute. reflexivity. Qed.
(** ** The task record *)

Lemma store_log_raise env log h e ws :
  store_log env log h = (Raise e, ws) ->
  (io_raises env h (SessionAdd log) = Some e /\ ws = [SessionAdd log])
  \/ (io_raises env (h ++ [SessionAdd log])%list (SessionCommit log) = Some e
      /\ ws = [SessionAdd log; SessionCommit log])
  \/ (session_refresh env (h ++ [SessionAdd log; SessionCommit log])%list log = Raise e
      /\ ws = storing log).
Proof.
  rewrite store_log_eq.
  destruct (io_raises env h (SessionAdd log)) as [x |].
  { intros H. inversion H; subst. left. auto. }
  destruct (io_raises env (h ++ [SessionAdd log])%list (SessionCommit log)) as [x |].
  { intros H. inversion H; subst. right. left. auto. }
  intros H. inversion H; subst. right. right. auto.
Qed.










(** ** The synchronous wrapper *)

(** C9.  When the final answer has two lines, the final event carries the
    payload with the record id 7 and the answer, and that payload decodes;
    yet [run_agent_task] returns the initial id -1 and, as its final
    output, the text of the payload with a raw line break in it. *)
Theorem run_agent_task_two_lines :
  events_of (snd (stream_agent_task Demo.env_two_lines 1 "hi" None []))
  = [("thought", querying 0 "mistral:7b"); ("thought", Demo.two_lines);
     ("final", Demo.payload_two_lines "\n"); ("done", "[DONE]")]
  /\ json_loads Demo.env_two_lines (Demo.payload_two_lines "\n")
     = Some (VDict [("task_log_id", VInt 7); ("agent_id", VInt 1);
                    ("final_output", VStr Demo.two_lines);
                    ("artifact_path", VNone)])
  /\ fst (run_agent_task Demo.env_two_lines 1 "hi" None [])
     = Ok [("task_log_id", VInt (-1)); ("agent_id", VInt 1);
           ("final_output", VStr (Demo.payload_two_lines PyStr.nl));
           ("artifact_path", VNone);
           ("thought_process",
             VStr (querying 0 "mistral:7b" ++ PyStr.nl ++ Demo.two_lines))].
Proof. repeat split; vm_compute; reflexivity. Qed.
(** ** Tool calls of one reply *)

Lemma call_messages_length tcs : forall observations,
  List.length observations = List.length tcs ->
  List.length (flat_map call_messages (combine tcs observations))
  = 2 * List.length tcs.
Proof.
  induction tcs as [| tc tcs IH]; intros [| o os] H; simpl in *; try lia.
  rewrite IH by lia. lia.
Qed.

(** A reply with tool calls: the thought, if any, then the calls drained. *)
Lemma handle_reply_tool_calls env model_name step st msg others h :
  1 <= List.length (tool_calls msg) ->
  (forall tc, In tc (tool_calls msg) -> decodes env (call_arguments tc) = true) ->
  exists st' observations w,
    handle_reply env model_name step st (msg :: others) h = (Ok (Continue, st'), w)
    /\ List.length observations = List.length (tool_calls msg)
    /\ forallb reply_effect w = true
    /\ events_of w
       = (thought_events msg
          ++ flat_map call_events (combine (tool_calls msg) observations))%list
    /\ messages st'
       = (messages st
          ++ flat_map call_messages (combine (tool_calls msg) observations))%list.
Proof.
  intros Hn Hd. unfold handle_reply, thought_events.
  unfold bind, ret, yield_, emit. cbv beta iota zeta.
  destruct (tool_calls msg) as [| tc tcs] eqn:Htcs; [simpl in Hn; lia |].
  destruct (content msg) as [text |];
    [destruct (PyStr.nonempty text) eqn:Hne |];
    cbn [PyStr.nonempty]; cbv beta iota;
    lazymatch goal with
    | |- context [drain_tool_calls env step model_name ?s ?t ?hh] =>
        destruct (drain_tool_calls_shape env step model_name t Hd s hh)
          as (st' & observations & w & Hrun & Hlen & Hev & Hre & Hmsg)
    end.
  - exists st', observations, (Yield "thought" text :: w).
    split; [rewrite Hrun; simpl; rewrite ?app_nil_r; reflexivity |].
    split; [exact Hlen |]. split; [simpl; exact Hre |].
    split; [| exact Hmsg].
    change (events_of (Yield "thought" text :: w))
      with (("thought", text) :: events_of w).
    rewrite Hev. reflexivity.
  - exists st', observations, w.
    split; [rewrite Hrun; simpl; rewrite ?app_nil_r; reflexivity |].
    split; [exact Hlen |]. split; [exact Hre |]. split; [exact Hev | exact Hmsg].
  - exists st', observations, w.
    split; [rewrite Hrun; simpl; rewrite ?app_nil_r; reflexivity |].
    split; [exact Hlen |]. split; [exact Hre |]. split; [exact Hev | exact Hmsg].
Qed.

(** C7 (amended).  In a step whose reply carries N tool calls, N at least
    1, with argument texts that the decoder decodes or refuses, the effects
    after the query hold no further query; their events are the thought of
    the reply, if it has text, then for each call in order its action event
    and its observation event; the next state has the two messages of each
    call appended, 2N in all, and the step continues the loop.  Over a whole
    loop the conversation is only ever extended. *)
Theorem tool_calls_drained_in_step :
  (forall env model_name schemas step st h msg others,
      chat_create env (h ++ [Yield "thought" (querying step model_name)])%list
        model_name (messages st) schemas = Ok (msg :: others) ->
      1 <= List.length (tool_calls msg) ->
      (forall tc, In tc (tool_calls msg) -> decodes env (call_arguments tc) = true) ->
      exists st' observations w,
        react_step env model_name schemas step st h
        = (Ok (Continue, st'),
           Yield "thought" (querying step model_name)
           :: ChatCompletion model_name (messages st) schemas :: w)
        /\ List.length observations = List.length (tool_calls msg)
        /\ queries w = 0
        /\ events_of w
           = (thought_events msg
              ++ flat_map call_events (combine (tool_calls msg) observations))%list
        /\ messages st'
           = (messages st
              ++ flat_map call_messages (combine (tool_calls msg) observations))%list
        /\ List.length (messages st')
           = List.length (messages st) + 2 * List.length (tool_calls msg))
  /\ (forall env model_name schemas steps st h st' w,
        react_loop env model_name schemas steps st h = (Ok st', w) ->
        exists more, messages st' = (messages st ++ more)%list).
Proof.
  split.
  - intros env model_name schemas step st h msg others Hchat Hn Hd.
    set (y := Yield "thought" (querying step model_name)).
    set (c := ChatCompletion model_name (messages st) schemas).
    destruct (handle_reply_tool_calls env model_name step st msg others
                ((h ++ [y]) ++ [c])%list Hn Hd)
      as (st' & observations & w & Hrun & Hlen & Hre & Hev & Hmsg).
    exists st', observations, w.
    split; [| split; [exact Hlen | split; [| split; [exact Hev | split; [exact Hmsg |]]]]].
    + unfold react_step. fold (querying step model_name).
      unfold bind at 1. unfold yield_, emit. cbv beta iota. fold y.
      rewrite bind_ask. fold c. fold y in Hchat. rewrite Hchat, Hrun. reflexivity.
    + apply (reply_effects_quiet _ Hre).
    + rewrite Hmsg, length_app, call_messages_length by exact Hlen. reflexivity.
  - intros env model_name schemas steps st h st' w Hrun.
    destruct (react_loop_shape env model_name schemas steps st h)
      as (r & w' & Hrun' & _ & _ & Hext).
    rewrite Hrun in Hrun'. inversion Hrun'; subst. apply Hext. reflexivity.
Qed.

Lemma tool_calls_drained_in_step_witness :
  exists st' observations w,
    react_step Demo.env_two_calls "m" [] 0
      {| messages := [UserMsg "hi"]; thought_log := [];
         final_answer := None; last_artifact_path := None |} []
    = (Ok (Continue, st'),
       Yield "thought" (querying 0 "m") :: ChatCompletion "m" [UserMsg "hi"] [] :: w)
    /\ List.length observations = 2
    /\ queries w = 0
    /\ events_of w
       = flat_map call_events (combine Demo.two_calls observations)
    /\ messages st'
       = ([UserMsg "hi"]
          ++ flat_map call_messages (combine Demo.two_calls observations))%list
    /\ List.length (messages st') = 5.
Proof.
  destruct tool_calls_drained_in_step as [Hstep _].
  apply (Hstep Demo.env_two_calls "m" [] 0
           {| messages := [UserMsg "hi"]; thought_log := [];
              final_answer := None; last_artifact_path := None |} []
           (Demo.calls Demo.two_calls) []).
  - reflexivity.
  - simpl. lia.
  - intros tc [<- | [<- | []]]; reflexivity.
Defined.

(** C7, as stated, fails where N is 0: a reply without tool calls whose
    text holds an inline call sends one action and one observation event
    before the next query, and one message is appended. *)
Lemma inline_call_without_tool_calls :
  tool_calls (Demo.says Demo.inline_email) = []
  /\ react_step Demo.env_inline "m" [] 0
       {| messages := [UserMsg "hi"]; thought_log := [];
          final_answer := None; last_artifact_path := None |} []
     = (Ok (Continue,
            {| messages :=
                 [UserMsg "hi";
                  AssistantMsg ("[Tool 'send_email' executed.]" ++ PyStr.nl
                                ++ "ERROR: 'to' (recipient list) is required.")];
               thought_log :=
                 [("THOUGHT (step 0): " ++ Demo.inline_email)%string;
                  "ACTION (step 0): send_email | {}";
                  "OBSERVATION (step 0): ERROR: 'to' (recipient list) is required."];
               final_answer := None;
               last_artifact_path := None |}),
        [Yield "thought" (querying 0 "m");
         ChatCompletion "m" [UserMsg "hi"] [];
         Yield "thought" Demo.inline_email;
         Yield "action"
           ("[ACTION] Intercepted inline tool call: send_email" ++ PyStr.nl
            ++ "Args: {}");
         Yield "observation"
           "[OBSERVATION] ERROR: 'to' (recipient list) is required."]).
Proof. split; vm_compute; reflexivity. Qed.
(* ================================================================== *)
(** ** The scheduling loop *)

(** *** Dictionaries *)

Lemma mem_In x l : mem x l = true <-> In x l.
Proof.
  unfold mem. rewrite existsb_exists. split.
  - intros (y & Hy & E). apply String.eqb_eq in E. subst. exact Hy.
  - intros H. exists x. split; [exact H | apply String.eqb_refl].
Qed.

Lemma lookup_update {A} k (v : A) d x :
  lookup x (update k v d) = if String.eqb x k then Some v else lookup x d.
Proof.
  induction d as [| [k' v'] d IH]; simpl.
  - reflexivity.
  - destruct (String.eqb k k') eqn:Ek; simpl.
    + apply String.eqb_eq in Ek. subst k'.
      destruct (String.eqb x k); reflexivity.
    + destruct (String.eqb x k') eqn:Ex.
      * apply String.eqb_eq in Ex. subst k'.
        rewrite String.eqb_sym, Ek. reflexivity.
      * exact IH.
Qed.

Lemma keys_update {A} k (v : A) d :
  incl (keys (update k v d)) (k :: keys d).
Proof.
  induction d as [| [k' v'] d IH]; simpl.
  - apply incl_refl.
  - destruct (String.eqb k k') eqn:Ek; simpl.
    + apply String.eqb_eq in Ek. subst k'. intros x Hx. right. exact Hx.
    + intros x [Hx | Hx]; [right; left; exact Hx |].
      destruct (IH x Hx) as [E | Hin]; [left; exact E | right; right; exact Hin].
Qed.

Lemma lookup_in_keys {A} k (d : list (string * A)) v :
  lookup k d = Some v -> In k (keys d).
Proof.
  induction d as [| [k' v'] d IH]; simpl; [discriminate |].
  destruct (String.eqb k k') eqn:Ek.
  - apply String.eqb_eq in Ek. auto.
  - auto.
Qed.

Lemma lookup_none_not_in {A} k (d : list (string * A)) v :
  lookup k d = None -> ~ In (k, v) d.
Proof.
  induction d as [| [k' v'] d IH]; simpl; [tauto |].
  destruct (String.eqb k k') eqn:Ek; [discriminate |].
  intros H [E | Hin]; [| exact (IH H Hin)].
  inversion E; subst. rewrite String.eqb_refl in Ek. discriminate.
Qed.

(** The entry of [x] after the edges have been added: what it was, then
    the other ends of the edges at [x], in order. *)
Lemma get_after_edges (key val : string * string -> string) edges :
  forall d x,
    get_or x [] (fold_left (fun d e => setdefault_append (key e) (val e) d) edges d)
    = (get_or x [] d
       ++ map val (filter (fun e => String.eqb (key e) x) edges))%list.
Proof.
  induction edges as [| e edges IH]; intros d x; simpl.
  - rewrite app_nil_r. reflexivity.
  - rewrite IH. unfold setdefault_append, get_or at 1. rewrite lookup_update.
    rewrite (String.eqb_sym (key e) x).
    destruct (String.eqb x (key e)) eqn:E; simpl.
    + apply String.eqb_eq in E. subst x. unfold get_or.
      rewrite <- app_assoc. reflexivity.
    + reflexivity.
Qed.

Lemma get_empty_lists nodes x : get_or x [] (empty_lists nodes) = [].
Proof.
  unfold get_or, empty_lists.
  induction nodes as [| [k n] nodes IH]; simpl; [reflexivity |].
  destruct (String.eqb x k); [reflexivity | exact IH].
Qed.

(** The parents and the children of a node, from the edges. *)
Lemma parents_of_edges g x :
  get_or x [] (incoming_of g)
  = map fst (filter (fun e => String.eqb (snd e) x) (graph_edges g)).
Proof.
  unfold incoming_of. rewrite (get_after_edges snd fst), get_empty_lists.
  reflexivity.
Qed.

Lemma children_of_edges g x :
  get_or x [] (outgoing_of g)
  = map snd (filter (fun e => String.eqb (fst e) x) (graph_edges g)).
Proof.
  unfold outgoing_of. rewrite (get_after_edges fst snd), get_empty_lists.
  reflexivity.
Qed.

Lemma child_has_parent g x c :
  In c (get_or x [] (outgoing_of g)) -> In x (get_or c [] (incoming_of g)).
Proof.
  rewrite children_of_edges, parents_of_edges, !in_map_iff.
  intros ([s t] & E & Hin). apply filter_In in Hin. destruct Hin as [Hin Hs].
  simpl in *. apply String.eqb_eq in Hs. subst.
  exists (x, c). split; [reflexivity |].
  apply filter_In. split; [exact Hin | apply String.eqb_refl].
Qed.

Lemma children_bounded g x :
  List.length (get_or x [] (outgoing_of g)) <= List.length (graph_edges g).
Proof.
  rewrite children_of_edges, length_map. apply filter_length_le.
Qed.

Lemma parent_of_edge g s t :
  In (s, t) (graph_edges g) -> In s (get_or t [] (incoming_of g)).
Proof.
  intros Hin. rewrite parents_of_edges, in_map_iff.
  exists (s, t). split; [reflexivity |].
  apply filter_In. split; [exact Hin | apply String.eqb_refl].
Qed.

(** *** Ranks *)

Lemma rank_le_length x l : rank x l <= List.length l.
Proof.
  induction l as [| y l IH]; simpl; [lia |].
  destruct (String.eqb x y); lia.
Qed.

Lemma rank_in x l : In x l <-> rank x l < List.length l.
Proof.
  induction l as [| y l IH]; simpl.
  - split; [tauto | lia].
  - destruct (String.eqb x y) eqn:E.
    + apply String.eqb_eq in E. subst. split; [lia | auto].
    + apply String.eqb_neq in E. rewrite IH. split.
      * intros [H | H]; [congruence | lia].
      * intros H. right. lia.
Qed.

Lemma rank_not_in x l : ~ In x l -> rank x l = List.length l.
Proof.
  intros H. pose proof (rank_le_length x l). rewrite rank_in in H. lia.
Qed.

Lemma rank_app_in x l l' : In x l -> rank x (l ++ l') = rank x l.
Proof.
  induction l as [| y l IH]; simpl; [tauto |].
  destruct (String.eqb x y) eqn:E; [reflexivity |].
  apply String.eqb_neq in E.
  intros [H | H]; [congruence | rewrite IH by exact H; reflexivity].
Qed.

Lemma rank_app_not_in x l l' :
  ~ In x l -> rank x (l ++ l') = List.length l + rank x l'.
Proof.
  induction l as [| y l IH]; simpl; [reflexivity |].
  intros H. destruct (String.eqb x y) eqn:E.
  - apply String.eqb_eq in E. subst. tauto.
  - rewrite IH by tauto. reflexivity.
Qed.

Lemma set_add_in x y s : In y (set_add x s) <-> y = x \/ In y s.
Proof.
  unfold set_add. destruct (mem x s) eqn:E.
  - apply mem_In in E. split; [auto | intros [-> | H]; auto].
  - rewrite in_app_iff. simpl. split; [intros [H | [H | []]]; auto | intros [H | H]; auto].
Qed.

Lemma rank_set_add_le x y s : rank y s <= rank y (set_add x s).
Proof.
  unfold set_add. destruct (mem x s); [lia |].
  destruct (in_dec string_dec y s) as [H | H].
  - rewrite rank_app_in by exact H. lia.
  - rewrite rank_app_not_in by exact H. rewrite (rank_not_in _ _ H). lia.
Qed.

Lemma set_add_NoDup x s : NoDup s -> NoDup (set_add x s).
Proof.
  intros H. unfold set_add. destruct (mem x s) eqn:E; [exact H |].
  assert (Hn : ~ In x s) by (rewrite <- mem_In, E; discriminate).
  apply NoDup_app; [exact H | repeat constructor; simpl; tauto |].
  intros a Ha [Hx | []]. subst. tauto.
Qed.

(** *** The measure decreases *)

Section Schedule.
Variables (keys_ : list string) (pa ch : string -> list string) (E : nat).
Hypothesis child_parent : forall x c, In c (ch x) -> In x (pa c).
Hypothesis few_children : forall x, List.length (ch x) <= E.

Let B := S E.
Let N := List.length keys_.

Lemma joining_parents nid done c p :
  In c (joining pa ch nid done) -> In p (pa c) -> In p (set_add nid done).
Proof.
  unfold joining. rewrite filter_In, forallb_forall.
  intros [_ H] Hp. apply mem_In. auto.
Qed.

Lemma scheduled_step nid rest done :
  scheduled keys_ pa (nid :: rest) done -> In nid keys_ ->
  scheduled keys_ pa (rest ++ joining pa ch nid done) (set_add nid done).
Proof.
  intros (Hnd & Hincl & Hord & Hq) Hk.
  split; [apply set_add_NoDup; exact Hnd | split; [| split]].
  - intros y Hy. apply set_add_in in Hy. destruct Hy as [-> | Hy]; auto.
  - intros x p Hx Hp. unfold set_add in *.
    destruct (mem nid done) eqn:Em; [auto |].
    assert (Hn : ~ In nid done) by (rewrite <- mem_In, Em; discriminate).
    apply in_app_iff in Hx. destruct Hx as [Hx | [<- | []]].
    + pose proof (Hord x p Hx Hp) as Hlt.
      assert (Hpin : In p done).
      { apply rank_in. pose proof (rank_le_length x done). lia. }
      rewrite !rank_app_in by assumption. exact Hlt.
    + assert (Hpin : In p done) by (apply (Hq nid p); simpl; auto).
      rewrite rank_app_in by exact Hpin.
      rewrite rank_app_not_in by exact Hn.
      apply rank_in in Hpin. lia.
  - intros x p Hx Hp. apply in_app_iff in Hx. destruct Hx as [Hx | Hx].
    + apply set_add_in. right. apply (Hq x p); simpl; auto.
    + eapply joining_parents; eauto.
Qed.

Lemma rank_of_head_bounded nid rest done :
  scheduled keys_ pa (nid :: rest) done -> In nid keys_ -> rank nid done < N.
Proof.
  intros (Hnd & Hincl & _ & _) Hk. unfold N.
  destruct (in_dec string_dec nid done) as [H | H].
  - apply rank_in in H. pose proof (NoDup_incl_length Hnd Hincl). lia.
  - rewrite (rank_not_in _ _ H).
    assert (Hnd' : NoDup (nid :: done)) by (constructor; assumption).
    assert (Hincl' : incl (nid :: done) keys_).
    { intros y [<- | Hy]; auto. }
    pose proof (NoDup_incl_length Hnd' Hincl'). simpl in *. lia.
Qed.

Lemma joining_rank nid rest done c :
  scheduled keys_ pa (nid :: rest) done ->
  In c (joining pa ch nid done) ->
  rank nid done < rank c (set_add nid done).
Proof.
  intros (Hnd & Hincl & Hord & Hq) Hc.
  assert (Hch : In c (ch nid)) by (unfold joining in Hc; apply filter_In in Hc; tauto).
  pose proof (child_parent _ _ Hch) as Hpar.
  unfold set_add. destruct (mem nid done) eqn:Em.
  - apply mem_In in Em.
    destruct (in_dec string_dec c done) as [H | H].
    + apply Hord; assumption.
    + rewrite (rank_not_in _ _ H). apply rank_in. exact Em.
  - assert (Hn : ~ In nid done) by (rewrite <- mem_In, Em; discriminate).
    assert (Hcn : ~ In c done).
    { intros H. pose proof (Hord c nid H Hpar) as Hlt.
      apply rank_in in H. rewrite (rank_not_in _ _ Hn) in Hlt. lia. }
    assert (Hne : c <> nid).
    { intros ->. apply Hn. apply (Hq nid nid); simpl; auto. }
    rewrite (rank_not_in _ _ Hn), rank_app_not_in by exact Hcn.
    simpl. apply String.eqb_neq in Hne. rewrite Hne. lia.
Qed.

Lemma potential_app done q1 q2 :
  potential B N done (q1 ++ q2) = potential B N done q1 + potential B N done q2.
Proof. unfold potential. rewrite map_app, list_sum_app. reflexivity. Qed.

Lemma potential_set_add nid done queue :
  potential B N (set_add nid done) queue <= potential B N done queue.
Proof.
  unfold potential. induction queue as [| x queue IH]; simpl; [lia |].
  assert (weight B N (set_add nid done) x <= weight B N done x).
  { unfold weight. apply Nat.pow_le_mono_r; [unfold B; lia |].
    pose proof (rank_set_add_le nid x done). lia. }
  lia.
Qed.

Lemma potential_bounded done queue r :
  (forall x, In x queue -> r <= rank x done) ->
  potential B N done queue <= List.length queue * B ^ (N - r).
Proof.
  unfold potential. induction queue as [| x queue IH]; intros H; simpl; [lia |].
  assert (weight B N done x <= B ^ (N - r)).
  { unfold weight. apply Nat.pow_le_mono_r; [unfold B; lia |].
    pose proof (H x (or_introl eq_refl)). lia. }
  assert (list_sum (map (weight B N done) queue)
          <= List.length queue * B ^ (N - r)).
  { apply IH. intros y Hy. apply H. right. exact Hy. }
  lia.
Qed.

Lemma potential_step nid rest done :
  scheduled keys_ pa (nid :: rest) done -> In nid keys_ ->
  potential B N (set_add nid done) (rest ++ joining pa ch nid done)
  < potential B N done (nid :: rest).
Proof.
  intros Hs Hk.
  pose proof (rank_of_head_bounded _ _ _ Hs Hk) as Hr.
  rewrite potential_app.
  pose proof (potential_set_add nid done rest) as Hrest.
  assert (Hjoin : potential B N (set_add nid done) (joining pa ch nid done)
                  <= List.length (joining pa ch nid done) * B ^ (N - S (rank nid done))).
  { apply potential_bounded. intros c Hc.
    pose proof (joining_rank _ _ _ _ Hs Hc). lia. }
  assert (Hlen : List.length (joining pa ch nid done) <= E).
  { unfold joining. etransitivity; [apply filter_length_le | apply few_children]. }
  change (potential B N done (nid :: rest))
    with (weight B N done nid + potential B N done rest).
  unfold weight.
  replace (N - rank nid done) with (S (N - S (rank nid done))) by lia.
  rewrite Nat.pow_succ_r'.
  assert (Hpos : 1 <= B ^ (N - S (rank nid done))).
  { apply Nat.neq_0_lt_0. apply Nat.pow_nonzero. unfold B. lia. }
  unfold B in *. nia.
Qed.

End Schedule.

(** *** The loop *)

Lemma update_keys_NoDup {A} k (v : A) d :
  NoDup (keys d) -> NoDup (keys (update k v d)).
Proof.
  induction d as [| [k' v'] d IH]; simpl; intros H.
  - repeat constructor. simpl. tauto.
  - inversion H as [| ? ? Hnin Hnd]; subst.
    destruct (String.eqb k k') eqn:Ek; simpl.
    + apply String.eqb_eq in Ek. subst. constructor; assumption.
    + apply String.eqb_neq in Ek. constructor; [| apply IH; exact Hnd].
      intros Hin. apply keys_update in Hin. destruct Hin as [Heq | Hin]; auto.
Qed.

Lemma incoming_keys_NoDup g : NoDup (keys (incoming_of g)).
Proof.
  unfold incoming_of.
  assert (H0 : NoDup (keys (empty_lists (nodes_of g)))).
  { unfold empty_lists, keys. rewrite map_map. simpl.
    unfold nodes_of.
    assert (G : forall ns (d : list (string * node)),
               NoDup (keys d) ->
               NoDup (map fst (fold_left (fun d n => update (node_id n) n d) ns d))).
    { induction ns as [| n ns IH]; intros d Hd; simpl; [exact Hd |].
      apply IH. apply update_keys_NoDup. exact Hd. }
    apply G. constructor. }
  revert H0. generalize (empty_lists (nodes_of g)).
  induction (graph_edges g) as [| e es IH]; intros d Hd; simpl; [exact Hd |].
  apply IH. unfold setdefault_append. apply update_keys_NoDup. exact Hd.
Qed.

Lemma lookup_of_entry {A} k (v : A) d :
  NoDup (keys d) -> In (k, v) d -> lookup k d = Some v.
Proof.
  induction d as [| [k' v'] d IH]; simpl; [tauto |].
  intros Hnd [E | Hin].
  - inversion E; subst. rewrite String.eqb_refl. reflexivity.
  - inversion Hnd as [| ? ? Hnin Hnd']; subst.
    destruct (String.eqb k k') eqn:Ek.
    + apply String.eqb_eq in Ek. subst. exfalso. apply Hnin.
      apply in_map_iff. exists (k', v). auto.
    + apply IH; assumption.
Qed.

(** A node of the first queue has no parent. *)
Lemma initial_ready_no_parent g x :
  In x (ready (initial_state (incoming_of g))) ->
  get_or x [] (incoming_of g) = [].
Proof.
  unfold initial_state. simpl. rewrite in_map_iff.
  intros ([k v] & E & Hin). simpl in E. subst k.
  apply filter_In in Hin. destruct Hin as [Hin Hv]. simpl in Hv.
  destruct v; [| discriminate].
  unfold get_or. rewrite (lookup_of_entry _ _ _ (incoming_keys_NoDup g) Hin).
  reflexivity.
Qed.

(** What an iteration that does not raise does to the state. *)
Lemma run_node_ok env nodes incoming outgoing st nid h st' w :
  run_node env nodes incoming outgoing st nid h = (Ok st', w) ->
  In nid (keys nodes)
  /\ ready st'
     = (ready st
        ++ joining (fun x => get_or x [] incoming) (fun x => get_or x [] outgoing)
             nid (completed st))%list
  /\ completed st' = set_add nid (completed st)
  /\ exists v, results st' = update nid v (results st).
Proof.
  unfold run_node. intros H.
  apply bind_inv in H.
  destruct H as [(nd & w1 & w2 & Hnd & H & _) | (e & _ & He)]; [| discriminate].
  assert (Hk : In nid (keys nodes)).
  { destruct (lookup nid nodes) eqn:El; [| discriminate].
    eapply lookup_in_keys; eauto. }
  cbv zeta in H. apply bind_inv in H.
  destruct H as [(config & w3 & w4 & _ & H & _) | (e & _ & He)]; [| discriminate].
  apply bind_inv in H.
  destruct H as [(v & w5 & w6 & _ & H & _) | (e & _ & He)]; [| discriminate].
  inversion H; subst. simpl. repeat split; auto. exists v. reflexivity.
Qed.

Section Termination.
Variables (env : Env) (g : graph).

Let pa := fun x => get_or x [] (incoming_of g).
Let ch := fun x => get_or x [] (outgoing_of g).
Let E := List.length (graph_edges g).
Let K := keys (nodes_of g).

Lemma while_ready_terminates :
  forall fuel st h,
    scheduled K pa (ready st) (completed st) ->
    potential (S E) (List.length K) (completed st) (ready st) < fuel ->
    run_outcome (while_ready env fuel (nodes_of g) (incoming_of g) (outgoing_of g) st h)
    <> OutOfFuel.
Proof.
  induction fuel as [| fuel IH]; intros st h Hs Hp; [lia |].
  simpl. destruct (ready st) as [| nid rest] eqn:Hready; [discriminate |].
  destruct (run_node env (nodes_of g) (incoming_of g) (outgoing_of g) _ nid h)
    as [[st' | e] w] eqn:Hnode; [| discriminate].
  simpl. apply run_node_ok in Hnode. simpl in Hnode.
  destruct Hnode as (Hk & Hr & Hc & _).
  apply IH.
  - rewrite Hr, Hc. apply (scheduled_step K pa ch E); [exact Hs | exact Hk].
  - rewrite Hr, Hc.
    pose proof (potential_step K pa ch E
                  (fun x c => child_has_parent g x c)
                  (children_bounded g) nid rest (completed st) Hs Hk) as Hlt.
    unfold pa, ch in *. lia.
Qed.

Lemma initial_scheduled :
  scheduled K pa (ready (initial_state (incoming_of g))) [].
Proof.
  split; [constructor | split; [intros x [] | split]].
  - intros x p [].
  - intros x p Hx Hp. apply initial_ready_no_parent in Hx.
    unfold pa in Hp. rewrite Hx in Hp. destruct Hp.
Qed.

Lemma initial_potential :
  potential (S E) (List.length K) [] (ready (initial_state (incoming_of g)))
  < enough_fuel g.
Proof.
  unfold enough_fuel.
  pose proof (potential_bounded K E [] (ready (initial_state (incoming_of g))) 0
                (fun x _ => Nat.le_0_l _)) as Hb.
  rewrite Nat.sub_0_r in Hb.
  assert (Hlen : List.length (ready (initial_state (incoming_of g)))
                 <= List.length (incoming_of g)).
  { unfold initial_state. simpl. rewrite length_map. apply filter_length_le. }
  unfold K, keys in *. rewrite length_map in *. fold E. nia.
Qed.

End Termination.

(** *** Nodes that wait for each other *)

Section Blocked.
Variables (env : Env) (g : graph) (blocked : string -> Prop).

(** Every blocked node has a blocked parent. *)
Hypothesis blocked_parent :
  forall x, blocked x ->
            exists p, In p (get_or x [] (incoming_of g)) /\ blocked p.

Lemma while_ready_blocked :
  forall fuel st h,
    untouched blocked st ->
    let r := while_ready env fuel (nodes_of g) (incoming_of g) (outgoing_of g) st h in
    forall x, blocked x ->
              ~ In x (run_order r)
              /\ forall res, run_outcome r = Finished res -> ~ In x (keys res).
Proof.
  induction fuel as [| fuel IH]; intros st h Hu r x Hx; subst r.
  - simpl. split; [tauto | discriminate].
  - simpl. destruct (ready st) as [| nid rest] eqn:Hready.
    + simpl. split; [tauto |]. intros res H. inversion H; subst.
      apply (Hu x Hx).
    + assert (Hnid : ~ blocked nid).
      { intros Hb. destruct (Hu nid Hb) as (H & _). apply H.
        rewrite Hready. left. reflexivity. }
      destruct (run_node env (nodes_of g) (incoming_of g) (outgoing_of g) _ nid h)
        as [[st' | e] w] eqn:Hnode.
      * apply run_node_ok in Hnode. simpl in Hnode.
        destruct Hnode as (_ & Hr & Hc & (v & Hres)).
        assert (Hu' : untouched blocked st').
        { intros y Hy. destruct (Hu y Hy) as (U1 & U2 & U3).
          rewrite Hr, Hc, Hres. split; [| split].
          - rewrite in_app_iff. intros [Hin | Hin].
            + apply U1. rewrite Hready. right. exact Hin.
            + destruct (blocked_parent y Hy) as (p & Hp & Hbp).
              pose proof (joining_parents _ _ _ _ _ _ Hin Hp) as Hpd.
              apply set_add_in in Hpd. destruct Hpd as [-> | Hpd]; [tauto |].
              destruct (Hu p Hbp) as (_ & U2' & _). tauto.
          - rewrite set_add_in. intros [-> | Hin]; tauto.
          - intros Hin. apply keys_update in Hin.
            destruct Hin as [<- | Hin]; tauto. }
        destruct (IH st' (h ++ w)%list Hu' x Hx) as (I1 & I2).
        simpl. split; [| exact I2].
        intros [<- | Hin]; tauto.
      * simpl. split; [| discriminate].
        intros [<- | []]. tauto.
Qed.

Lemma initial_untouched : untouched blocked (initial_state (incoming_of g)).
Proof.
  intros x Hx. split; [| split; simpl; tauto].
  intros Hin. apply initial_ready_no_parent in Hin.
  destruct (blocked_parent x Hx) as (p & Hp & _).
  rewrite Hin in Hp. destruct Hp.
Qed.

End Blocked.

(** C6.  [execute_graph] ends on every graph: with [enough_fuel g]
    iterations or more the loop never runs out of them, so the run finishes
    or raises.  And when two nodes are each the only parent of the other,
    neither is ever taken from the ready queue, and neither is a key of the
    results returned. *)
Theorem execute_graph_terminates :
  (forall env g h fuel,
      enough_fuel g <= fuel ->
      run_outcome (execute_graph env fuel g h) <> OutOfFuel)
  /\ (forall env g h fuel a b,
        only_parent g a b -> only_parent g b a ->
        let r := execute_graph env fuel g h in
        ~ In a (run_order r) /\ ~ In b (run_order r)
        /\ forall res, run_outcome r = Finished res ->
                       ~ In a (keys res) /\ ~ In b (keys res)).
Proof.
  split.
  - intros env g h fuel Hfuel.
    assert (Hloop : run_outcome
                      (while_ready env fuel (nodes_of g) (incoming_of g)
                         (outgoing_of g) (initial_state (incoming_of g)) h)
                    <> OutOfFuel).
    { apply while_ready_terminates.
      - apply initial_scheduled.
      - pose proof (initial_potential g) as Hp.
        change (completed (initial_state (incoming_of g))) with (@nil string).
        lia. }
    unfold execute_graph. cbv zeta.
    destruct (run_outcome (while_ready env fuel _ _ _ _ h)) eqn:Ho;
      simpl; try destruct (io_raises env _ SessionClose); congruence.
  - intros env g h fuel a b [Hba _] [Hab _] r.
    set (blocked := fun x => x = a \/ x = b).
    assert (Hbp : forall x, blocked x ->
                            exists p, In p (get_or x [] (incoming_of g)) /\ blocked p).
    { intros x [-> | ->].
      - exists b. split; [apply parent_of_edge; exact Hba | right; reflexivity].
      - exists a. split; [apply parent_of_edge; exact Hab | left; reflexivity]. }
    pose proof (while_ready_blocked env g blocked Hbp fuel
                  (initial_state (incoming_of g)) h
                  (initial_untouched g blocked Hbp)) as Hrun.
    cbv zeta in Hrun.
    assert (Hsame : forall x, blocked x ->
                      ~ In x (run_order r)
                      /\ forall res, run_outcome r = Finished res -> ~ In x (keys res)).
    { intros x Hx. destruct (Hrun x Hx) as (H1 & H2).
      subst r. unfold execute_graph. cbv zeta.
      destruct (run_outcome (while_ready env fuel _ _ _ _ h)) eqn:Ho; simpl;
        (split; [exact H1 |]); intros res Heq; apply H2;
        try (destruct (io_raises env _ SessionClose); [discriminate |]);
        first [exact Heq | rewrite Ho in Heq; exact Heq]. }
    destruct (Hsame a (or_introl eq_refl)) as (A1 & A2).
    destruct (Hsame b (or_intror eq_refl)) as (B1 & B2).
    split; [exact A1 | split; [exact B1 |]].
    intros res Hres. split; [apply A2 | apply B2]; exact Hres.
Qed.

Lemma execute_graph_terminates_witness :
  run_outcome (execute_graph Demo.env0 (enough_fuel Demo.cyclic_graph)
                 Demo.cyclic_graph [])
  <> OutOfFuel
  /\ ~ In "a" (run_order (execute_graph Demo.env0 5 Demo.cyclic_graph []))
  /\ ~ In "b" (run_order (execute_graph Demo.env0 5 Demo.cyclic_graph []))
  /\ forall res,
       run_outcome (execute_graph Demo.env0 5 Demo.cyclic_graph []) = Finished res ->
       ~ In "a" (keys res) /\ ~ In "b" (keys res).
Proof.
  destruct execute_graph_terminates as [Hterm Hcycle]. split.
  - apply Hterm. lia.
  - apply (Hcycle Demo.env0 Demo.cyclic_graph [] 5 "a" "b").
    + split; [simpl; auto |].
      intros s Hin. simpl in Hin.
      destruct Hin as [Hin | [Hin | []]]; inversion Hin; reflexivity.
    + split; [simpl; auto |].
      intros s Hin. simpl in Hin.
      destruct Hin as [Hin | [Hin | []]]; inversion Hin; reflexivity.
Defined.

(** The chain A, B, C runs in that order, each node on the output of the
    one before. *)
Example chain_graph_run :
  execute_graph Demo.env0 (enough_fuel Demo.chain_graph) Demo.chain_graph []
  = {| run_outcome :=
         Finished [("A", VStr "https://example.org"); ("B", VStr "page text");
                   ("C", VStr "page text")];
       run_order := ["A"; "B"; "C"];
       run_effects := [HttpGet (VStr "https://example.org"); SessionClose] |}.
Proof. vm_compute. reflexivity. Qed.

(** The run on the cyclic graph: only the source is executed. *)
Example cyclic_graph_run :
  execute_graph Demo.env0 5 Demo.cyclic_graph []
  = {| run_outcome := Finished [("s", VNone)];
       run_order := ["s"];
       run_effects := [SessionClose] |}.
Proof. reflexivity. Qed.

(* ================================================================== *)
(** * Further properties of the code *)

Import Notions.

(** ** Frames on the wire *)

Lemma append_assoc (a b c : string) : ((a ++ b) ++ c = a ++ (b ++ c))%string.
Proof. induction a as [| x a IH]; simpl; [reflexivity | rewrite IH; reflexivity]. Qed.

Lemma has_char_append c a b :
  has_char c (a ++ b) = has_char c a || has_char c b.
Proof.
  induction a as [| x a IH]; simpl; [reflexivity |].
  rewrite IH, orb_assoc. reflexivity.
Qed.

Lemma prefix_cons a p c s :
  String.prefix (String a p) (String c s) = Ascii.eqb c a && String.prefix p s.
Proof.
  cbn [String.prefix]. destruct (ascii_dec a c) as [<- | Hne].
  - rewrite Ascii.eqb_refl. reflexivity.
  - destruct (Ascii.eqb c a) eqn:E; [| reflexivity].
    apply Ascii.eqb_eq in E. congruence.
Qed.

Lemma prefix_nl c s : String.prefix PyStr.nl (String c s) = Ascii.eqb c "010".
Proof.
  unfold PyStr.nl. rewrite prefix_cons. cbn [String.prefix].
  destruct s; apply andb_true_r.
Qed.

Lemma escaped_cons c d :
  escaped (String c d)
  = if Ascii.eqb c "010" then ("\n" ++ escaped d)%string else String c (escaped d).
Proof.
  unfold escaped, PyStr.replace. cbn [PyStr.replace_from].
  rewrite prefix_nl. reflexivity.
Qed.

(** The payload holds no line feed. *)
Lemma escaped_one_line d : has_char "010" (escaped d) = false.
Proof.
  induction d as [| c d IH]; [reflexivity |].
  rewrite escaped_cons. destruct (Ascii.eqb c "010") eqn:E; simpl.
  - exact IH.
  - rewrite E, IH. reflexivity.
Qed.

Lemma split_no_sep c s : has_char c s = false -> PyStr.split c s = [s].
Proof.
  induction s as [| x s IH]; simpl; [reflexivity |].
  intros H. apply orb_false_iff in H. destruct H as [Hx Hs].
  rewrite Hx, (IH Hs). reflexivity.
Qed.

Lemma split_at_sep c a b :
  has_char c a = false ->
  PyStr.split c (a ++ String c b) = a :: PyStr.split c b.
Proof.
  induction a as [| x a IH]; simpl.
  - intros _. rewrite Ascii.eqb_refl. reflexivity.
  - intros H. apply orb_false_iff in H. destruct H as [Hx Ha].
    rewrite Hx, (IH Ha). reflexivity.
Qed.

(** The lines of a frame. *)
Lemma sse_lines event data :
  has_char "010" event = false ->
  PyStr.split "010" (_sse event data)
  = [ ("event: " ++ event)%string; ("data: " ++ escaped data)%string;
      EmptyString; EmptyString ].
Proof.
  intros Hev.
  unfold _sse. fold (escaped data). unfold PyStr.nl.
  replace ("event: " ++ event ++ String "010" EmptyString ++ "data: " ++ escaped data
           ++ String "010" EmptyString ++ String "010" EmptyString)%string
    with (("event: " ++ event)
          ++ String "010" (("data: " ++ escaped data)
                           ++ String "010" (EmptyString ++ String "010" EmptyString)))%string.
  - rewrite split_at_sep by (rewrite has_char_append, Hev; reflexivity).
    rewrite split_at_sep
      by (rewrite has_char_append, escaped_one_line; reflexivity).
    rewrite split_at_sep by reflexivity. reflexivity.
  - rewrite !append_assoc. simpl. reflexivity.
Qed.

(** X1.  A frame is its event line, its data line and an empty line: the
    payload is on one line whatever the data, so that the frame has four
    lines when split at the line feeds (the last two empty). *)
Theorem sse_frame_lines :
  forall event data,
    has_char "010" event = false ->
    PyStr.split "010" (_sse event data)
    = [ ("event: " ++ event)%string; ("data: " ++ escaped data)%string;
        EmptyString; EmptyString ]
    /\ has_char "010" (escaped data) = false.
Proof.
  intros event data Hev. split; [exact (sse_lines event data Hev) |].
  apply escaped_one_line.
Qed.

Lemma sse_frame_lines_witness :
  PyStr.split "010" (_sse "thought" ("a" ++ PyStr.nl ++ "b"))
  = ["event: thought"; "data: a\nb"; EmptyString; EmptyString].
Proof.
  apply (proj1 (sse_frame_lines "thought" ("a" ++ PyStr.nl ++ "b") eq_refl)).
Defined.

(** What both frame parsers read from a frame. *)
Lemma parse_frame_sse event data :
  has_char "010" event = false ->
  parse_frame (_sse event data)
  = (PyStr.strip (" " ++ event), received data).
Proof.
  intros Hev. unfold parse_frame. rewrite (sse_lines _ _ Hev).
  unfold received. simpl. reflexivity.
Qed.

(** *** Stripping *)

Lemma plain_end_not_space c : plain_end c = true -> PyStr.isspace c = false.
Proof. unfold plain_end. intros H. apply andb_prop in H. destruct H as [_ H].
  apply negb_true_iff in H. exact H. Qed.

Lemma plain_end_not_nl c : plain_end c = true -> Ascii.eqb c "010" = false.
Proof.
  intros H. apply plain_end_not_space in H.
  destruct (Ascii.eqb c "010") eqn:E; [| reflexivity].
  apply Ascii.eqb_eq in E. subst. discriminate.
Qed.

Lemma plain_end_low c : plain_end c = true -> nat_of_ascii c < 128.
Proof.
  unfold plain_end. intros H. apply andb_prop in H. destruct H as [H _].
  apply Nat.ltb_lt. exact H.
Qed.

Lemma high_not_plain c : 128 <= nat_of_ascii c -> plain_end c = false.
Proof.
  intros H. unfold plain_end.
  destruct (nat_of_ascii c <? 128)%nat eqn:E; [| reflexivity].
  apply Nat.ltb_lt in E. lia.
Qed.

(** The bytes of a white-space character of more than one byte. *)
Lemma space2_high a b :
  PyStr.space2 a b = true -> 128 <= nat_of_ascii a /\ 128 <= nat_of_ascii b.
Proof.
  unfold PyStr.space2. cbv zeta. intros H.
  apply andb_prop in H. destruct H as [Ha Hb].
  apply Nat.eqb_eq in Ha. apply orb_prop in Hb.
  destruct Hb as [Hb | Hb]; apply Nat.eqb_eq in Hb; lia.
Qed.

Lemma space3_high a b c :
  PyStr.space3 a b c = true ->
  128 <= nat_of_ascii a /\ 128 <= nat_of_ascii b /\ 128 <= nat_of_ascii c.
Proof.
  unfold PyStr.space3. cbv zeta. intros H.
  repeat match type of H with
         | (_ || _)%bool = true => apply orb_prop in H; destruct H as [H | H]
         end;
    repeat match goal with
           | H : (_ && _)%bool = true |- _ => apply andb_prop in H; destruct H
           | H : (_ || _)%bool = true |- _ => apply orb_prop in H; destruct H
           | H : (_ =? _)%nat = true |- _ => apply Nat.eqb_eq in H
           | H : (_ <=? _)%nat = true |- _ => apply Nat.leb_le in H
           end;
    lia.
Qed.

(** No plain character begins a white-space character. *)
Lemma space_width_plain c s : plain_end c = true -> PyStr.space_width (String c s) = 0.
Proof.
  intros Hc. unfold PyStr.space_width. rewrite (plain_end_not_space _ Hc).
  pose proof (plain_end_low _ Hc) as Hlow.
  destruct s as [| b s]; [reflexivity |].
  destruct (PyStr.space2 c b) eqn:E2.
  { apply space2_high in E2. lia. }
  destruct s as [| d s]; [reflexivity |].
  destruct (PyStr.space3 c b d) eqn:E3; [| reflexivity].
  apply space3_high in E3. lia.
Qed.

(** The bytes of the white-space character a text begins with are there,
    none of them plain. *)
Lemma space_width_covered s : covered (PyStr.space_width s) s = true.
Proof.
  destruct s as [| a s]; [reflexivity |].
  unfold PyStr.space_width.
  destruct (PyStr.isspace a) eqn:Ea.
  { simpl. unfold plain_end. rewrite Ea, andb_false_r. reflexivity. }
  destruct s as [| b s]; [reflexivity |].
  destruct (PyStr.space2 a b) eqn:E2.
  { apply space2_high in E2. destruct E2 as [Ha Hb].
    simpl. rewrite (high_not_plain _ Ha), (high_not_plain _ Hb). reflexivity. }
  destruct s as [| c s]; [reflexivity |].
  destruct (PyStr.space3 a b c) eqn:E3; [| reflexivity].
  apply space3_high in E3. destruct E3 as (Ha & Hb & Hc).
  simpl. rewrite (high_not_plain _ Ha), (high_not_plain _ Hb), (high_not_plain _ Hc).
  reflexivity.
Qed.

Lemma last_char_default c d s : s <> EmptyString -> last_char c s = last_char d s.
Proof. destruct s; [congruence | reflexivity]. Qed.

(** Stripping on the left leaves something of a text that ends with a
    plain character. *)
Lemma lstrip_from_keeps s : forall k d,
  s <> EmptyString ->
  plain_end (last_char d s) = true ->
  covered k s = true ->
  PyStr.nonempty (PyStr.lstrip_from k s) = true.
Proof.
  induction s as [| c s IH]; intros k d Hne Hl Hk; [congruence |].
  assert (Hskip : forall k', covered (S k') (String c s) = true ->
                             PyStr.nonempty (PyStr.lstrip_from k' s) = true).
  { intros k' Hc. simpl in Hc. apply andb_prop in Hc. destruct Hc as [Hc Hk'].
    apply negb_true_iff in Hc.
    destruct s as [| x s'].
    - simpl in Hl. congruence.
    - apply (IH k' c); [discriminate | exact Hl | exact Hk']. }
  destruct k as [| k].
  - cbn [PyStr.lstrip_from].
    pose proof (space_width_covered (String c s)) as Hw.
    destruct (PyStr.space_width (String c s)) as [| k']; [reflexivity |].
    apply Hskip. exact Hw.
  - cbn [PyStr.lstrip_from]. apply Hskip. exact Hk.
Qed.

Lemma rstrip_plain s : forall d,
  s = EmptyString \/ plain_end (last_char d s) = true ->
  PyStr.rstrip s = s.
Proof.
  induction s as [| c s IH]; intros d H; [reflexivity |].
  destruct H as [H | H]; [discriminate |].
  cbn [PyStr.rstrip]. unfold PyStr.lstrip.
  rewrite (lstrip_from_keeps (String c s) 0 d); [| discriminate | exact H | reflexivity].
  f_equal. apply (IH c). destruct s as [| x s']; [left; reflexivity | right; exact H].
Qed.

Lemma strip_plain s : plain_ends s = true -> PyStr.strip (" " ++ s) = s.
Proof.
  unfold PyStr.strip. destruct s as [| c s]; [reflexivity |].
  unfold plain_ends. intros H. apply andb_prop in H. destruct H as [Hc Hl].
  assert (E : PyStr.lstrip (" " ++ String c s) = String c s).
  { unfold PyStr.lstrip.
    change (" " ++ String c s)%string with (String " " (String c s)).
    cbn [PyStr.lstrip_from].
    change (PyStr.space_width (String " " (String c s))) with 1.
    cbn [PyStr.lstrip_from]. rewrite (space_width_plain _ _ Hc). reflexivity. }
  rewrite E. apply (rstrip_plain _ c). right. exact Hl.
Qed.

(** The ends of the payload are those of the data, when these are plain. *)
Lemma last_char_escaped d : forall c,
  Ascii.eqb (last_char c d) "010" = false ->
  Ascii.eqb c "010" = false ->
  last_char c (escaped d) = last_char c d.
Proof.
  induction d as [| x d IH]; intros c Hl Hc; [reflexivity |].
  rewrite escaped_cons. simpl in Hl.
  destruct (Ascii.eqb x "010") eqn:E.
  - simpl. apply Ascii.eqb_eq in E. subst x.
    destruct d as [| y d'].
    + simpl in Hl. discriminate.
    + transitivity (last_char "n" (String y d')); [| reflexivity].
      apply IH; [exact Hl | reflexivity].
  - simpl. apply IH; assumption.
Qed.

Lemma plain_ends_escaped d : plain_ends d = true -> plain_ends (escaped d) = true.
Proof.
  destruct d as [| c d]; [reflexivity |].
  unfold plain_ends. intros H. apply andb_prop in H. destruct H as [Hc Hl].
  rewrite escaped_cons, (plain_end_not_nl _ Hc).
  rewrite Hc. simpl.
  rewrite last_char_escaped;
    [exact Hl | apply plain_end_not_nl; exact Hl | apply plain_end_not_nl; exact Hc].
Qed.

(** *** Undoing the escape *)

Lemma prefix_bs_n c s :
  String.prefix "\n" (String c s)
  = Ascii.eqb c "\" && match s with
                       | String x _ => Ascii.eqb x "n"
                       | EmptyString => false
                       end.
Proof.
  rewrite prefix_cons. destruct s as [| x s']; [reflexivity |].
  rewrite prefix_cons. cbn [String.prefix].
  destruct s'; rewrite andb_true_r; reflexivity.
Qed.

Lemma unescape_cons c s :
  PyStr.replace "\n" PyStr.nl (String c s)
  = if String.prefix "\n" (String c s)
    then String "010" (PyStr.replace "\n" PyStr.nl (PyStr.drop 1 s))
    else String c (PyStr.replace "\n" PyStr.nl s).
Proof.
  unfold PyStr.replace. cbn [PyStr.replace_from].
  destruct (String.prefix "\n" (String c s)) eqn:E; [| reflexivity].
  rewrite prefix_bs_n in E. apply andb_prop in E. destruct E as [_ E].
  destruct s as [| x s']; [discriminate |]. reflexivity.
Qed.

Lemma escaped_head_n d :
  match escaped d with String x _ => Ascii.eqb x "n" | EmptyString => false end
  = match d with String x _ => Ascii.eqb x "n" | EmptyString => false end.
Proof.
  destruct d as [| x d]; [reflexivity |]. rewrite escaped_cons.
  destruct (Ascii.eqb x "010") eqn:E; [| reflexivity].
  apply Ascii.eqb_eq in E. subst. reflexivity.
Qed.

Lemma unescape_escaped d :
  occurs "\n" d = false -> PyStr.replace "\n" PyStr.nl (escaped d) = d.
Proof.
  induction d as [| c d IH]; [reflexivity |].
  intros H. cbn [occurs] in H. apply orb_false_iff in H. destruct H as [Hp Ho].
  rewrite escaped_cons. destruct (Ascii.eqb c "010") eqn:E.
  - apply Ascii.eqb_eq in E. subst c.
    change ("\n" ++ escaped d)%string with (String "\" (String "n" (escaped d))).
    rewrite unescape_cons, prefix_bs_n, !Ascii.eqb_refl.
    cbn [andb PyStr.drop]. rewrite (IH Ho). reflexivity.
  - rewrite unescape_cons, prefix_bs_n, escaped_head_n.
    rewrite prefix_bs_n in Hp. rewrite Hp, (IH Ho). reflexivity.
Qed.

(** X2.  An event survives the wire: from the frame [_sse] builds, the
    parsers read the event and the data back, when the event holds no line
    feed, both begin and end with a plain character (or are empty), and the
    data holds no backslash followed by n. *)
Theorem frame_round_trip :
  forall event data,
    has_char "010" event = false ->
    plain_ends event = true ->
    plain_ends data = true ->
    occurs "\n" data = false ->
    parse_frame (_sse event data) = (event, data).
Proof.
  intros event data Hnl Hev Hd Hocc.
  rewrite (parse_frame_sse _ _ Hnl). unfold received.
  rewrite (strip_plain _ Hev), (strip_plain _ (plain_ends_escaped _ Hd)).
  rewrite (unescape_escaped _ Hocc). reflexivity.
Qed.

Lemma frame_round_trip_witness :
  parse_frame (_sse "observation" ("[OBSERVATION] two" ++ PyStr.nl ++ "lines"))
  = ("observation", "[OBSERVATION] two" ++ PyStr.nl ++ "lines").
Proof.
  apply (frame_round_trip "observation" ("[OBSERVATION] two" ++ PyStr.nl ++ "lines"));
    reflexivity.
Defined.
(** ** The blocking wrapper *)

Lemma stream_event_cases ev :
  stream_event ev = true ->
  ev = "thought" \/ ev = "action" \/ ev = "observation" \/ ev = "final"
  \/ ev = "error" \/ ev = "done".
Proof.
  unfold stream_event, progress_event. intros H.
  repeat (apply orb_prop in H; destruct H as [H | H]);
    apply String.eqb_eq in H; auto 7.
Qed.

Lemma parse_frame_stream ev d :
  stream_event ev = true -> parse_frame (_sse ev d) = (ev, received d).
Proof.
  intros H.
  destruct (stream_event_cases ev H) as [-> | [-> | [-> | [-> | [-> | ->]]]]];
    rewrite parse_frame_sse by reflexivity; reflexivity.
Qed.

Lemma silent_nil (w : list effect) : forallb (fun _ => false) w = true -> w = [].
Proof. destruct w; [reflexivity | discriminate]. Qed.

Lemma emits_dict_update P res payload : emits P (dict_update res payload).
Proof. unfold dict_update. emits_tac. Qed.

(** What the consumer does with one frame of a stream. *)
Lemma collect_frame_stream env res lines ev d h :
  stream_event ev = true ->
  collect_frame env (res, lines) (_sse ev d) h
  = if progress_event ev then (Ok (res, (lines ++ [received d])%list), [])
    else if String.eqb ev "final" then take_final env res lines (received d) h
    else (Ok (res, lines), []).
Proof.
  intros H. unfold collect_frame. rewrite (parse_frame_stream _ _ H).
  fold (progress_event ev).
  destruct (progress_event ev); [reflexivity |].
  destruct (String.eqb ev "final"); reflexivity.
Qed.

Lemma take_final_silent env res lines data h r w :
  take_final env res lines data h = (r, w) ->
  w = [] /\ forall x, r = Ok x -> snd x = lines.
Proof.
  intros H. split.
  - apply silent_nil.
    assert (He : emits (fun _ => false) (take_final env res lines data)).
    { unfold take_final.
      repeat first [apply emits_loads_guarded | apply emits_dict_update | emits_step]. }
    specialize (He h). rewrite H in He. exact He.
  - assert (Hq : ensures (fun x => snd x = lines) (take_final env res lines data)).
    { unfold take_final.
      eapply ensures_bind; [apply ensures_true | intros decoded _].
      destruct decoded as [payload |].
      - eapply ensures_bind; [apply ensures_true | intros r0 _].
        apply ensures_ret. reflexivity.
      - apply ensures_ret. reflexivity. }
    intros x ->. exact (Hq h x w H).
Qed.

(** The lines the consumer gathers are the data of the progress events, as
    received; gathering has no effect of its own. *)
Lemma collect_frames_lines env evs :
  forall res lines h r w,
    forallb (fun ed => stream_event (fst ed)) evs = true ->
    collect_frames env (res, lines)
      (map (fun ed => _sse (fst ed) (snd ed)) evs) h = (r, w) ->
    w = []
    /\ forall res' lines',
         r = Ok (res', lines') ->
         lines' = (lines ++ map received
                     (map snd (filter (fun ed => progress_event (fst ed)) evs)))%list.
Proof.
  induction evs as [| [ev d] evs IH]; intros res lines h r w Hev Hrun.
  - simpl in Hrun. unfold ret in Hrun. inversion Hrun; subst. split; [reflexivity |].
    intros res' lines' E. inversion E; subst. simpl. rewrite app_nil_r. reflexivity.
  - simpl in Hev. apply andb_prop in Hev. destruct Hev as [He Hevs].
    simpl map in Hrun. cbn [collect_frames] in Hrun.
    apply bind_inv in Hrun.
    rewrite (collect_frame_stream env res lines ev d h He) in Hrun.
    cbn [fst snd filter].
    destruct (progress_event ev) eqn:Hp.
    + destruct Hrun as [(a & w1 & w2 & Ha & Hk & ->) | (e & Ha & _)]; [| discriminate].
      inversion Ha; subst. destruct (IH _ _ _ _ _ Hevs Hk) as (-> & Hl).
      split; [reflexivity |]. intros res' lines' E.
      rewrite (Hl _ _ E). simpl. rewrite <- app_assoc. reflexivity.
    + assert (Hstep : forall a w1,
                 (if String.eqb ev "final"
                  then take_final env res lines (received d) h
                  else (Ok (res, lines), [])) = (a, w1) ->
                 w1 = [] /\ forall x, a = Ok x -> snd x = lines).
      { intros a w1 E. destruct (String.eqb ev "final").
        - exact (take_final_silent _ _ _ _ _ _ _ E).
        - inversion E; subst. split; [reflexivity |].
          intros x Hx. inversion Hx; subst. reflexivity. }
      destruct Hrun as [([res1 lines1] & w1 & w2 & Ha & Hk & ->) | (e & Ha & ->)].
      * destruct (Hstep _ _ Ha) as (-> & Hsnd).
        specialize (Hsnd _ eq_refl). simpl in Hsnd. subst lines1.
        destruct (IH _ _ _ _ _ Hevs Hk) as (-> & Hl).
        split; [reflexivity | exact Hl].
      * destruct (Hstep _ _ Ha) as (-> & _). split; [reflexivity | discriminate].
Qed.


(** The events of a stream are of the six kinds. *)
Lemma stream_events_known env agent_id user_prompt image_path h :
  forallb (fun ed => stream_event (fst ed))
    (events_of (snd (stream_agent_task env agent_id user_prompt image_path h))) = true.
Proof.
  assert (Hprog : forall wl, forallb loop_effect wl = true ->
                    forallb (fun ed => stream_event (fst ed)) (events_of wl) = true).
  { intros wl Hl. destruct (loop_effects_quiet _ Hl) as (_ & Hp).
    unfold progress_events in Hp. rewrite forallb_forall in *.
    intros ed Hin. unfold stream_event. rewrite (Hp _ Hin). reflexivity. }
  rewrite stream_eq.
  assert (Hbody : forallb (fun ed => stream_event (fst ed))
                    (events_of (attempt env agent_id user_prompt image_path h)) = true).
  { destruct (attempt_shape env agent_id user_prompt image_path h)
      as [(_ & ->) | [(wl & ws & e & Hl & _ & Hs & _ & ->)
                     | (agent & st & wl & id & _ & _ & _ & _ & Hl & _ & ->)]].
    - reflexivity.
    - destruct (store_effects_silent _ Hs) as (Es & _).
      change (SessionGet agent_id :: ?x) with ([SessionGet agent_id] ++ x)%list.
      rewrite !events_of_app, !forallb_app, (Hprog _ Hl), Es. reflexivity.
    - change (SessionGet agent_id :: ?x) with ([SessionGet agent_id] ++ x)%list.
      rewrite !events_of_app, !forallb_app, (Hprog _ Hl). reflexivity. }
  destruct (ended_effects env h (attempt env agent_id user_prompt image_path h))
    as [-> | ->]; rewrite events_of_app, forallb_app, Hbody; reflexivity.
Qed.

(** X3.  The transcript [run_agent_task] returns is made of the data of the
    progress events of the run, in order, each as the consumer received it,
    one per line. *)
Theorem run_agent_task_transcript :
  forall env agent_id user_prompt image_path h res w,
    run_agent_task env agent_id user_prompt image_path h = (Ok res, w) ->
    w = snd (stream_agent_task env agent_id user_prompt image_path h)
    /\ lookup "thought_process" res
       = Some (VStr (PyStr.join PyStr.nl (map received (progress_data w)))).
Proof.
  intros env agent_id user_prompt image_path h res w Hrun.
  pose proof (stream_events_known env agent_id user_prompt image_path h) as Hknown.
  unfold run_agent_task, run_until_complete in Hrun.
  destruct (loop_running env); [discriminate |]. cbv zeta in Hrun.
  apply bind_inv in Hrun.
  destruct Hrun as [(fs & w1 & w2 & Hf & Hk & ->) | (e & _ & He)]; [| discriminate].
  unfold frames in Hf.
  destruct (stream_agent_task env agent_id user_prompt image_path h) as [rs ws].
  destruct rs as [[] | e]; [| discriminate].
  inversion Hf; subst fs w1. clear Hf. simpl snd in *.
  apply bind_inv in Hk.
  destruct Hk as [([res1 lines1] & v1 & v2 & Hc & Hr & ->) | (e & _ & He)];
    [| discriminate].
  unfold frames_of in Hc.
  destruct (collect_frames_lines env _ _ _ _ _ _ Hknown Hc) as (-> & Hl).
  specialize (Hl _ _ eq_refl). simpl in Hl. subst lines1.
  unfold ret in Hr. inversion Hr; subst. rewrite !app_nil_r.
  split; [reflexivity |].
  rewrite lookup_update. reflexivity.
Qed.

Lemma run_agent_task_transcript_witness :
  exists res w,
    run_agent_task (Demo.env_of (Demo.scripted [Demo.says "All good."]))
      1 "hi" None [] = (Ok res, w)
    /\ lookup "thought_process" res
       = Some (VStr ("[Step 1] Querying model " ++ DEFAULT_MODEL_NAME ++ "…"
                     ++ PyStr.nl ++ "All good.")).
Proof.
  eexists _, _. split; [vm_compute; reflexivity |].
  refine (eq_trans
            (proj2 (run_agent_task_transcript
                      (Demo.env_of (Demo.scripted [Demo.says "All good."]))
                      1 "hi" None [] _ _ _)) _);
    vm_compute; reflexivity.
Defined.


(** ** The tools behind the invoker *)

Ltac bind_cases H :=
  let a := fresh "a" in
  let w1 := fresh "w" in
  let w2 := fresh "w" in
  let Ha := fresh "Ha" in
  let Hk := fresh "Hk" in
  let Hw := fresh "Hw" in
  let e := fresh "e" in
  apply bind_inv in H;
  destruct H as [(a & w1 & w2 & Ha & Hk & Hw) | (e & Ha & Hw)].

Lemma attr_get_inv v h d w :
  attr_get v h = (Ok d, w) -> v = VDict d /\ w = [].
Proof.
  destruct v; simpl; unfold ret, raise; intros H; inversion H; auto.
Qed.

Lemma perform_inv env e h r w :
  perform env e h = (r, w) -> w = [e].
Proof. unfold perform. intros H. inversion H. reflexivity. Qed.

(** The schema names an agent is offered. *)
Lemma schema_names env agent name :
  In name (_get_tool_schemas env agent) -> In name known_tools.
Proof.
  unfold _get_tool_schemas. rewrite in_flat_map. intros (t & _ & Hin).
  unfold schema_mapping in Hin. cbn [lookup] in Hin.
  repeat match type of Hin with
         | In _ (match (if ?c then _ else _) with _ => _ end) => destruct c
         end;
    simpl in *; intuition.
Qed.

Lemma known_tool_branch env name args model_name :
  In name known_tools ->
  ensures (fun taken => taken <> None)
          (tool_branches env (VStr name) args model_name).
Proof.
  assert (Hsome : forall r : string * option string, Some r <> None)
    by (intros r; discriminate).
  intros Hin. simpl in Hin.
  destruct Hin as [<- | [<- | [<- | [<- | []]]]];
    unfold tool_branches; simpl eq_str; cbv iota;
    (eapply ensures_bind; [apply ensures_true | intros d _]); cbv zeta;
    repeat first
      [ apply ensures_ret; apply Hsome
      | apply ensures_raise
      | eapply ensures_bind; [apply ensures_true | intros ? _]
      | match goal with
        | |- ensures _ (if ?b then _ else _) => destruct b
        | |- ensures _ (match ?x with _ => _ end) => destruct x
        end ].
Qed.

(** X5.  Every function name offered to the model is one the invoker
    knows: a call by that name takes one of the four branches and is never
    answered with the unknown-tool error. *)
Theorem offered_tools_are_known :
  forall env agent name,
    In name (_get_tool_schemas env agent) ->
    resolved name = name
    /\ mem name known_tools = true
    /\ forall args model_name h taken w,
         tool_branches env (VStr (resolved name)) args model_name h = (Ok taken, w) ->
         taken <> None.
Proof.
  intros env agent name Hin. apply schema_names in Hin.
  assert (Hres : resolved name = name).
  { simpl in Hin. destruct Hin as [<- | [<- | [<- | [<- | []]]]]; reflexivity. }
  split; [exact Hres | split; [apply mem_In; exact Hin |]].
  intros args model_name h taken w Hrun. rewrite Hres in Hrun.
  exact (known_tool_branch env name args model_name Hin h taken w Hrun).
Qed.

Lemma offered_tools_are_known_witness :
  resolved "generate_pdf_report" = "generate_pdf_report"
  /\ mem "generate_pdf_report" known_tools = true.
Proof.
  destruct (offered_tools_are_known Demo.env0 Demo.agent1 "generate_pdf_report")
    as (H1 & H2 & _).
  - vm_compute. left. reflexivity.
  - split; [exact H1 | exact H2].
Defined.

(** An artifact comes from the document branch alone. *)
Lemma tool_branches_artifact env name args model_name h obs p w :
  tool_branches env name args model_name h = (Ok (Some (obs, Some p)), w) ->
  eq_str name "generate_pdf_report" = true
  /\ obs = "SUCCESS: PDF saved to '" ++ p ++ "'."
  /\ exists title body dir,
       w = [MkDir (Posix.str Orchestrator.REPORTS_DIR); PdfRender title body;
            MkDir dir; PdfOutput p].
Proof.
  unfold tool_branches. intros H.
  destruct (eq_str name "generate_pdf_report").
  - split; [reflexivity |].
    bind_cases H; [| discriminate]. apply attr_get_inv in Ha. destruct Ha as (-> & ->).
    subst w. cbv zeta in Hk.
    destruct (get_or "filename" (VStr "report.pdf") a) eqn:Hf;
      try (unfold raise in Hk; discriminate).
    bind_cases Hk; [| discriminate]. apply perform_inv in Ha. subst.
    bind_cases Hk0; [| discriminate]. subst.
    unfold ret in Hk. inversion Hk; subst. clear Hk.
    unfold generate_report in Ha.
    bind_cases Ha; [| discriminate]. apply perform_inv in Ha0. subst.
    bind_cases Hk; [| discriminate]. apply perform_inv in Ha. subst.
    bind_cases Hk0; [| discriminate]. apply perform_inv in Ha. subst.
    unfold ret in Hk. inversion Hk; subst.
    split; [reflexivity |]. eexists _, _, _. reflexivity.
  - exfalso. revert H.
    assert (Hnone : forall (m : M (option (string * option string))),
               ensures (fun taken => match taken with
                                     | Some (_, Some _) => False
                                     | _ => True
                                     end) m ->
               m h = (Ok (Some (obs, Some p)), w) -> False).
    { intros m Hm E. exact (Hm _ _ _ E). }
    apply Hnone.
    repeat first
      [ apply ensures_ret; exact I
      | apply ensures_raise
      | eapply ensures_bind; [apply ensures_true | intros ? _]
      | match goal with
        | |- ensures _ (if ?b then _ else _) => destruct b
        | |- ensures _ (match ?x with _ => _ end) => destruct x
        | |- ensures _ (let _ := _ in _) => cbv zeta
        end ].
Qed.

(** X6.  When the invoker returns an artifact path, the call was resolved
    to the document tool, a file was written at that very path as the last
    of four operations, and the observation reports it. *)
Theorem artifact_was_written :
  forall env tool_name arguments_json model_name h obs p w,
    _execute_tool env tool_name arguments_json model_name h = (Ok (obs, Some p), w) ->
    (exists name, tool_name = VStr name /\ resolved name = "generate_pdf_report")
    /\ obs = "SUCCESS: PDF saved to '" ++ p ++ "'."
    /\ exists title body dir,
         w = [MkDir (Posix.str Orchestrator.REPORTS_DIR); PdfRender title body;
              MkDir dir; PdfOutput p].
Proof.
  intros env tool_name arguments_json model_name h obs p w H.
  unfold _execute_tool in H.
  destruct (parsed_arguments env arguments_json) as [args |];
    [| destruct (decode_error _); unfold ret, lift in H; discriminate].
  bind_cases H; [| discriminate].
  assert (Hname : w0 = []
                  /\ forall s, a = VStr s ->
                       exists name, tool_name = VStr name /\ resolved name = s).
  { destruct tool_name; simpl in Ha; unfold ret, raise in Ha; inversion Ha; subst;
      (split; [reflexivity |]); intros s' E; try discriminate.
    inversion E; subst. eexists. split; reflexivity. }
  destruct Hname as (-> & Hname). subst w.
  bind_cases Hk; [| discriminate]. subst.
  unfold try_except in Ha0.
  destruct (tool_branches env a args model_name (h ++ [])%list)
    as [[[[obs' art'] |] | e] wt] eqn:Hb.
  - inversion Ha0; subst. unfold ret in Hk0. inversion Hk0; subst.
    destruct (tool_branches_artifact _ _ _ _ _ _ _ _ Hb) as (Hn & Hobs & Hw).
    split; [| split; [exact Hobs |]].
    + destruct a; simpl in Hn; try discriminate.
      apply String.eqb_eq in Hn. subst. apply Hname. reflexivity.
    + destruct Hw as (title & body & dir & ->).
      exists title, body, dir. reflexivity.
  - inversion Ha0; subst. unfold ret in Hk0. inversion Hk0.
  - unfold ret in Ha0. inversion Ha0; subst. unfold ret in Hk0. inversion Hk0.
Qed.

Lemma artifact_was_written_witness :
  exists title body dir,
    [MkDir "reports"; PdfRender (VStr "AI Research Report") (VStr EmptyString);
     MkDir "/srv/app/reports"; PdfOutput "/srv/app/reports/report.pdf"]
    = [MkDir (Posix.str Orchestrator.REPORTS_DIR); PdfRender title body;
       MkDir dir; PdfOutput "/srv/app/reports/report.pdf"].
Proof.
  destruct (artifact_was_written Demo.env0 (VStr "pdf_tool") "{}" "m" []
              "SUCCESS: PDF saved to '/srv/app/reports/report.pdf'."
              "/srv/app/reports/report.pdf"
              [MkDir "reports"; PdfRender (VStr "AI Research Report") (VStr EmptyString);
               MkDir "/srv/app/reports"; PdfOutput "/srv/app/reports/report.pdf"])
    as (_ & _ & Hw).
  - vm_compute. reflexivity.
  - exact Hw.
Defined.

(** The image tool reads what it has checked. *)
Lemma analyze_image_checked env image_path prompt model_name :
  emits (reads_checked env) (analyze_image env image_path prompt model_name).
Proof.
  unfold analyze_image. destruct image_path; try apply emits_raise.
  cbv zeta.
  destruct (PyStr.startswith (Posix.str (Posix.resolve (cwd env) s))
              (Posix.str (UPLOADS_DIR env))) eqn:E; cbn [negb];
    [| apply emits_raise].
  apply emits_bind; [apply emits_ask; reflexivity | intros f].
  destruct (negb f); [apply emits_raise |].
  apply emits_bind; [apply emits_perform; exact E | intros _].
  apply emits_ask. exact E.
Qed.

Lemma execute_tool_checked env tool_name arguments_json model_name :
  emits (reads_checked env) (_execute_tool env tool_name arguments_json model_name).
Proof.
  unfold _execute_tool, tool_branches, asyncio_run, scrape, send_email,
    generate_report.
  repeat first
    [ apply emits_resolve_alias | apply emits_attr_get | apply emits_py_join
    | apply analyze_image_checked | emits_step ].
Qed.

(** X7.  Whatever the call, the image tool behind the invoker opens an
    image, or hands one to the vision model, only at a path whose text
    begins with the text of the uploads directory.  (The font file the
    document tool may load while rendering is not an image and is not meant
    here.) *)
Theorem invoker_reads_checked_paths :
  forall env tool_name arguments_json model_name h p,
    let w := snd (_execute_tool env tool_name arguments_json model_name h) in
    (In (OpenRead p) w \/ exists model prompt, In (VisionChat model prompt p) w) ->
    PyStr.startswith p (Posix.str (UPLOADS_DIR env)) = true.
Proof.
  intros env tool_name arguments_json model_name h p w Hin.
  pose proof (execute_tool_checked env tool_name arguments_json model_name h) as He.
  fold w in He. rewrite forallb_forall in He.
  destruct Hin as [Hin | (model & prompt & Hin)]; exact (He _ Hin).
Qed.

Lemma invoker_reads_checked_paths_witness :
  PyStr.startswith "/srv/app/uploads/chart.png" (Posix.str (UPLOADS_DIR Demo.env0))
  = true.
Proof.
  apply (invoker_reads_checked_paths Demo.env0 (VStr "analyze_image")
           ("{" ++ Demo.q "image_path" ++ ": " ++ Demo.q "uploads/chart.png" ++ "}")
           "m" []).
  left. vm_compute. right. left. reflexivity.
Defined.

(** ** Where the invoker raises *)

(** X20.  The invoker raises in two places, against its own description
    ([Never raises]): the alias table is looked up before the second
    [try], so that a name that cannot be a key (a list or a mapping, which
    the inline fallback may pass) raises [TypeError]; and the first [try]
    catches [json.JSONDecodeError] alone, so that whatever else the decoder
    raises on the argument text goes to the caller.  No effect is performed
    in either case. *)
Theorem execute_tool_raises :
  (forall env tool_name arguments_json model_name h args,
      hashable tool_name = false ->
      parsed_arguments env arguments_json = Some args ->
      _execute_tool env tool_name arguments_json model_name h
      = (Raise {| exc_class := "TypeError";
                  exc_text := "unhashable type: '" ++ type_name tool_name ++ "'" |},
         []))
  /\ (forall env tool_name arguments_json model_name h,
        PyStr.nonempty arguments_json = true ->
        decodes env arguments_json = false ->
        _execute_tool env tool_name arguments_json model_name h
        = (Raise (json_error env arguments_json), [])).
Proof.
  split.
  - intros env tool_name arguments_json model_name h args Hh Hargs.
    unfold _execute_tool. rewrite Hargs.
    destruct tool_name; simpl in Hh; try discriminate; reflexivity.
  - intros env tool_name arguments_json model_name h Hne Hd.
    unfold decodes in Hd. unfold _execute_tool, parsed_arguments. rewrite Hne.
    destruct (json_loads env arguments_json); [discriminate |].
    rewrite Hd. reflexivity.
Qed.

Lemma execute_tool_raises_witness :
  _execute_tool Demo.env0 (VList [VStr "send_email"]) "{}" "m" []
  = (Raise {| exc_class := "TypeError"; exc_text := "unhashable type: 'list'" |}, [])
  /\ _execute_tool Demo.env_limit (VStr "send_email") (Demo.ones 4301) "m" []
     = (Raise {| exc_class := "ValueError";
                 exc_text := "Exceeds the limit (4300 digits) for integer string conversion" |},
        []).
Proof.
  destruct execute_tool_raises as [Hname Hargs]. split.
  - apply (Hname Demo.env0 (VList [VStr "send_email"]) "{}" "m" [] (VDict []));
      reflexivity.
  - apply (Hargs Demo.env_limit (VStr "send_email") (Demo.ones 4301) "m" []);
      vm_compute; reflexivity.
Defined.
(** ** How a run ends *)

(** The [try] block of a run whose loop returns and whose record is
    stored. *)
Lemma attempt_of_loop env agent_id user_prompt image_path h agent st wl id :
  session_get env h agent_id = Ok (Some agent) ->
  loop_of env agent agent_id user_prompt image_path h = (Ok st, wl) ->
  fst (store_log env (task_log agent user_prompt st)
         (h ++ SessionGet agent_id :: wl)%list) = Ok id ->
  attempt env agent_id user_prompt image_path h
  = SessionGet agent_id
    :: match tools_guard env agent with
       | Ok _ =>
           (wl ++ storing (task_log agent user_prompt st)
            ++ [Yield "final" (result_payload env agent id st)])%list
       | Raise e => [Yield "error" ("Fatal error: " ++ exc_text e)]
       end.
Proof.
  intros Hget Hloop Hstore. unfold attempt. rewrite Hget, run_agent_eq.
  destruct (tools_guard env agent) as [[] | e]; [| reflexivity].
  unfold loop_of in Hloop. rewrite Hloop.
  rewrite <- app_assoc. simpl app.
  destruct (store_log env (task_log agent user_prompt st)
              (h ++ SessionGet agent_id :: wl)%list) as [[id' | e] ws] eqn:Hs;
    simpl in Hstore; [| discriminate].
  inversion Hstore; subst id'.
  rewrite (store_log_ok _ _ _ _ _ Hs). reflexivity.
Qed.

(** X8.  A reply of plain text (no tool call, no pair of braces) ends the
    run after one query: the text is the final answer, stored and returned,
    and the stored transcript is the prompt line followed by that thought.
    The session is closed last, and the done event follows when that
    returns; when decoding the tool list of the agent raises, the error
    event stands where the query would. *)
Theorem plain_answer_is_final :
  forall env agent_id user_prompt image_path h agent msg others text id,
    let model := model_of agent in
    let schemas := _get_tool_schemas env agent in
    let st0 := first_state env agent user_prompt image_path in
    let y := Yield "thought" (querying 0 model) in
    let c := ChatCompletion model (messages st0) schemas in
    let st := answered st0 0 text in
    let log := task_log agent user_prompt st in
    session_get env h agent_id = Ok (Some agent) ->
    chat_create env (h ++ [SessionGet agent_id; y])%list model (messages st0) schemas
    = Ok (msg :: others) ->
    content msg = Some text ->
    PyStr.nonempty text = true ->
    tool_calls msg = [] ->
    search_braces text = None ->
    fst (store_log env log
           (h ++ [SessionGet agent_id; y; c; Yield "thought" text])%list) = Ok id ->
    stream_agent_task env agent_id user_prompt image_path h
    = ended env h
        (SessionGet agent_id
         :: match tools_guard env agent with
            | Ok _ =>
                (y :: c :: Yield "thought" text
                 :: storing log
                 ++ [Yield "final" (result_payload env agent id st)])%list
            | Raise e => [Yield "error" ("Fatal error: " ++ exc_text e)]
            end)
    /\ final_output log = text
    /\ thought_process log
       = PyStr.join PyStr.nl
           (thought_log st0 ++ [("THOUGHT (step 0): " ++ text)%string])%list.
Proof.
  intros env agent_id user_prompt image_path h agent msg others text id
         model schemas st0 y c st log Hget Hchat Hcontent Hne Htc Hbr Hstore.
  split; [| split; reflexivity].
  rewrite stream_eq.
  rewrite (attempt_of_loop env agent_id user_prompt image_path h agent st
             [y; c; Yield "thought" text] id Hget).
  - reflexivity.
  - unfold loop_of. fold model schemas st0.
    change (seq 0 MAX_REACT_STEPS) with (0 :: seq 1 9).
    cbn [react_loop]. unfold react_step. fold (querying 0 model). fold y.
    unfold bind at 1. unfold bind at 1. unfold yield_ at 1. unfold emit at 1.
    cbv beta iota. rewrite bind_ask. fold c.
    rewrite <- app_assoc. simpl app at 1. fold y. rewrite Hchat.
    unfold handle_reply, _parse_inline_tool_call, bind, ret, yield_, emit.
    cbv beta iota zeta. rewrite Hcontent, Htc. cbv beta iota.
    rewrite !Hne. cbv beta iota. cbn [negb]. rewrite Hbr. reflexivity.
  - exact Hstore.
Qed.

Lemma plain_answer_is_final_witness :
  events_of (snd (stream_agent_task (Demo.env_of (Demo.scripted [Demo.says "All good."]))
                    1 "hi" None []))
  = [ ("thought", querying 0 DEFAULT_MODEL_NAME); ("thought", "All good.");
      ("final",
        "{" ++ Demo.q "task_log_id" ++ ": 7, " ++ Demo.q "agent_id" ++ ": 1, "
        ++ Demo.q "final_output" ++ ": " ++ Demo.q "All good." ++ ", "
        ++ Demo.q "artifact_path" ++ ": null}");
      ("done", "[DONE]") ].
Proof.
  destruct (plain_answer_is_final (Demo.env_of (Demo.scripted [Demo.says "All good."]))
              1 "hi" None [] Demo.agent1 (Demo.says "All good.") [] "All good." 7)
    as (Hrun & _); [reflexivity .. |].
  rewrite Hrun. reflexivity.
Defined.

(** A drained call, an inline call and so a step that continues leave the
    final answer as it was. *)
Lemma drain_keeps_answer env step model_name tcs :
  forall st,
    ensures (fun st' => final_answer st' = final_answer st)
            (drain_tool_calls env step model_name st tcs).
Proof.
  induction tcs as [| tc tcs IH]; intros st.
  - apply ensures_ret. reflexivity.
  - simpl.
    eapply ensures_bind with (Q1 := fun st1 => final_answer st1 = final_answer st).
    + unfold run_tool_call. cbv zeta.
      eapply ensures_bind; [apply ensures_true | intros _ _].
      eapply ensures_bind; [apply ensures_true | intros [obs art] _].
      eapply ensures_bind; [apply ensures_true | intros _ _].
      apply ensures_ret. reflexivity.
    + intros st1 H1 h st2 w H. rewrite <- H1. exact (IH st1 h st2 w H).
Qed.

Lemma inline_keeps_answer env step model_name st t_name t_args :
  ensures (fun st' => final_answer st' = final_answer st)
          (run_inline_call env step model_name st t_name t_args).
Proof.
  unfold run_inline_call. cbv zeta.
  eapply ensures_bind; [apply ensures_true | intros _ _].
  eapply ensures_bind; [apply ensures_true | intros [obs art] _].
  eapply ensures_bind; [apply ensures_true | intros _ _].
  apply ensures_ret. reflexivity.
Qed.

Lemma handle_reply_keeps_answer env model_name step st choices :
  ensures (fun cs => fst cs = Continue -> final_answer (snd cs) = final_answer st)
          (handle_reply env model_name step st choices).
Proof.
  unfold handle_reply.
  eapply ensures_bind; [apply ensures_true | intros message _]. cbv zeta.
  eapply ensures_bind with (Q1 := fun st1 => final_answer st1 = final_answer st).
  - destruct (PyStr.nonempty _).
    + eapply ensures_bind; [apply ensures_true | intros _ _].
      apply ensures_ret. reflexivity.
    + apply ensures_ret. reflexivity.
  - intros st1 Hst1. destruct (tool_calls message).
    + destruct (PyStr.nonempty _).
      * eapply ensures_bind; [apply ensures_true | intros parsed _].
        destruct parsed as [[t_name t_args] |].
        -- eapply ensures_bind; [apply inline_keeps_answer | intros st2 Hst2].
           apply ensures_ret. simpl. intros _. congruence.
        -- apply ensures_ret. simpl. discriminate.
      * apply ensures_ret. simpl. discriminate.
    + eapply ensures_bind; [apply drain_keeps_answer | intros st2 Hst2].
      apply ensures_ret. simpl. intros _. congruence.
Qed.

(** When every reply asks for a tool, the loop uses every step. *)
Lemma react_loop_exhausts env model_name schemas :
  (forall h model msgs tools,
      exists msg others,
        chat_create env h model msgs tools = Ok (msg :: others)
        /\ 1 <= List.length (tool_calls msg)
        /\ forall tc, In tc (tool_calls msg) ->
                      decodes env (call_arguments tc) = true) ->
  forall steps st h,
  exists st' w,
    react_loop env model_name schemas steps st h = (Ok st', w)
    /\ queries w = List.length steps
    /\ final_answer st' = final_answer st.
Proof.
  intros Hchat. induction steps as [| step steps IH]; intros st h.
  - exists st, []. auto.
  - set (y := Yield "thought" (querying step model_name)).
    set (c := ChatCompletion model_name (messages st) schemas).
    destruct (Hchat (h ++ [y])%list model_name (messages st) schemas)
      as (msg & others & Hreply & Hn & Hd).
    destruct (handle_reply_tool_calls env model_name step st msg others
                ((h ++ [y]) ++ [c])%list Hn Hd)
      as (st1 & observations & w1 & Hrun & _ & Hre & _ & _).
    pose proof (handle_reply_keeps_answer env model_name step st _ _ _ _ Hrun eq_refl)
      as Hans.
    simpl in Hans.
    destruct (reply_effects_quiet _ Hre) as (Q1 & _).
    destruct (IH st1 (h ++ y :: c :: w1)%list) as (st2 & w2 & Hrest & Hq & Hf).
    exists st2, (y :: c :: w1 ++ w2)%list.
    split; [| split].
    + cbn [react_loop]. unfold react_step. fold (querying step model_name). fold y.
      unfold bind at 1. unfold bind at 1. unfold yield_ at 1. unfold emit at 1.
      cbv beta iota. rewrite bind_ask. fold y. fold c. rewrite Hreply, Hrun.
      cbv beta iota. simpl app. rewrite Hrest. reflexivity.
    + change (y :: c :: w1 ++ w2)%list with ([y; c] ++ w1 ++ w2)%list.
      rewrite !queries_app, Q1, Hq. reflexivity.
    + congruence.
Qed.

(** X9.  When every reply of the model asks for a tool, with argument
    texts that the decoder decodes or refuses, and the tool list of the
    agent decodes likewise, the run queries the model [MAX_REACT_STEPS]
    times, then stores and returns the text that stands for a missing
    answer; the session is closed last, and the done event follows when
    that returns. *)
Theorem tool_calls_exhaust_the_budget :
  forall env agent_id user_prompt image_path h agent,
    session_get env h agent_id = Ok (Some agent) ->
    tools_guard env agent = Ok tt ->
    (forall h' model msgs tools,
        exists msg others,
          chat_create env h' model msgs tools = Ok (msg :: others)
          /\ 1 <= List.length (tool_calls msg)
          /\ forall tc, In tc (tool_calls msg) ->
                        decodes env (call_arguments tc) = true) ->
    (forall h' log, exists id, fst (store_log env log h') = Ok id) ->
    exists wl st id,
      stream_agent_task env agent_id user_prompt image_path h
      = ended env h
          (SessionGet agent_id :: wl
           ++ storing (task_log agent user_prompt st)
           ++ [Yield "final" (result_payload env agent id st)])%list
      /\ queries wl = MAX_REACT_STEPS
      /\ final_output (task_log agent user_prompt st) = NO_FINAL_TEXT.
Proof.
  intros env agent_id user_prompt image_path h agent Hget Hguard Hchat Hstore.
  destruct (react_loop_exhausts env (model_of agent) (_get_tool_schemas env agent)
              Hchat (seq 0 MAX_REACT_STEPS)
              (first_state env agent user_prompt image_path)
              (h ++ [SessionGet agent_id])%list) as (st & wl & Hloop & Hq & Hf).
  destruct (Hstore (h ++ SessionGet agent_id :: wl)%list
              (task_log agent user_prompt st)) as (id & Hid).
  exists wl, st, id. split; [| split].
  - rewrite stream_eq.
    rewrite (attempt_of_loop env agent_id user_prompt image_path h agent st wl id
               Hget Hloop Hid).
    rewrite Hguard. reflexivity.
  - rewrite Hq. apply length_seq.
  - unfold task_log, final_text. simpl. rewrite Hf. reflexivity.
Qed.

Lemma tool_calls_exhaust_the_budget_witness :
  exists wl st id,
    stream_agent_task (Demo.env_of (fun _ _ => Ok [Demo.calls Demo.two_calls]))
      1 "hi" None []
    = (Ok tt,
       (SessionGet 1 :: wl
        ++ storing (task_log Demo.agent1 "hi" st)
        ++ [Yield "final"
              (result_payload (Demo.env_of (fun _ _ => Ok [Demo.calls Demo.two_calls]))
                 Demo.agent1 id st);
            SessionClose; Yield "done" "[DONE]"])%list)
    /\ queries wl = MAX_REACT_STEPS
    /\ final_output (task_log Demo.agent1 "hi" st) = NO_FINAL_TEXT.
Proof.
  destruct (tool_calls_exhaust_the_budget
              (Demo.env_of (fun _ _ => Ok [Demo.calls Demo.two_calls]))
              1 "hi" None [] Demo.agent1) as (wl & st & id & Hrun & Hq & Hf).
  - reflexivity.
  - reflexivity.
  - intros h' model msgs tools. exists (Demo.calls Demo.two_calls), [].
    split; [reflexivity | split; [simpl; lia |]].
    intros tc [<- | [<- | []]]; reflexivity.
  - intros h' log. exists 7%Z. reflexivity.
  - exists wl, st, id. split; [| split; [exact Hq | exact Hf]].
    rewrite Hrun. unfold ended. cbn [io_raises Demo.env_of].
    f_equal. rewrite <- app_comm_cons, <- !app_assoc. reflexivity.
Defined.
(** ** The order and the results of a workflow run *)

Lemma keys_update_iff {A} k (v : A) d x :
  In x (keys (update k v d)) <-> x = k \/ In x (keys d).
Proof.
  split.
  - intros H. apply keys_update in H. destruct H as [<- | H]; auto.
  - induction d as [| [k' v'] d IH]; simpl.
    + intros [-> | []]. left. reflexivity.
    + destruct (String.eqb k k') eqn:Ek; simpl.
      * apply String.eqb_eq in Ek. subst k'. intros [-> | [<- | H]]; auto.
      * intros [-> | [<- | H]]; auto.
Qed.

Lemma lookup_of_key {A} k (d : list (string * A)) :
  In k (keys d) -> exists v, lookup k d = Some v /\ In (k, v) d.
Proof.
  induction d as [| [k' v'] d IH]; simpl; [tauto |].
  destruct (String.eqb k k') eqn:Ek.
  - apply String.eqb_eq in Ek. subst k'. intros _. exists v'. auto.
  - apply String.eqb_neq in Ek. intros [E | H]; [congruence |].
    destruct (IH H) as (v & Hv & Hin). exists v. auto.
Qed.

Lemma edge_of_parent g p x :
  In p (get_or x [] (incoming_of g)) <-> In (p, x) (graph_edges g).
Proof.
  split; [| apply parent_of_edge].
  rewrite parents_of_edges, in_map_iff.
  intros ([s t] & E & Hin). apply filter_In in Hin. destruct Hin as [Hin Ht].
  simpl in *. apply String.eqb_eq in Ht. subst. exact Hin.
Qed.

Lemma edge_of_child g p x :
  In x (get_or p [] (outgoing_of g)) <-> In (p, x) (graph_edges g).
Proof.
  rewrite children_of_edges, in_map_iff. split.
  - intros ([s t] & E & Hin). apply filter_In in Hin. destruct Hin as [Hin Hs].
    simpl in *. apply String.eqb_eq in Hs. subst. exact Hin.
  - intros Hin. exists (p, x). split; [reflexivity |].
    apply filter_In. split; [exact Hin | apply String.eqb_refl].
Qed.

(** The nodes are among the keys of [incoming]. *)
Lemma nodes_in_incoming g x :
  In x (keys (nodes_of g)) -> In x (keys (incoming_of g)).
Proof.
  unfold incoming_of. intros H.
  assert (H0 : In x (keys (empty_lists (nodes_of g)))).
  { unfold empty_lists, keys. rewrite map_map. exact H. }
  revert H0. generalize (empty_lists (nodes_of g)).
  induction (graph_edges g) as [| e es IH]; intros d Hd; simpl; [exact Hd |].
  apply IH. unfold setdefault_append. apply keys_update_iff. right. exact Hd.
Qed.

(** A key of [incoming] without parents is in the first queue. *)
Lemma no_parent_initial_ready g x :
  In x (keys (incoming_of g)) ->
  get_or x [] (incoming_of g) = [] ->
  In x (ready (initial_state (incoming_of g))).
Proof.
  intros Hk Hp. destruct (lookup_of_key _ _ Hk) as (v & Hv & Hin).
  unfold get_or in Hp. rewrite Hv in Hp. subst v.
  unfold initial_state. simpl. apply in_map_iff. exists (x, []).
  split; [reflexivity |]. apply filter_In. split; [exact Hin | reflexivity].
Qed.

Section Order.
Variables (env : Env) (g : graph).

Let pa := fun x => get_or x [] (incoming_of g).
Let ch := fun x => get_or x [] (outgoing_of g).

Lemma while_ready_order :
  forall fuel st h,
    (forall x p, In x (ready st) -> In p (pa x) -> In p (completed st)) ->
    forall pre nid suf p,
      run_order (while_ready env fuel (nodes_of g) (incoming_of g) (outgoing_of g) st h)
      = (pre ++ nid :: suf)%list ->
      In p (pa nid) ->
      In p (completed st) \/ In p pre.
Proof.
  induction fuel as [| fuel IH]; intros st h Hq pre nid suf p Hrun Hp.
  - simpl in Hrun. destruct pre; discriminate.
  - simpl in Hrun. destruct (ready st) as [| nid0 rest] eqn:Hready.
    + simpl in Hrun. destruct pre; discriminate.
    + destruct (run_node env (nodes_of g) (incoming_of g) (outgoing_of g) _ nid0 h)
        as [[st' | e] w] eqn:Hnode; simpl in Hrun.
      * apply run_node_ok in Hnode. simpl in Hnode.
        destruct Hnode as (_ & Hr & Hc & _).
        destruct pre as [| a pre']; simpl in Hrun; inversion Hrun; subst.
        -- left. apply (Hq nid p); [left; reflexivity | exact Hp].
        -- destruct (IH st' (h ++ w)%list) with (pre := pre') (nid := nid)
             (suf := suf) (p := p) as [Hin | Hin]; auto.
           ++ intros x q Hx Hxq. rewrite Hc. rewrite Hr in Hx.
              apply in_app_iff in Hx. destruct Hx as [Hx | Hx].
              ** apply set_add_in. right. apply (Hq x q); [right; exact Hx | exact Hxq].
              ** exact (joining_parents _ _ _ _ _ _ Hx Hxq).
           ++ rewrite Hc in Hin. apply set_add_in in Hin.
              destruct Hin as [-> | Hin]; [right; left; reflexivity | left; exact Hin].
           ++ right. right. exact Hin.
      * destruct pre as [| a pre']; simpl in Hrun; inversion Hrun; subst.
        -- left. apply (Hq nid p); [left; reflexivity | exact Hp].
        -- destruct pre'; discriminate.
Qed.

Lemma while_ready_results :
  forall fuel st h res,
    let r := while_ready env fuel (nodes_of g) (incoming_of g) (outgoing_of g) st h in
    run_outcome r = Finished res ->
    NoDup (keys (results st)) ->
    (forall x, In x (keys res) <-> In x (keys (results st)) \/ In x (run_order r))
    /\ incl (run_order r) (keys (nodes_of g))
    /\ NoDup (keys res).
Proof.
  induction fuel as [| fuel IH]; intros st h res r Hfin Hnd; subst r.
  - discriminate.
  - simpl in *. destruct (ready st) as [| nid rest] eqn:Hready.
    + simpl in *. inversion Hfin; subst.
      split; [intros x; tauto | split; [intros x [] | exact Hnd]].
    + destruct (run_node env (nodes_of g) (incoming_of g) (outgoing_of g) _ nid h)
        as [[st' | e] w] eqn:Hnode; simpl in *; [| discriminate].
      apply run_node_ok in Hnode. simpl in Hnode.
      destruct Hnode as (Hk & _ & _ & (v & Hres)).
      destruct (IH st' (h ++ w)%list res Hfin) as (I1 & I2 & I3).
      { rewrite Hres. apply update_keys_NoDup. exact Hnd. }
      split; [| split; [| exact I3]].
      * intros x. rewrite I1, Hres, keys_update_iff. simpl.
        split; [intros [[-> | H] | H] | intros [H | [<- | H]]]; auto.
      * intros x [<- | Hx]; [exact Hk | exact (I2 x Hx)].
Qed.

Lemma while_ready_complete :
  forall fuel st h res,
    run_outcome (while_ready env fuel (nodes_of g) (incoming_of g) (outgoing_of g) st h)
    = Finished res ->
    (forall x, In x (completed st) <-> In x (keys (results st))) ->
    (forall x, In x (keys (incoming_of g)) ->
               (forall p, In p (pa x) -> In p (completed st)) ->
               In x (ready st) \/ In x (completed st)) ->
    forall x, In x (keys (incoming_of g)) ->
              (forall p, In p (pa x) -> In p (keys res)) ->
              In x (keys res).
Proof.
  induction fuel as [| fuel IH]; intros st h res Hfin Hsame Hinv x Hx Hpx.
  - discriminate.
  - simpl in Hfin. destruct (ready st) as [| nid rest] eqn:Hready.
    + simpl in Hfin. inversion Hfin; subst res.
      destruct (Hinv x Hx) as [[] | Hc].
      * intros p Hp. apply Hsame. exact (Hpx p Hp).
      * apply Hsame. exact Hc.
    + destruct (run_node env (nodes_of g) (incoming_of g) (outgoing_of g) _ nid h)
        as [[st' | e] w] eqn:Hnode; simpl in Hfin; [| discriminate].
      apply run_node_ok in Hnode. simpl in Hnode.
      destruct Hnode as (_ & Hr & Hc & (v & Hres)).
      apply (IH st' (h ++ w)%list res Hfin); auto.
      * intros y. rewrite Hc, Hres, set_add_in, keys_update_iff, Hsame. tauto.
      * intros y Hy Hpy. rewrite Hr, Hc, in_app_iff, set_add_in.
        destruct (forallb (fun p => mem p (completed st)) (pa y)) eqn:Hall.
        -- rewrite forallb_forall in Hall.
           destruct (Hinv y Hy) as [[<- | Hin] | Hin]; auto.
           intros p Hp. apply mem_In. exact (Hall p Hp).
        -- left. right.
           assert (Hnid : In nid (pa y)).
           { destruct (in_dec string_dec nid (pa y)) as [H | H]; [exact H |].
             exfalso. assert (Ht : forallb (fun p => mem p (completed st)) (pa y) = true).
             { apply forallb_forall. intros p Hp. apply mem_In.
               specialize (Hpy p Hp). rewrite Hc in Hpy. apply set_add_in in Hpy.
               destruct Hpy as [-> | Hpy]; [tauto | exact Hpy]. }
             congruence. }
           unfold joining. apply filter_In. split.
           ++ apply edge_of_child. apply edge_of_parent. exact Hnid.
           ++ apply forallb_forall. intros p Hp. apply mem_In.
              rewrite <- Hc. exact (Hpy p Hp).
Qed.

End Order.

Lemma execute_graph_order env fuel g h :
  run_order (execute_graph env fuel g h)
  = run_order (while_ready env fuel (nodes_of g) (incoming_of g) (outgoing_of g)
                 (initial_state (incoming_of g)) h).
Proof.
  unfold execute_graph. cbv zeta.
  destruct (run_outcome (while_ready env fuel _ _ _ _ h)); reflexivity.
Qed.

Lemma execute_graph_finished env fuel g h res :
  run_outcome (execute_graph env fuel g h) = Finished res ->
  run_outcome (while_ready env fuel (nodes_of g) (incoming_of g) (outgoing_of g)
                 (initial_state (incoming_of g)) h) = Finished res.
Proof.
  unfold execute_graph. cbv zeta.
  destruct (run_outcome (while_ready env fuel _ _ _ _ h)) eqn:Ho; simpl;
    intros H;
    try (destruct (io_raises env _ SessionClose); [discriminate |]);
    first [exact H | rewrite Ho in H; exact H].
Qed.

(** X10.  A node runs only after its parents: whenever a node is taken
    from the queue, the source of each of its incoming edges has been run
    before, however the run ends. *)
Theorem parents_run_first :
  forall env g fuel h pre nid suf p,
    run_order (execute_graph env fuel g h) = (pre ++ nid :: suf)%list ->
    In (p, nid) (graph_edges g) ->
    In p pre.
Proof.
  intros env g fuel h pre nid suf p Hrun Hedge.
  rewrite execute_graph_order in Hrun.
  destruct (while_ready_order env g fuel (initial_state (incoming_of g)) h)
    with (pre := pre) (nid := nid) (suf := suf) (p := p) as [[] | Hin]; auto.
  - intros x q Hx Hq. apply initial_ready_no_parent in Hx.
    rewrite Hx in Hq. destruct Hq.
  - apply parent_of_edge. exact Hedge.
Qed.

Lemma parents_run_first_witness : In "B" ["A"; "B"].
Proof.
  apply (parents_run_first Demo.env0 Demo.chain_graph 5 [] ["A"; "B"] "C" [] "B").
  - reflexivity.
  - simpl. auto.
Defined.

(** X11.  The results of a finished run are those of the nodes that were
    run, one entry for each, and every one of them is a node of the graph. *)
Theorem results_of_executed_nodes :
  forall env g fuel h res,
    let r := execute_graph env fuel g h in
    run_outcome r = Finished res ->
    (forall x, In x (keys res) <-> In x (run_order r))
    /\ incl (keys res) (keys (nodes_of g))
    /\ NoDup (keys res).
Proof.
  intros env g fuel h res r Hfin. subst r.
  rewrite execute_graph_order. apply execute_graph_finished in Hfin.
  destruct (while_ready_results env g fuel (initial_state (incoming_of g)) h res Hfin)
    as (H1 & H2 & H3); [constructor |].
  split; [| split; [| exact H3]].
  - intros x. rewrite H1. simpl. tauto.
  - intros x Hx. apply H2. apply H1 in Hx. simpl in Hx. tauto.
Qed.

Lemma results_of_executed_nodes_witness :
  incl ["A"; "B"; "C"] (keys (nodes_of Demo.chain_graph)).
Proof.
  destruct (results_of_executed_nodes Demo.env0 Demo.chain_graph 5 []
              [("A", VStr "https://example.org"); ("B", VStr "page text");
               ("C", VStr "page text")])
    as (_ & H & _).
  - reflexivity.
  - exact H.
Defined.

(** X12.  A finished run has left no node out that could run: a node all
    of whose incoming edges come from nodes with a result has a result
    itself, and so has every node without incoming edges. *)
Theorem finished_run_is_complete :
  forall env g fuel h res x,
    run_outcome (execute_graph env fuel g h) = Finished res ->
    In x (keys (nodes_of g)) ->
    (forall p, In (p, x) (graph_edges g) -> In p (keys res)) ->
    In x (keys res).
Proof.
  intros env g fuel h res x Hfin Hx Hpx.
  apply execute_graph_finished in Hfin.
  apply (while_ready_complete env g fuel (initial_state (incoming_of g)) h res Hfin).
  - intros y. simpl. tauto.
  - intros y Hy Hpy. left. apply no_parent_initial_ready; [exact Hy |].
    destruct (get_or y [] (incoming_of g)) as [| p ps] eqn:E; [reflexivity |].
    destruct (Hpy p). left. reflexivity.
  - apply nodes_in_incoming. exact Hx.
  - intros p Hp. apply Hpx. apply edge_of_parent. exact Hp.
Qed.

Lemma finished_run_is_complete_witness :
  In "C" (keys [("A", VStr "https://example.org"); ("B", VStr "page text");
                ("C", VStr "page text")]).
Proof.
  apply (finished_run_is_complete Demo.env0 Demo.chain_graph 5 [] _ "C").
  - reflexivity.
  - simpl. auto.
  - intros p Hp. simpl in Hp.
    destruct Hp as [Hp | [Hp | []]]; inversion Hp; subst. simpl. auto.
Defined.

(** ** Where the documents are written *)

Lemma split_components sep s :
  forallb (fun c => negb (has_char sep c)) (PyStr.split sep s) = true.
Proof.
  induction s as [| x s IH]; [reflexivity |].
  simpl. destruct (Ascii.eqb x sep) eqn:E; [exact IH |].
  destruct (PyStr.split sep s) as [| w ws]; simpl in *.
  - rewrite E. reflexivity.
  - rewrite E. exact IH.
Qed.

Lemma parts_of_components s : forallb component (Posix.parts_of s) = true.
Proof.
  unfold Posix.parts_of. pose proof (split_components "/" s) as H.
  induction (PyStr.split "/" s) as [| c l IH]; [reflexivity |].
  simpl in *. apply andb_prop in H. destruct H as [Hc Hl].
  destruct (negb (String.eqb c EmptyString || String.eqb c ".")) eqn:E; [| exact (IH Hl)].
  simpl. unfold component at 1. rewrite Hc, E. exact (IH Hl).
Qed.

Lemma component_inv c :
  component c = true ->
  has_char "/" c = false /\ negb (String.eqb c EmptyString || String.eqb c ".") = true.
Proof.
  unfold component. intros H. apply andb_prop in H. destruct H as [H1 H2].
  apply negb_true_iff in H1. auto.
Qed.

Lemma parts_of_component c : component c = true -> Posix.parts_of c = [c].
Proof.
  intros H. apply component_inv in H. destruct H as [Hs Hn].
  unfold Posix.parts_of. rewrite (split_no_sep _ _ Hs). simpl. rewrite Hn. reflexivity.
Qed.

Lemma join_cons x y l :
  String.concat "/" (x :: y :: l)
  = (x ++ String "/" (String.concat "/" (y :: l)))%string.
Proof. reflexivity. Qed.

(** The components of a joined path are the components joined. *)
Lemma parts_of_join l :
  forallb component l = true -> Posix.parts_of (PyStr.join "/" l) = l.
Proof.
  unfold PyStr.join. induction l as [| x [| y l] IH]; intros H.
  - reflexivity.
  - simpl in H. apply andb_prop in H. destruct H as [Hx _].
    apply parts_of_component. exact Hx.
  - cbn [forallb] in H. apply andb_prop in H. destruct H as [Hx Hl].
    rewrite join_cons.
    destruct (component_inv _ Hx) as [Hs Hn].
    unfold Posix.parts_of in *. rewrite (split_at_sep _ _ _ Hs).
    cbn [filter]. rewrite Hn, (IH Hl). reflexivity.
Qed.

Lemma parts_of_rooted l :
  forallb component l = true ->
  Posix.parts_of ("/" ++ PyStr.join "/" l) = l.
Proof.
  intros H. rewrite <- (parts_of_join l H) at 2. reflexivity.
Qed.

Lemma normalize_plain comps :
  forall seen,
    forallb not_parent comps = true ->
    Posix.normalize seen comps = (rev seen ++ comps)%list.
Proof.
  induction comps as [| c cs IH]; intros seen H; simpl.
  - rewrite app_nil_r. reflexivity.
  - simpl in H. apply andb_prop in H. destruct H as [Hc Hcs].
    unfold not_parent in Hc. apply negb_true_iff in Hc. rewrite Hc.
    rewrite (IH _ Hcs). simpl. rewrite <- app_assoc. reflexivity.
Qed.

Lemma within_app dir tail : Posix.within dir (dir ++ tail) = true.
Proof.
  induction dir as [| d dir IH]; [reflexivity |].
  simpl. rewrite String.eqb_refl. exact IH.
Qed.

Lemma proper_split l :
  forallb proper l = true ->
  forallb component l = true /\ forallb not_parent l = true.
Proof.
  induction l as [| c l IH]; [auto |].
  simpl. intros H. apply andb_prop in H. destruct H as [Hc Hl].
  unfold proper in Hc. apply andb_prop in Hc. destruct Hc as [H1 H2].
  destruct (IH Hl) as [I1 I2]. rewrite H1, H2, I1, I2. auto.
Qed.

Lemma proper_join l :
  forallb component l = true -> forallb not_parent l = true ->
  forallb proper l = true.
Proof.
  induction l as [| c l IH]; [auto |].
  simpl. intros H1 H2. apply andb_prop in H1. apply andb_prop in H2.
  destruct H1 as [A1 A2]. destruct H2 as [B1 B2].
  unfold proper. rewrite A1, B1. exact (IH A2 B2).
Qed.

(** The directory of the reports, and a path written below it. *)
Lemma reports_dir_parts cwd :
  forallb proper cwd = true ->
  Posix.abs_parts cwd "reports" = (cwd ++ ["reports"])%list.
Proof.
  intros H. destruct (proper_split _ H) as [_ Hn].
  unfold Posix.abs_parts.
  change (Posix.isabs "reports") with false.
  change (Posix.parts_of "reports") with ["reports"]. cbv iota.
  apply normalize_plain. rewrite forallb_app, Hn. reflexivity.
Qed.

Lemma isabs_rooted s : Posix.isabs ("/" ++ s) = true.
Proof.
  unfold Posix.isabs, PyStr.startswith.
  change ("/" ++ s)%string with (String "/" s). rewrite prefix_cons.
  destruct s; reflexivity.
Qed.

Lemma rooted_abs_parts cwd l :
  forallb proper l = true ->
  Posix.abs_parts cwd ("/" ++ PyStr.join "/" l) = l.
Proof.
  intros H. destruct (proper_split _ H) as [Hc Hn].
  unfold Posix.abs_parts.
  rewrite isabs_rooted.
  rewrite (parts_of_rooted _ Hc). apply normalize_plain. exact Hn.
Qed.

Lemma emits_bind_ret {A B} P (a : A) (k : A -> M B) :
  emits P (k a) -> emits P (bind (ret a) k).
Proof.
  intros H h. unfold bind, ret. specialize (H (h ++ [])%list).
  destruct (k a (h ++ [])%list) as [r w]. exact H.
Qed.

Lemma generate_report_under env title body f dir :
  Posix.within dir (Posix.abs_parts (cwd env) (Posix.abspath (cwd env) f)) = true ->
  emits (writes_under env dir) (generate_report env title body f).
Proof.
  intros H. unfold generate_report.
  apply emits_bind; [apply emits_perform; reflexivity | intros _]. cbv zeta.
  apply emits_bind; [apply emits_perform; reflexivity | intros _].
  apply emits_bind; [apply emits_perform; exact H | intros _].
  apply emits_ret.
Qed.

Lemma last_forallb {A} (P : A -> bool) l d :
  forallb P l = true -> l <> [] -> P (last l d) = true.
Proof.
  induction l as [| x [| y l] IH]; intros H Hne.
  - congruence.
  - simpl in *. apply andb_prop in H. tauto.
  - cbn [forallb] in H. apply andb_prop in H. destruct H as [_ H].
    change (last (x :: y :: l) d) with (last (y :: l) d).
    apply IH; [exact H | discriminate].
Qed.

(** The components of the last component of a path. *)
Lemma parts_of_name f :
  Posix.name (Posix.Path_of f) <> ".." ->
  Posix.isabs (Posix.name (Posix.Path_of f)) = false
  /\ forallb proper (Posix.parts_of (Posix.name (Posix.Path_of f))) = true.
Proof.
  unfold Posix.name. cbn [Posix.parts Posix.Path_of]. intros Hne.
  destruct (Posix.parts_of f) as [| c l] eqn:E; [split; reflexivity |].
  assert (Hc : component (last (c :: l) EmptyString) = true).
  { apply last_forallb; [| discriminate]. rewrite <- E. apply parts_of_components. }
  set (n := last (c :: l) EmptyString) in *.
  destruct (component_inv _ Hc) as [Hs _]. split.
  - unfold Posix.isabs, PyStr.startswith.
    destruct n as [| x n']; [reflexivity |].
    rewrite prefix_cons. simpl in Hs. apply orb_false_iff in Hs.
    destruct Hs as [Hx _]. rewrite Hx. reflexivity.
  - rewrite (parts_of_component _ Hc). simpl. unfold proper, not_parent.
    rewrite Hc. apply String.eqb_neq in Hne. rewrite Hne. reflexivity.
Qed.

(** X13.  The document node writes inside the reports directory: whatever
    the file name in its configuration, as long as the last component of
    that name is not [..], the file is written in the resolved [reports]
    directory of the process. *)
Theorem pdf_node_writes_in_reports :
  forall env node_id d f data h p,
    forallb proper (cwd env) = true ->
    get_or "filename" (VStr "workflow_report.pdf") d = VStr f ->
    Posix.name (Posix.Path_of f) <> ".." ->
    In (PdfOutput p)
       (snd (_execute_node env node_id (VStr "tool") (VStr "pdf_report")
               (VDict d) data h)) ->
    Posix.within (Posix.parts (WorkflowExecutor.REPORTS_DIR env))
      (Posix.abs_parts (cwd env) p) = true.
Proof.
  intros env node_id d f data h p Hcwd Hf Hname Hin.
  assert (He : emits (writes_under env (Posix.parts (WorkflowExecutor.REPORTS_DIR env)))
                 (_execute_node env node_id (VStr "tool") (VStr "pdf_report")
                    (VDict d) data)).
  { unfold _execute_node. cbn [eq_str String.eqb Ascii.eqb Bool.eqb].
    cbv iota. unfold attr_get. apply emits_bind_ret. cbv zeta.
    destruct (parts_of_name f Hname) as [Habs Hparts].
    unfold WorkflowExecutor.REPORTS_DIR, Posix.resolve, Posix.joinpath.
    cbn [Posix.anchored Posix.parts Posix.Path_of].
    rewrite (reports_dir_parts _ Hcwd), Hf, Habs.
    apply emits_bind; [apply emits_perform; reflexivity | intros _].
    apply emits_bind; [| intros _; apply emits_ret].
    apply generate_report_under.
    unfold Posix.str, Posix.abspath. cbn [Posix.anchored Posix.parts].
    assert (Hall : forallb proper
                     ((cwd env ++ ["reports"])
                      ++ Posix.parts_of (Posix.name (Posix.Path_of f)))%list = true).
    { rewrite !forallb_app, Hcwd, Hparts. reflexivity. }
    rewrite !(rooted_abs_parts _ _ Hall). apply within_app. }
  specialize (He h). rewrite forallb_forall in He. exact (He _ Hin).
Qed.

Lemma pdf_node_writes_in_reports_witness :
  Posix.within (Posix.parts (WorkflowExecutor.REPORTS_DIR Demo.env0))
    (Posix.abs_parts (cwd Demo.env0) "/srv/app/reports/escape.pdf") = true.
Proof.
  apply (pdf_node_writes_in_reports Demo.env0 "n"
           [("filename", VStr "../../escape.pdf")] "../../escape.pdf"
           (VStr "text") []).
  - reflexivity.
  - reflexivity.
  - vm_compute. discriminate.
  - vm_compute. right. right. right. left. reflexivity.
Defined.

(** The file name the invoker uses, and its components. *)
Lemma basename_parts raw :
  forallb not_parent (Posix.parts_of raw) = true ->
  Posix.isabs (Posix.basename raw) = false
  /\ forallb proper (Posix.parts_of (Posix.basename raw)) = true.
Proof.
  intros Hraw. unfold Posix.basename.
  assert (Hne : PyStr.split "/" raw <> []).
  { destruct raw as [| x raw]; simpl; [discriminate |].
    destruct (Ascii.eqb x "/"); [discriminate |].
    destruct (PyStr.split "/" raw); discriminate. }
  pose proof (last_forallb _ _ EmptyString (split_components "/" raw) Hne) as Hs.
  apply negb_true_iff in Hs.
  assert (Hin : In (last (PyStr.split "/" raw) EmptyString) (PyStr.split "/" raw)).
  { destruct (exists_last Hne) as (l' & a & E). rewrite E, last_last.
    apply in_app_iff. right. left. reflexivity. }
  set (b := last (PyStr.split "/" raw) EmptyString) in *.
  split.
  - unfold Posix.isabs, PyStr.startswith.
    destruct b as [| x b']; [reflexivity |].
    rewrite prefix_cons. simpl in Hs. apply orb_false_iff in Hs.
    destruct Hs as [Hx _]. rewrite Hx. reflexivity.
  - destruct (negb (String.eqb b EmptyString || String.eqb b ".")) eqn:Hk.
    + assert (Hc : component b = true) by (unfold component; rewrite Hs, Hk; reflexivity).
      rewrite (parts_of_component _ Hc). simpl. unfold proper. rewrite Hc.
      rewrite forallb_forall in Hraw. rewrite (Hraw b); [reflexivity |].
      unfold Posix.parts_of. apply filter_In. split; [exact Hin | exact Hk].
    + unfold Posix.parts_of. rewrite (split_no_sep _ _ Hs). simpl. rewrite Hk.
      reflexivity.
Qed.

Lemma invoker_file_under cwd raw :
  forallb proper cwd = true ->
  forallb not_parent (Posix.parts_of raw) = true ->
  let file := if Posix.isabs raw then Posix.basename raw else raw in
  Posix.within (Posix.abs_parts cwd "reports")
    (Posix.abs_parts cwd
       (Posix.abspath cwd
          (Posix.str (Posix.joinpath Orchestrator.REPORTS_DIR (Posix.Path_of file)))))
  = true.
Proof.
  intros Hcwd Hraw file.
  assert (Hfile : Posix.isabs file = false
                  /\ forallb proper (Posix.parts_of file) = true).
  { unfold file. destruct (Posix.isabs raw) eqn:Ha.
    - apply basename_parts. exact Hraw.
    - split; [exact Ha |].
      apply proper_join; [apply parts_of_components | exact Hraw]. }
  destruct Hfile as [Habs Hparts].
  destruct (proper_split _ Hparts) as [Hc Hn].
  destruct (proper_split _ Hcwd) as [_ Hcn].
  unfold Posix.joinpath, Orchestrator.REPORTS_DIR.
  cbn [Posix.anchored Posix.parts Posix.Path_of]. rewrite Habs.
  change (Posix.isabs "reports") with false.
  change (Posix.parts_of "reports") with ["reports"].
  unfold Posix.str. cbn [Posix.anchored Posix.parts app].
  set (t := Posix.parts_of file) in *.
  assert (Hrel : Posix.isabs (PyStr.join "/" ("reports" :: t)) = false).
  { destruct t; reflexivity. }
  assert (Hparts' : Posix.parts_of (PyStr.join "/" ("reports" :: t)) = "reports" :: t).
  { apply parts_of_join. simpl. exact Hc. }
  unfold Posix.abspath.
  assert (Habsparts : Posix.abs_parts cwd (PyStr.join "/" ("reports" :: t))
                      = (cwd ++ "reports" :: t)%list).
  { unfold Posix.abs_parts. rewrite Hrel, Hparts'.
    apply normalize_plain. rewrite forallb_app, Hcn. simpl. exact Hn. }
  rewrite Habsparts, rooted_abs_parts.
  - rewrite (reports_dir_parts _ Hcwd).
    change (cwd ++ "reports" :: t)%list with (cwd ++ ["reports"] ++ t)%list.
    rewrite app_assoc. apply within_app.
  - rewrite forallb_app, Hcwd. simpl. exact Hparts.
Qed.

(** X14.  The invoker writes a document inside the reports directory
    whenever no component of the file name it is given is [..]. *)
Theorem invoker_writes_in_reports :
  forall env tool_name arguments_json model_name h d raw p,
    forallb proper (cwd env) = true ->
    parsed_arguments env arguments_json = Some (VDict d) ->
    get_or "filename" (VStr "report.pdf") d = VStr raw ->
    forallb not_parent (Posix.parts_of raw) = true ->
    In (PdfOutput p)
       (snd (_execute_tool env tool_name arguments_json model_name h)) ->
    Posix.within (Posix.abs_parts (cwd env) "reports")
      (Posix.abs_parts (cwd env) p) = true.
Proof.
  intros env tool_name arguments_json model_name h d raw p Hcwd Hargs Hf Hraw Hin.
  assert (He : emits (writes_under env (Posix.abs_parts (cwd env) "reports"))
                 (_execute_tool env tool_name arguments_json model_name)).
  { unfold _execute_tool. rewrite Hargs.
    apply emits_bind; [apply emits_resolve_alias | intros name].
    apply emits_bind;
      [| intros taken; destruct taken; apply emits_ret].
    apply emits_try_except; [| intros e; apply emits_ret].
    unfold tool_branches.
    destruct (eq_str name "generate_pdf_report").
    - unfold attr_get. apply emits_bind_ret. cbv zeta. rewrite Hf.
      apply emits_bind; [apply emits_perform; reflexivity | intros _].
      apply emits_bind; [| intros path; apply emits_ret].
      apply generate_report_under. apply invoker_file_under; assumption.
    - unfold asyncio_run, scrape, send_email, analyze_image.
      repeat first
        [ apply emits_attr_get | apply emits_py_join | emits_step ]. }
  specialize (He h). rewrite forallb_forall in He. exact (He _ Hin).
Qed.

Lemma invoker_writes_in_reports_witness :
  Posix.within (Posix.abs_parts (cwd Demo.env0) "reports")
    (Posix.abs_parts (cwd Demo.env0) "/srv/app/reports/q3/summary.pdf") = true.
Proof.
  apply (invoker_writes_in_reports Demo.env0 (VStr "pdf_tool")
           ("{" ++ Demo.q "filename" ++ ": " ++ Demo.q "q3/./summary.pdf" ++ "}")
           "m" [] [("filename", VStr "q3/./summary.pdf")] "q3/./summary.pdf").
  - reflexivity.
  - reflexivity.
  - reflexivity.
  - reflexivity.
  - vm_compute. right. right. right. left. reflexivity.
Defined.

(** ** The session of a run *)



(** The session of the run with two tool calls. *)
Example session_of_two_calls :
  filter session_effect (snd (stream_agent_task Demo.env_two_calls 1 "hi" None []))
  = (SessionGet 1
     :: storing {| log_agent_id := 1; input_query := "hi";
                   thought_process :=
                     PyStr.join PyStr.nl
                       ["USER: hi";
                        "ACTION (step 0): nope | {}";
                        "OBSERVATION (step 0): ERROR: unknown tool 'nope'.";
                        "ACTION (step 0): send_email | {}";
                        "OBSERVATION (step 0): ERROR: 'to' (recipient list) is required.";
                        "THOUGHT (step 1): done"];
                   final_output := "done" |}
     ++ [SessionClose])%list.
Proof. vm_compute. reflexivity. Qed.

(** ** The agent node of a workflow *)

Lemma agent_frames_no_final env evs :
  forall v h,
    forallb (fun ed => stream_event (fst ed)) evs = true ->
    (forall payload, ~ In ("final", payload) evs) ->
    agent_frames env v (map (fun ed => _sse (fst ed) (snd ed)) evs) h = (Ok v, []).
Proof.
  induction evs as [| [ev d] evs IH]; intros v h Hev Hnf; [reflexivity |].
  simpl in Hev. apply andb_prop in Hev. destruct Hev as [He Hevs].
  simpl map. cbn [agent_frames]. unfold bind, agent_frame.
  cbn [fst snd]. rewrite (parse_frame_stream _ _ He).
  destruct (String.eqb ev "final") eqn:Hf.
  - apply String.eqb_eq in Hf. subst ev. exfalso. apply (Hnf d). left. reflexivity.
  - cbn [andb]. unfold ret at 1. rewrite IH; [reflexivity | exact Hevs |].
    intros payload Hin. apply (Hnf payload). right. exact Hin.
Qed.

(** X16.  An agent node whose agent sends no final event (it does not
    exist, or its run failed) still succeeds: its result is the empty
    text, and the error is not passed on.  Only what closing the session
    raises, if it raises, is passed on. *)
Theorem agent_node_without_final :
  forall env node_id key d data h id,
    get_or "agent_id" VNone d = VInt id ->
    let run := stream_agent_task env id (node_prompt env d data) None h in
    let w := snd run in
    (forall payload, ~ In ("final", payload) (events_of w)) ->
    _execute_node env node_id (VStr "agent") key (VDict d) data h
    = (match fst run with
       | Ok _ => Ok (VStr EmptyString)
       | Raise e => Raise e
       end, w).
Proof.
  intros env node_id key d data h id Hid run w Hnf.
  pose proof (stream_events_known env id (node_prompt env d data) None h) as Hknown.
  unfold w, run in *.
  destruct (stream_agent_task env id (node_prompt env d data) None h)
    as [rs ws] eqn:Hs.
  simpl fst. simpl snd in *.
  unfold _execute_node. cbn [eq_str String.eqb Ascii.eqb Bool.eqb]. cbv iota.
  unfold attr_get. unfold bind at 1. unfold ret at 1. cbv beta iota.
  rewrite Hid. cbv zeta. fold (node_prompt env d data).
  unfold py_int. unfold bind at 1. unfold ret at 1. cbv beta iota.
  rewrite !app_nil_r.
  unfold bind at 1. unfold Orchestrator.frames. rewrite Hs.
  destruct rs as [[] | e]; [| reflexivity].
  unfold frames_of.
  rewrite (agent_frames_no_final env _ _ _ Hknown Hnf).
  rewrite !app_nil_r. reflexivity.
Qed.

Lemma agent_node_without_final_witness :
  _execute_node Demo.env0 "n" (VStr "agent") (VStr "agent")
    (VDict [("agent_id", VInt 1)]) (VStr "hi") []
  = (Ok (VStr EmptyString),
     [SessionGet 1; Yield "thought" (querying 0 DEFAULT_MODEL_NAME);
      ChatCompletion DEFAULT_MODEL_NAME
        [SystemMsg (_build_system_prompt Demo.env0 Demo.agent1); UserMsg "hi"]
        ["generate_pdf_report"];
      Yield "error" "Fatal error: Connection error.";
      SessionClose; Yield "done" "[DONE]"]).
Proof.
  refine (eq_trans
            (agent_node_without_final Demo.env0 "n" (VStr "agent")
               [("agent_id", VInt 1)] (VStr "hi") [] 1 eq_refl _) _).
  - intros payload Hin. vm_compute in Hin.
    repeat (destruct Hin as [Hin | Hin]; [discriminate |]). exact Hin.
  - vm_compute. reflexivity.
Defined.

(** ** No node runs twice *)

Lemma NoDup_keys_filter {A} (f : string * A -> bool) d :
  NoDup (keys d) -> NoDup (map fst (filter f d)).
Proof.
  induction d as [| [k v] d IH]; simpl; intros H; [constructor |].
  inversion H as [| ? ? Hnin Hnd]; subst.
  destruct (f (k, v)); simpl; [| exact (IH Hnd)].
  constructor; [| exact (IH Hnd)].
  intros Hin. apply Hnin. apply in_map_iff in Hin.
  destruct Hin as ([k' v'] & E & Hin'). simpl in E. subst k'.
  apply filter_In in Hin'. destruct Hin' as [Hin' _].
  apply in_map_iff. exists (k, v'). auto.
Qed.

Lemma children_NoDup g x :
  NoDup (graph_edges g) -> NoDup (get_or x [] (outgoing_of g)).
Proof.
  intros H. rewrite children_of_edges.
  induction (graph_edges g) as [| [s t] es IH]; simpl; [constructor |].
  inversion H as [| ? ? Hnin Hnd]; subst.
  destruct (String.eqb s x) eqn:E; simpl; [| exact (IH Hnd)].
  apply String.eqb_eq in E. subst s.
  constructor; [| exact (IH Hnd)].
  intros Hin. apply Hnin. apply in_map_iff in Hin.
  destruct Hin as ([s' t'] & Et & Hin'). simpl in Et. subst t'.
  apply filter_In in Hin'. destruct Hin' as [Hin' Hs]. simpl in Hs.
  apply String.eqb_eq in Hs. subst s'. exact Hin'.
Qed.

Section Once.
Variables (env : Env) (g : graph).
Hypothesis edges_NoDup : NoDup (graph_edges g).

Let pa := fun x => get_or x [] (incoming_of g).
Let ch := fun x => get_or x [] (outgoing_of g).

Lemma while_ready_once :
  forall fuel st h,
    queued_once pa st ->
    let r := while_ready env fuel (nodes_of g) (incoming_of g) (outgoing_of g) st h in
    NoDup (run_order r) /\ forall x, In x (run_order r) -> ~ In x (completed st).
Proof.
  induction fuel as [| fuel IH]; intros st h (Hnd & Hfresh & Hq & Hc) r; subst r.
  - simpl. split; [constructor | tauto].
  - simpl. destruct (ready st) as [| nid rest] eqn:Hready.
    + simpl. split; [constructor | tauto].
    + assert (Hnid : ~ In nid (completed st)) by (apply Hfresh; left; reflexivity).
      destruct (run_node env (nodes_of g) (incoming_of g) (outgoing_of g) _ nid h)
        as [[st' | e] w] eqn:Hnode; simpl.
      * apply run_node_ok in Hnode. simpl in Hnode.
        destruct Hnode as (_ & Hr & Hcm & _).
        inversion Hnd as [| ? ? Hnin Hnd']; subst.
        assert (Hjoin : forall c, In c (joining pa ch nid (completed st)) ->
                          In nid (pa c) /\ In c (ch nid)).
        { intros c Hin. unfold joining in Hin. apply filter_In in Hin.
          destruct Hin as [Hin _]. split; [| exact Hin].
          apply edge_of_parent. apply edge_of_child. exact Hin. }
        assert (Hinv : queued_once pa st').
        { unfold queued_once. rewrite Hr, Hcm. split; [| split; [| split]].
          - apply NoDup_app; [exact Hnd' | |].
            + unfold joining. apply NoDup_filter. apply children_NoDup.
              exact edges_NoDup.
            + intros c Hc1 Hc2. destruct (Hjoin c Hc2) as [Hp _].
              apply Hnid. apply (Hq c nid); [right; exact Hc1 | exact Hp].
          - intros x Hx Hin. apply set_add_in in Hin.
            apply in_app_iff in Hx. destruct Hx as [Hx | Hx].
            + destruct Hin as [-> | Hin]; [tauto |].
              apply (Hfresh x); [right; exact Hx | exact Hin].
            + destruct (Hjoin x Hx) as [Hp _].
              destruct Hin as [-> | Hin].
              * apply Hnid. apply (Hq nid nid); [left; reflexivity | exact Hp].
              * apply Hnid. apply (Hc x nid); assumption.
          - intros x p Hx Hp. apply in_app_iff in Hx. destruct Hx as [Hx | Hx].
            + apply set_add_in. right. apply (Hq x p); [right; exact Hx | exact Hp].
            + exact (joining_parents _ _ _ _ _ _ Hx Hp).
          - intros x p Hx Hp. apply set_add_in in Hx. apply set_add_in. right.
            destruct Hx as [-> | Hx].
            + apply (Hq nid p); [left; reflexivity | exact Hp].
            + apply (Hc x p); assumption. }
        destruct (IH st' (h ++ w)%list Hinv) as (I1 & I2).
        split.
        -- constructor; [| exact I1].
           intros Hin. apply (I2 nid Hin). rewrite Hcm. apply set_add_in.
           left. reflexivity.
        -- intros x [<- | Hx]; [exact Hnid |].
           intros Hin. apply (I2 x Hx). rewrite Hcm. apply set_add_in.
           right. exact Hin.
      * split; [repeat constructor; simpl; tauto |].
        intros x [<- | []]. exact Hnid.
Qed.

End Once.

(** X17.  When the graph names no edge twice, no node runs twice, however
    the run ends. *)
Theorem no_node_runs_twice :
  forall env g fuel h,
    NoDup (graph_edges g) ->
    NoDup (run_order (execute_graph env fuel g h)).
Proof.
  intros env g fuel h Hedges. rewrite execute_graph_order.
  apply (while_ready_once env g Hedges fuel (initial_state (incoming_of g)) h).
  split; [| split; [| split]].
  - unfold initial_state. simpl. apply NoDup_keys_filter. apply incoming_keys_NoDup.
  - intros x _ [].
  - intros x p Hx Hp. apply initial_ready_no_parent in Hx.
    rewrite Hx in Hp. destruct Hp.
  - intros x p [].
Qed.

Lemma no_node_runs_twice_witness : NoDup ["A"; "B"; "C"].
Proof.
  apply (no_node_runs_twice Demo.env0 Demo.chain_graph 5 []).
  repeat constructor; simpl; intuition discriminate.
Defined.


(** ** The answer that is stored *)

Lemma parse_inline_silent env text h r w :
  _parse_inline_tool_call env text h = (r, w) -> w = [].
Proof.
  intros H. apply silent_nil.
  assert (He : emits (fun _ => false) (_parse_inline_tool_call env text)).
  { unfold _parse_inline_tool_call.
    repeat first [apply emits_attr_get | apply emits_loads_guarded | emits_step]. }
  specialize (He h). rewrite H in He. exact He.
Qed.

(** A step that sets the final answer ends the loop, and the answer is
    the text of the thought event it has just sent. *)
Lemma handle_reply_answer env model_name step st choices h c st' w a :
  handle_reply env model_name step st choices h = (Ok (c, st'), w) ->
  final_answer st = None ->
  final_answer st' = Some a ->
  w = [Yield "thought" a] /\ PyStr.nonempty a = true.
Proof.
  intros Hrun Hnone Hsome.
  destruct c.
  { pose proof (handle_reply_keeps_answer env model_name step st _ _ _ _ Hrun eq_refl)
      as Hk. simpl in Hk. congruence. }
  unfold handle_reply in Hrun.
  destruct choices as [| message others];
    [unfold bind, raise in Hrun; discriminate |].
  unfold bind at 1 in Hrun. unfold ret at 1 in Hrun. cbv beta iota zeta in Hrun.
  set (text := match content message with Some s => s | None => EmptyString end) in *.
  destruct (tool_calls message) as [| tc tcs].
  - destruct (PyStr.nonempty text) eqn:Hne.
    + unfold bind at 1 in Hrun. unfold bind at 1 in Hrun.
      unfold yield_, emit, ret in Hrun. cbv beta iota in Hrun.
      simpl app in Hrun.
      destruct (_parse_inline_tool_call env text ((h ++ []) ++ [Yield "thought" text])%list)
        as [[parsed | e] wp] eqn:Hp.
      * pose proof (parse_inline_silent _ _ _ _ _ Hp) as ->.
        unfold bind at 1 in Hrun. rewrite Hp in Hrun.
        destruct parsed as [[t_name t_args] |].
        -- destruct (bind (run_inline_call env step model_name _ t_name t_args) _ _)
             as [[[c2 st2] | e2] w2] eqn:Hb; inversion Hrun.
           subst. unfold bind in Hb.
           destruct (run_inline_call env step model_name _ t_name t_args _)
             as [[st3 | e3] w3]; inversion Hb.
        -- inversion Hrun; subst. simpl in Hsome. inversion Hsome; subst.
           split; [reflexivity | exact Hne].
      * unfold bind at 1 in Hrun. rewrite Hp in Hrun. inversion Hrun.
    + unfold bind, ret in Hrun. inversion Hrun; subst. congruence.
  - exfalso. revert Hrun. generalize (tc :: tcs). intros l Hrun.
    destruct (PyStr.nonempty text); unfold bind, ret, yield_, emit in Hrun;
      cbv beta iota in Hrun;
      match type of Hrun with
      | context [drain_tool_calls ?e ?s ?m ?x ?t ?hh] =>
          destruct (drain_tool_calls e s m x t hh) as [[? | ?] ?]
      end; inversion Hrun.
Qed.

Lemma react_loop_answer env model_name schemas steps :
  forall st h st' w a,
    react_loop env model_name schemas steps st h = (Ok st', w) ->
    final_answer st = None ->
    final_answer st' = Some a ->
    (exists before, w = (before ++ [Yield "thought" a])%list)
    /\ PyStr.nonempty a = true.
Proof.
  induction steps as [| step steps IH]; intros st h st' w a Hrun Hnone Hsome.
  - simpl in Hrun. inversion Hrun; subst. congruence.
  - cbn [react_loop] in Hrun. bind_cases Hrun; [| discriminate].
    destruct a0 as [c st1].
    assert (Hstep : exists wh,
               w0 = (Yield "thought" (querying step model_name)
                     :: ChatCompletion model_name (messages st) schemas :: wh)%list
               /\ exists choices hh,
                    handle_reply env model_name step st choices hh = (Ok (c, st1), wh)).
    { clear Hk. unfold react_step in Ha. fold (querying step model_name) in Ha.
      bind_cases Ha; [| discriminate]. unfold yield_, emit in Ha0.
      inversion Ha0; subst. rewrite bind_ask in Hk.
      destruct (chat_create env _ model_name (messages st) schemas)
        as [choices | e]; [| discriminate].
      destruct (handle_reply env model_name step st choices _) as [r wh] eqn:Hh.
      inversion Hk; subst. exists wh. split; [reflexivity |].
      exists choices. eexists. exact Hh. }
    destruct Hstep as (wh & -> & choices & hh & Hh). subst w.
    destruct c.
    + pose proof (handle_reply_keeps_answer env model_name step st _ _ _ _ Hh eq_refl)
        as Hkeep. simpl in Hkeep.
      destruct (IH st1 _ st' w1 a Hk) as ((before & ->) & Hne);
        [congruence | exact Hsome |].
      split; [| exact Hne].
      eexists. rewrite app_assoc. reflexivity.
    + unfold ret in Hk. inversion Hk; subst.
      destruct (handle_reply_answer _ _ _ _ _ _ _ _ _ _ Hh Hnone Hsome) as (-> & Hne).
      split; [| exact Hne].
      exists [Yield "thought" (querying step model_name);
              ChatCompletion model_name (messages st) schemas].
      rewrite app_nil_r. reflexivity.
Qed.

Lemma commit_in_commits log w : In (SessionCommit log) w -> In log (commits w).
Proof.
  intros H. unfold commits. apply in_flat_map.
  exists (SessionCommit log). split; [exact H | left; reflexivity].
Qed.

(** The record a run commits is that of the state its loop returned, and
    the commit follows the loop and [session.add]. *)
Lemma stream_commit env agent_id user_prompt image_path h log :
  let w := snd (stream_agent_task env agent_id user_prompt image_path h) in
  In (SessionCommit log) w ->
  exists agent st wl after,
    loop_of env agent agent_id user_prompt image_path h = (Ok st, wl)
    /\ log = task_log agent user_prompt st
    /\ w = (SessionGet agent_id :: wl
            ++ SessionAdd log :: SessionCommit log :: after)%list.
Proof.
  intros w Hin. subst w. rewrite stream_eq in *.
  apply commit_in_commits in Hin. rewrite commits_ended in Hin.
  assert (Hbody : exists agent st wl after,
             loop_of env agent agent_id user_prompt image_path h = (Ok st, wl)
             /\ log = task_log agent user_prompt st
             /\ attempt env agent_id user_prompt image_path h
                = (SessionGet agent_id :: wl
                   ++ SessionAdd log :: SessionCommit log :: after)%list).
  { destruct (attempt_shape env agent_id user_prompt image_path h)
      as [(_ & E) | [(wl & ws & e & Hl & _ & _ & Hws & E)
                    | (agent & st & wl & id & _ & _ & Hloop & _ & Hl & _ & E)]];
      rewrite E in *; clear E.
    - destruct Hin.
    - destruct (loop_effects_quiet _ Hl) as (Hc & _).
      change (SessionGet agent_id :: ?x) with ([SessionGet agent_id] ++ x)%list in Hin.
      rewrite !commits_app, Hc in Hin. simpl in Hin. rewrite app_nil_r in Hin.
      destruct Hws as [-> | (agent & st & Hloop & Hs)]; [destruct Hin |].
      apply store_log_raise in Hs.
      destruct Hs as [(_ & ->) | [(_ & ->) | (_ & ->)]]; simpl in Hin.
      + destruct Hin.
      + destruct Hin as [<- | []]. exists agent, st, wl. eexists.
        split; [exact Hloop | split; reflexivity].
      + destruct Hin as [<- | []]. exists agent, st, wl. eexists.
        split; [exact Hloop | split; reflexivity].
    - destruct (loop_effects_quiet _ Hl) as (Hc & _).
      change (SessionGet agent_id :: ?x) with ([SessionGet agent_id] ++ x)%list in Hin.
      rewrite !commits_app, Hc in Hin. simpl in Hin.
      destruct Hin as [<- | []]. exists agent, st, wl. eexists.
      split; [exact Hloop | split; reflexivity]. }
  destruct Hbody as (agent & st & wl & after & Hloop & Hlog & Hb).
  exists agent, st, wl.
  destruct (ended_effects env h (attempt env agent_id user_prompt image_path h))
    as [-> | ->]; rewrite Hb; eexists;
    (split; [exact Hloop | split; [exact Hlog |]]);
    simpl; rewrite <- !app_assoc; reflexivity.
Qed.

(** X18.  The record a run stores is about the prompt it was given, and
    its answer is either the text that stands for a missing answer or the
    text of the thought event sent just before the record was stored. *)
Theorem stored_answer_was_streamed :
  forall env agent_id user_prompt image_path h log,
    let w := snd (stream_agent_task env agent_id user_prompt image_path h) in
    In (SessionCommit log) w ->
    input_query log = user_prompt
    /\ (final_output log = NO_FINAL_TEXT
        \/ (PyStr.nonempty (final_output log) = true
            /\ exists before after,
                 w = (before ++ Yield "thought" (final_output log)
                      :: SessionAdd log :: SessionCommit log :: after)%list)).
Proof.
  intros env agent_id user_prompt image_path h log w Hin.
  destruct (stream_commit env agent_id user_prompt image_path h log Hin)
    as (agent & st & wl & after & Hloop & -> & Hw).
  fold w in Hw.
  split; [reflexivity |].
  unfold task_log at 1 2. cbn [final_output]. unfold final_text.
  destruct (final_answer st) as [a |] eqn:Ha; [right | left; reflexivity].
  destruct (react_loop_answer _ _ _ _ _ _ _ _ _ Hloop eq_refl Ha)
    as ((before & ->) & Hne).
  split; [exact Hne |].
  exists (SessionGet agent_id :: before), after.
  rewrite Hw. simpl. rewrite <- app_assoc.
  unfold task_log, final_text. rewrite Ha. reflexivity.
Qed.

Lemma stored_answer_was_streamed_witness :
  exists log,
    In (SessionCommit log)
       (snd (stream_agent_task (Demo.env_of (Demo.scripted [Demo.says "All good."]))
               1 "hi" None []))
    /\ input_query log = "hi"
    /\ final_output log = "All good.".
Proof.
  eexists. split; [vm_compute; do 5 right; left; reflexivity |].
  destruct (stored_answer_was_streamed
              (Demo.env_of (Demo.scripted [Demo.says "All good."])) 1 "hi" None []
              {| log_agent_id := 1; input_query := "hi";
                 thought_process :=
                   PyStr.join PyStr.nl ["USER: hi"; "THOUGHT (step 0): All good."];
                 final_output := "All good." |}) as (Hq & _).
  - vm_compute. do 5 right. left. reflexivity.
  - split; [exact Hq | reflexivity].
Defined.
(** ** The inline fallback *)

Lemma stateless_ret {A} (a : A) : stateless (ret a).
Proof. intros h h'. reflexivity. Qed.

Lemma stateless_raise {A} cls text : stateless (@raise A cls text).
Proof. intros h h'. reflexivity. Qed.

Lemma stateless_lift {A} (r : result A) : stateless (lift r).
Proof. intros h h'. reflexivity. Qed.

Lemma stateless_bind {A B} (m : M A) (k : A -> M B) :
  stateless m -> (forall a, stateless (k a)) -> stateless (bind m k).
Proof.
  intros Hm Hk h h'. unfold bind. rewrite (Hm h h').
  destruct (m h') as [[a | e] w]; [| reflexivity].
  rewrite (Hk a (h ++ w)%list (h' ++ w)%list). reflexivity.
Qed.

Ltac stateless_step :=
  first
    [ apply stateless_ret
    | apply stateless_raise
    | apply stateless_lift
    | apply stateless_bind; [| intros ?]
    | match goal with
      | |- stateless (if ?b then _ else _) => destruct b
      | |- stateless (match ?x with _ => _ end) => destruct x
      | |- stateless (let _ := _ in _) => cbv zeta
      end ].

(** Looking for an inline call reads no history. *)
Lemma parse_inline_pure env text : stateless (_parse_inline_tool_call env text).
Proof.
  unfold _parse_inline_tool_call, loads_guarded, attr_get.
  repeat stateless_step.
Qed.

(** From inside a run, where an event loop is running, the invoker sends
    no request: [asyncio.run] refuses to start the scraper. *)
Lemma execute_tool_no_request env tool_name arguments_json model_name :
  emits no_request (_execute_tool (in_loop env) tool_name arguments_json model_name).
Proof.
  unfold _execute_tool, tool_branches, asyncio_run, send_email, generate_report,
    analyze_image.
  change (loop_running (in_loop env)) with true. cbv iota.
  repeat first
    [ apply emits_resolve_alias | apply emits_attr_get | apply emits_py_join
    | emits_step ].
Qed.

(** X19.  A reply without tool calls whose text holds an inline call, of
    a name that the alias table can look up and with arguments that decode
    again, is not an answer: the step sends the thought, the action and the
    observation events around the effects of the tool, appends one
    assistant message with the observation, keeps the artifact if there is
    one, leaves the final answer unset and continues the loop.  The tool
    runs where an event loop is running, so that no request is sent: the
    scraper is refused by [asyncio.run]. *)
Theorem inline_call_is_executed :
  forall env model_name step st msg others h text name args,
    content msg = Some text ->
    PyStr.nonempty text = true ->
    tool_calls msg = [] ->
    fst (_parse_inline_tool_call env text []) = Ok (Some (name, args)) ->
    hashable name = true ->
    decodes env (json_dumps env (VDict args)) = true ->
    let t_args := json_dumps env (VDict args) in
    let thought := Yield "thought" text in
    let action :=
      Yield "action"
        ("[ACTION] Intercepted inline tool call: " ++ py_str env name ++ PyStr.nl
         ++ "Args: " ++ t_args) in
    exists obs art w st',
      _execute_tool (in_loop env) name t_args model_name (h ++ [thought; action])%list
      = (Ok (obs, art), w)
      /\ forallb no_request w = true
      /\ handle_reply env model_name step st (msg :: others) h
         = (Ok (Continue, st'),
            (thought :: action :: w
             ++ [Yield "observation" ("[OBSERVATION] " ++ obs)])%list)
      /\ messages st'
         = (messages st
            ++ [AssistantMsg ("[Tool '" ++ py_str env name ++ "' executed.]"
                              ++ PyStr.nl ++ obs)])%list
      /\ last_artifact_path st' = keep_artifact art (last_artifact_path st)
      /\ final_answer st' = final_answer st.
Proof.
  intros env model_name step st msg others h text name args
         Hcontent Hne Htc Hparse Hh Hd t_args thought action.
  destruct (execute_tool_returns (in_loop env) name t_args model_name
              (h ++ [thought; action])%list Hh (fun _ => Hd))
    as ([obs art] & w & Hrun).
  exists obs, art, w. eexists. split; [exact Hrun |].
  split.
  { pose proof (execute_tool_no_request env name t_args model_name
                  (h ++ [thought; action])%list) as He.
    rewrite Hrun in He. exact He. }
  assert (Hp : forall h', _parse_inline_tool_call env text h'
                          = (Ok (Some (name, args)), [])).
  { intros h'. rewrite (parse_inline_pure env text h' []).
    destruct (_parse_inline_tool_call env text []) as [r wp] eqn:E.
    pose proof (parse_inline_silent _ _ _ _ _ E) as ->.
    simpl in Hparse. subst r. reflexivity. }
  unfold handle_reply.
  unfold bind at 1. unfold ret at 1. cbv beta iota zeta.
  rewrite Hcontent, Htc, Hne.
  unfold bind at 1. unfold bind at 1. unfold yield_ at 1. unfold emit at 1.
  unfold ret at 1. cbv beta iota.
  unfold bind at 1. rewrite Hp. cbv beta iota.
  unfold run_inline_call. cbv zeta. fold t_args.
  fold action.
  unfold bind at 1. unfold bind at 1. unfold yield_ at 1. unfold emit at 1.
  cbv beta iota.
  unfold bind at 1.
  match goal with
  | |- context [_execute_tool (in_loop env) name t_args model_name ?hh] =>
      replace hh with (h ++ [thought; action])%list
        by (unfold thought, action; rewrite !app_nil_r, <- !app_assoc; reflexivity)
  end.
  rewrite Hrun. cbv beta iota.
  unfold bind, yield_, emit, ret. cbv beta iota.
  split; [| split; [| split]]; simpl; rewrite ?app_nil_r; try reflexivity.
Qed.

Lemma inline_call_is_executed_witness :
  let text :=
    "Fetching. {" ++ Demo.q "tool" ++ ": " ++ Demo.q "web_scraper" ++ ", "
    ++ Demo.q "arguments" ++ ": {" ++ Demo.q "url" ++ ": "
    ++ Demo.q "https://example.org" ++ "}}" in
  let st := {| messages := [UserMsg "hi"]; thought_log := [];
               final_answer := None; last_artifact_path := None |} in
  exists st',
    handle_reply Demo.env0 "m" 0 st [Demo.says text] []
    = (Ok (Continue, st'),
       [Yield "thought" text;
        Yield "action"
          ("[ACTION] Intercepted inline tool call: web_scraper" ++ PyStr.nl
           ++ "Args: {" ++ Demo.q "url" ++ ": " ++ Demo.q "https://example.org" ++ "}");
        Yield "observation"
          ("[OBSERVATION] ERROR while executing 'web_scraper_tool': "
           ++ "asyncio.run() cannot be called from a running event loop")])
    /\ final_answer st' = None.
Proof.
  intros text st.
  destruct (inline_call_is_executed Demo.env0 "m" 0 st (Demo.says text) [] []
              text (VStr "web_scraper") [("url", VStr "https://example.org")])
    as (obs & art & w & st' & Hrun & _ & Hreply & _ & _ & Hans);
    [reflexivity | reflexivity | reflexivity | vm_compute; reflexivity
    | reflexivity | reflexivity |].
  exists st'. split; [| exact Hans].
  vm_compute in Hrun. inversion Hrun; subst obs art w. exact Hreply.
Defined.
